(** * TeslapLX: ELM327 interpreter, CAN ingestion and Bluetooth SPP transport

    A shallow embedding of the parts of [main/elm.c], [main/can.c] and
    [main/bt.c] that carry the adapter's behaviour, followed by the
    properties established about them.

    Conventions.
    - A C [uint32_t] is a [Z]; wherever the C arithmetic can leave the range
      [0 .. 2^32-1] the reduction modulo [2^32] is written out with [u32].
    - A C string is a [string]; the terminating NUL is implicit, so reading
      the character at the end of a string yields [NUL].
    - Everything a function does to the outside world (bytes printed on the
      session stream, calls into the IDF or into the wifi/ota/elog modules)
      is appended, in order, to a list of events.
    - The [ESP_LOGW] and [ESP_LOGE] calls of elm.c are events too:
      [uart_task] makes the stream of the UART session the log sink at
      level WARN, so on that session their lines land between the lines
      of the interpreter.  [ESP_LOGI] and [ESP_LOGD] calls are below that
      level, which only an ELOG command changes, and are left out, as are
      the log calls of can.c and bt.c, which belong to no session. *)

From Stdlib Require Import ZArith List String Ascii Bool Lia.
From Stdlib Require Import Strings.Byte.
Import ListNotations.
Local Open Scope string_scope.
Local Open Scope list_scope.
Local Open Scope Z_scope.

Set Implicit Arguments.

(** ** Machine integers and C strings *)

Definition u32 (x : Z) : Z := x mod 2 ^ 32.

Definition NUL : ascii := Ascii.zero.

(** The character a C string pointer [c] points at. *)
Definition deref (c : string) : ascii :=
  match c with
  | EmptyString => NUL
  | String a _ => a
  end.

(** [c[i]], for [i] not past the terminating NUL. *)
Fixpoint char_at (c : string) (i : nat) : ascii :=
  match i, c with
  | _, EmptyString => NUL
  | O, String a _ => a
  | S i', String _ r => char_at r i'
  end.

(** [c + n], for [n] not past the terminating NUL. *)
Fixpoint advance (n : nat) (c : string) : string :=
  match n, c with
  | O, _ => c
  | S n', String _ r => advance n' r
  | S _, EmptyString => EmptyString
  end.

(** The loop that advances [c] while it points at a space. *)
Fixpoint skip_spaces (c : string) : string :=
  match c with
  | String a r => if Ascii.eqb a " " then skip_spaces r else c
  | EmptyString => c
  end.

Definition ascii_between (lo c hi : ascii) : bool :=
  (nat_of_ascii lo <=? nat_of_ascii c)%nat && (nat_of_ascii c <=? nat_of_ascii hi)%nat.

(** [tolower] in the C locale. *)
Definition tolower (c : ascii) : ascii :=
  if ascii_between "A" c "Z" then ascii_of_nat (nat_of_ascii c + 32) else c.

(** [strcasecmp(s1, s2) == 0] *)
Fixpoint strcasecmp (s1 s2 : string) : bool :=
  match s1, s2 with
  | EmptyString, EmptyString => true
  | String a r1, String b r2 =>
      Ascii.eqb (tolower a) (tolower b) && strcasecmp r1 r2
  | _, _ => false
  end.

(** [strncasecmp(s1, s2, n) == 0] *)
Fixpoint strncasecmp (s1 s2 : string) (n : nat) : bool :=
  match n with
  | O => true
  | S n' =>
      match s1, s2 with
      | EmptyString, EmptyString => true
      | String a r1, String b r2 =>
          Ascii.eqb (tolower a) (tolower b) && strncasecmp r1 r2 n'
      | _, _ => false
      end
  end.

Definition str_is_empty (s : string) : bool :=
  match s with EmptyString => true | _ => false end.

(** ** C arrays

    A C array is a list read and written by index.  [array_set] writes
    nothing outside the list; the loops that use it stay inside the
    array. *)

Fixpoint array_set (A : Type) (l : list A) (i : nat) (v : A) : list A :=
  match l, i with
  | [], _ => []
  | _ :: t, O => v :: t
  | x :: t, S i' => x :: array_set t i' v
  end.

(** ** CAN frames ([hal/can_types.h], [can.h])

    [data] is the eight byte payload array; the message flags play no part
    in the code modelled here.  What the memory holds after the array is
    not part of the frame: a function that reads [data[i]] for [i >= 8]
    takes those bytes as a separate argument. *)

Record can_message_t : Type := mk_can_message {
  identifier : Z;
  data_length_code : Z;
  data : list Z
}.

Record can_message_timestamp_t : Type := mk_can_message_timestamp {
  msg : can_message_t;
  timestamp : Z
}.

(** * elm.c: data

    [elm_filter_t] and [elm_globals_t] as declared in the source.  The
    [FILE*] member [elm_monitor_out] is the session stream itself (it is set
    to [stdout] when the session starts, and the monitor task rebinds its
    own [stdout] to it), so it has no field: all printing lands in the one
    event list.  [elm_device_identifier] is a heap pointer that may be
    NULL, hence the [option]. *)

Module Elm.

Definition ELM_BUFFER_LEN : nat := 128.
Definition ELM_ST_FILTER_LEN : nat := 100.

Record elm_filter_t : Type := mk_filter {
  pattern : Z;
  mask : Z
}.

Record elm_globals_t : Type := mk_globals {
  elm_tag : string;
  elm_echo : bool;
  elm_linefeed : bool;
  elm_headers : bool;
  elm_spaces : bool;
  elm_dlc : bool;
  elm_timeout : Z;
  elm_device_identifier : option string;
  elm_previous_cmd : string;
  elm_memory : bool;
  elm_adaptive : Z;
  elm_can_auto_format : bool;
  elm_can_flow_control : bool;
  elm_can_silent_mode : bool;
  elm_long_message : bool;
  elm_protocol : ascii;
  elm_protocol_auto : bool;
  elm_monitor : bool;
  elm_monitor_task_run : bool;
  elm_filter : elm_filter_t;
  pass_filter : list elm_filter_t;
  block_filter : list elm_filter_t
}.

(** Field assignments [G.f = v]. *)

Definition set_elm_tag (v : string) (g : elm_globals_t) : elm_globals_t :=
  {| elm_tag := v; elm_echo := elm_echo g; elm_linefeed := elm_linefeed g;
     elm_headers := elm_headers g; elm_spaces := elm_spaces g;
     elm_dlc := elm_dlc g; elm_timeout := elm_timeout g;
     elm_device_identifier := elm_device_identifier g;
     elm_previous_cmd := elm_previous_cmd g; elm_memory := elm_memory g;
     elm_adaptive := elm_adaptive g;
     elm_can_auto_format := elm_can_auto_format g;
     elm_can_flow_control := elm_can_flow_control g;
     elm_can_silent_mode := elm_can_silent_mode g;
     elm_long_message := elm_long_message g; elm_protocol := elm_protocol g;
     elm_protocol_auto := elm_protocol_auto g; elm_monitor := elm_monitor g;
     elm_monitor_task_run := elm_monitor_task_run g;
     elm_filter := elm_filter g; pass_filter := pass_filter g;
     block_filter := block_filter g |}.

Definition set_elm_echo (v : bool) (g : elm_globals_t) : elm_globals_t :=
  {| elm_tag := elm_tag g; elm_echo := v; elm_linefeed := elm_linefeed g;
     elm_headers := elm_headers g; elm_spaces := elm_spaces g;
     elm_dlc := elm_dlc g; elm_timeout := elm_timeout g;
     elm_device_identifier := elm_device_identifier g;
     elm_previous_cmd := elm_previous_cmd g; elm_memory := elm_memory g;
     elm_adaptive := elm_adaptive g;
     elm_can_auto_format := elm_can_auto_format g;
     elm_can_flow_control := elm_can_flow_control g;
     elm_can_silent_mode := elm_can_silent_mode g;
     elm_long_message := elm_long_message g; elm_protocol := elm_protocol g;
     elm_protocol_auto := elm_protocol_auto g; elm_monitor := elm_monitor g;
     elm_monitor_task_run := elm_monitor_task_run g;
     elm_filter := elm_filter g; pass_filter := pass_filter g;
     block_filter := block_filter g |}.

Definition set_elm_linefeed (v : bool) (g : elm_globals_t) : elm_globals_t :=
  {| elm_tag := elm_tag g; elm_echo := elm_echo g; elm_linefeed := v;
     elm_headers := elm_headers g; elm_spaces := elm_spaces g;
     elm_dlc := elm_dlc g; elm_timeout := elm_timeout g;
     elm_device_identifier := elm_device_identifier g;
     elm_previous_cmd := elm_previous_cmd g; elm_memory := elm_memory g;
     elm_adaptive := elm_adaptive g;
     elm_can_auto_format := elm_can_auto_format g;
     elm_can_flow_control := elm_can_flow_control g;
     elm_can_silent_mode := elm_can_silent_mode g;
     elm_long_message := elm_long_message g; elm_protocol := elm_protocol g;
     elm_protocol_auto := elm_protocol_auto g; elm_monitor := elm_monitor g;
     elm_monitor_task_run := elm_monitor_task_run g;
     elm_filter := elm_filter g; pass_filter := pass_filter g;
     block_filter := block_filter g |}.

Definition set_elm_headers (v : bool) (g : elm_globals_t) : elm_globals_t :=
  {| elm_tag := elm_tag g; elm_echo := elm_echo g;
     elm_linefeed := elm_linefeed g; elm_headers := v;
     elm_spaces := elm_spaces g; elm_dlc := elm_dlc g;
     elm_timeout := elm_timeout g;
     elm_device_identifier := elm_device_identifier g;
     elm_previous_cmd := elm_previous_cmd g; elm_memory := elm_memory g;
     elm_adaptive := elm_adaptive g;
     elm_can_auto_format := elm_can_auto_format g;
     elm_can_flow_control := elm_can_flow_control g;
     elm_can_silent_mode := elm_can_silent_mode g;
     elm_long_message := elm_long_message g; elm_protocol := elm_protocol g;
     elm_protocol_auto := elm_protocol_auto g; elm_monitor := elm_monitor g;
     elm_monitor_task_run := elm_monitor_task_run g;
     elm_filter := elm_filter g; pass_filter := pass_filter g;
     block_filter := block_filter g |}.

Definition set_elm_spaces (v : bool) (g : elm_globals_t) : elm_globals_t :=
  {| elm_tag := elm_tag g; elm_echo := elm_echo g;
     elm_linefeed := elm_linefeed g; elm_headers := elm_headers g;
     elm_spaces := v; elm_dlc := elm_dlc g; elm_timeout := elm_timeout g;
     elm_device_identifier := elm_device_identifier g;
     elm_previous_cmd := elm_previous_cmd g; elm_memory := elm_memory g;
     elm_adaptive := elm_adaptive g;
     elm_can_auto_format := elm_can_auto_format g;
     elm_can_flow_control := elm_can_flow_control g;
     elm_can_silent_mode := elm_can_silent_mode g;
     elm_long_message := elm_long_message g; elm_protocol := elm_protocol g;
     elm_protocol_auto := elm_protocol_auto g; elm_monitor := elm_monitor g;
     elm_monitor_task_run := elm_monitor_task_run g;
     elm_filter := elm_filter g; pass_filter := pass_filter g;
     block_filter := block_filter g |}.

Definition set_elm_dlc (v : bool) (g : elm_globals_t) : elm_globals_t :=
  {| elm_tag := elm_tag g; elm_echo := elm_echo g;
     elm_linefeed := elm_linefeed g; elm_headers := elm_headers g;
     elm_spaces := elm_spaces g; elm_dlc := v; elm_timeout := elm_timeout g;
     elm_device_identifier := elm_device_identifier g;
     elm_previous_cmd := elm_previous_cmd g; elm_memory := elm_memory g;
     elm_adaptive := elm_adaptive g;
     elm_can_auto_format := elm_can_auto_format g;
     elm_can_flow_control := elm_can_flow_control g;
     elm_can_silent_mode := elm_can_silent_mode g;
     elm_long_message := elm_long_message g; elm_protocol := elm_protocol g;
     elm_protocol_auto := elm_protocol_auto g; elm_monitor := elm_monitor g;
     elm_monitor_task_run := elm_monitor_task_run g;
     elm_filter := elm_filter g; pass_filter := pass_filter g;
     block_filter := block_filter g |}.

Definition set_elm_timeout (v : Z) (g : elm_globals_t) : elm_globals_t :=
  {| elm_tag := elm_tag g; elm_echo := elm_echo g;
     elm_linefeed := elm_linefeed g; elm_headers := elm_headers g;
     elm_spaces := elm_spaces g; elm_dlc := elm_dlc g; elm_timeout := v;
     elm_device_identifier := elm_device_identifier g;
     elm_previous_cmd := elm_previous_cmd g; elm_memory := elm_memory g;
     elm_adaptive := elm_adaptive g;
     elm_can_auto_format := elm_can_auto_format g;
     elm_can_flow_control := elm_can_flow_control g;
     elm_can_silent_mode := elm_can_silent_mode g;
     elm_long_message := elm_long_message g; elm_protocol := elm_protocol g;
     elm_protocol_auto := elm_protocol_auto g; elm_monitor := elm_monitor g;
     elm_monitor_task_run := elm_monitor_task_run g;
     elm_filter := elm_filter g; pass_filter := pass_filter g;
     block_filter := block_filter g |}.

Definition set_elm_device_identifier (v : option string) (g : elm_globals_t) : elm_globals_t :=
  {| elm_tag := elm_tag g; elm_echo := elm_echo g;
     elm_linefeed := elm_linefeed g; elm_headers := elm_headers g;
     elm_spaces := elm_spaces g; elm_dlc := elm_dlc g;
     elm_timeout := elm_timeout g; elm_device_identifier := v;
     elm_previous_cmd := elm_previous_cmd g; elm_memory := elm_memory g;
     elm_adaptive := elm_adaptive g;
     elm_can_auto_format := elm_can_auto_format g;
     elm_can_flow_control := elm_can_flow_control g;
     elm_can_silent_mode := elm_can_silent_mode g;
     elm_long_message := elm_long_message g; elm_protocol := elm_protocol g;
     elm_protocol_auto := elm_protocol_auto g; elm_monitor := elm_monitor g;
     elm_monitor_task_run := elm_monitor_task_run g;
     elm_filter := elm_filter g; pass_filter := pass_filter g;
     block_filter := block_filter g |}.

Definition set_elm_previous_cmd (v : string) (g : elm_globals_t) : elm_globals_t :=
  {| elm_tag := elm_tag g; elm_echo := elm_echo g;
     elm_linefeed := elm_linefeed g; elm_headers := elm_headers g;
     elm_spaces := elm_spaces g; elm_dlc := elm_dlc g;
     elm_timeout := elm_timeout g;
     elm_device_identifier := elm_device_identifier g; elm_previous_cmd := v;
     elm_memory := elm_memory g; elm_adaptive := elm_adaptive g;
     elm_can_auto_format := elm_can_auto_format g;
     elm_can_flow_control := elm_can_flow_control g;
     elm_can_silent_mode := elm_can_silent_mode g;
     elm_long_message := elm_long_message g; elm_protocol := elm_protocol g;
     elm_protocol_auto := elm_protocol_auto g; elm_monitor := elm_monitor g;
     elm_monitor_task_run := elm_monitor_task_run g;
     elm_filter := elm_filter g; pass_filter := pass_filter g;
     block_filter := block_filter g |}.

Definition set_elm_memory (v : bool) (g : elm_globals_t) : elm_globals_t :=
  {| elm_tag := elm_tag g; elm_echo := elm_echo g;
     elm_linefeed := elm_linefeed g; elm_headers := elm_headers g;
     elm_spaces := elm_spaces g; elm_dlc := elm_dlc g;
     elm_timeout := elm_timeout g;
     elm_device_identifier := elm_device_identifier g;
     elm_previous_cmd := elm_previous_cmd g; elm_memory := v;
     elm_adaptive := elm_adaptive g;
     elm_can_auto_format := elm_can_auto_format g;
     elm_can_flow_control := elm_can_flow_control g;
     elm_can_silent_mode := elm_can_silent_mode g;
     elm_long_message := elm_long_message g; elm_protocol := elm_protocol g;
     elm_protocol_auto := elm_protocol_auto g; elm_monitor := elm_monitor g;
     elm_monitor_task_run := elm_monitor_task_run g;
     elm_filter := elm_filter g; pass_filter := pass_filter g;
     block_filter := block_filter g |}.

Definition set_elm_adaptive (v : Z) (g : elm_globals_t) : elm_globals_t :=
  {| elm_tag := elm_tag g; elm_echo := elm_echo g;
     elm_linefeed := elm_linefeed g; elm_headers := elm_headers g;
     elm_spaces := elm_spaces g; elm_dlc := elm_dlc g;
     elm_timeout := elm_timeout g;
     elm_device_identifier := elm_device_identifier g;
     elm_previous_cmd := elm_previous_cmd g; elm_memory := elm_memory g;
     elm_adaptive := v; elm_can_auto_format := elm_can_auto_format g;
     elm_can_flow_control := elm_can_flow_control g;
     elm_can_silent_mode := elm_can_silent_mode g;
     elm_long_message := elm_long_message g; elm_protocol := elm_protocol g;
     elm_protocol_auto := elm_protocol_auto g; elm_monitor := elm_monitor g;
     elm_monitor_task_run := elm_monitor_task_run g;
     elm_filter := elm_filter g; pass_filter := pass_filter g;
     block_filter := block_filter g |}.

Definition set_elm_can_auto_format (v : bool) (g : elm_globals_t) : elm_globals_t :=
  {| elm_tag := elm_tag g; elm_echo := elm_echo g;
     elm_linefeed := elm_linefeed g; elm_headers := elm_headers g;
     elm_spaces := elm_spaces g; elm_dlc := elm_dlc g;
     elm_timeout := elm_timeout g;
     elm_device_identifier := elm_device_identifier g;
     elm_previous_cmd := elm_previous_cmd g; elm_memory := elm_memory g;
     elm_adaptive := elm_adaptive g; elm_can_auto_format := v;
     elm_can_flow_control := elm_can_flow_control g;
     elm_can_silent_mode := elm_can_silent_mode g;
     elm_long_message := elm_long_message g; elm_protocol := elm_protocol g;
     elm_protocol_auto := elm_protocol_auto g; elm_monitor := elm_monitor g;
     elm_monitor_task_run := elm_monitor_task_run g;
     elm_filter := elm_filter g; pass_filter := pass_filter g;
     block_filter := block_filter g |}.

Definition set_elm_can_flow_control (v : bool) (g : elm_globals_t) : elm_globals_t :=
  {| elm_tag := elm_tag g; elm_echo := elm_echo g;
     elm_linefeed := elm_linefeed g; elm_headers := elm_headers g;
     elm_spaces := elm_spaces g; elm_dlc := elm_dlc g;
     elm_timeout := elm_timeout g;
     elm_device_identifier := elm_device_identifier g;
     elm_previous_cmd := elm_previous_cmd g; elm_memory := elm_memory g;
     elm_adaptive := elm_adaptive g;
     elm_can_auto_format := elm_can_auto_format g; elm_can_flow_control := v;
     elm_can_silent_mode := elm_can_silent_mode g;
     elm_long_message := elm_long_message g; elm_protocol := elm_protocol g;
     elm_protocol_auto := elm_protocol_auto g; elm_monitor := elm_monitor g;
     elm_monitor_task_run := elm_monitor_task_run g;
     elm_filter := elm_filter g; pass_filter := pass_filter g;
     block_filter := block_filter g |}.

Definition set_elm_can_silent_mode (v : bool) (g : elm_globals_t) : elm_globals_t :=
  {| elm_tag := elm_tag g; elm_echo := elm_echo g;
     elm_linefeed := elm_linefeed g; elm_headers := elm_headers g;
     elm_spaces := elm_spaces g; elm_dlc := elm_dlc g;
     elm_timeout := elm_timeout g;
     elm_device_identifier := elm_device_identifier g;
     elm_previous_cmd := elm_previous_cmd g; elm_memory := elm_memory g;
     elm_adaptive := elm_adaptive g;
     elm_can_auto_format := elm_can_auto_format g;
     elm_can_flow_control := elm_can_flow_control g;
     elm_can_silent_mode := v; elm_long_message := elm_long_message g;
     elm_protocol := elm_protocol g;
     elm_protocol_auto := elm_protocol_auto g; elm_monitor := elm_monitor g;
     elm_monitor_task_run := elm_monitor_task_run g;
     elm_filter := elm_filter g; pass_filter := pass_filter g;
     block_filter := block_filter g |}.

Definition set_elm_long_message (v : bool) (g : elm_globals_t) : elm_globals_t :=
  {| elm_tag := elm_tag g; elm_echo := elm_echo g;
     elm_linefeed := elm_linefeed g; elm_headers := elm_headers g;
     elm_spaces := elm_spaces g; elm_dlc := elm_dlc g;
     elm_timeout := elm_timeout g;
     elm_device_identifier := elm_device_identifier g;
     elm_previous_cmd := elm_previous_cmd g; elm_memory := elm_memory g;
     elm_adaptive := elm_adaptive g;
     elm_can_auto_format := elm_can_auto_format g;
     elm_can_flow_control := elm_can_flow_control g;
     elm_can_silent_mode := elm_can_silent_mode g; elm_long_message := v;
     elm_protocol := elm_protocol g;
     elm_protocol_auto := elm_protocol_auto g; elm_monitor := elm_monitor g;
     elm_monitor_task_run := elm_monitor_task_run g;
     elm_filter := elm_filter g; pass_filter := pass_filter g;
     block_filter := block_filter g |}.

Definition set_elm_protocol (v : ascii) (g : elm_globals_t) : elm_globals_t :=
  {| elm_tag := elm_tag g; elm_echo := elm_echo g;
     elm_linefeed := elm_linefeed g; elm_headers := elm_headers g;
     elm_spaces := elm_spaces g; elm_dlc := elm_dlc g;
     elm_timeout := elm_timeout g;
     elm_device_identifier := elm_device_identifier g;
     elm_previous_cmd := elm_previous_cmd g; elm_memory := elm_memory g;
     elm_adaptive := elm_adaptive g;
     elm_can_auto_format := elm_can_auto_format g;
     elm_can_flow_control := elm_can_flow_control g;
     elm_can_silent_mode := elm_can_silent_mode g;
     elm_long_message := elm_long_message g; elm_protocol := v;
     elm_protocol_auto := elm_protocol_auto g; elm_monitor := elm_monitor g;
     elm_monitor_task_run := elm_monitor_task_run g;
     elm_filter := elm_filter g; pass_filter := pass_filter g;
     block_filter := block_filter g |}.

Definition set_elm_protocol_auto (v : bool) (g : elm_globals_t) : elm_globals_t :=
  {| elm_tag := elm_tag g; elm_echo := elm_echo g;
     elm_linefeed := elm_linefeed g; elm_headers := elm_headers g;
     elm_spaces := elm_spaces g; elm_dlc := elm_dlc g;
     elm_timeout := elm_timeout g;
     elm_device_identifier := elm_device_identifier g;
     elm_previous_cmd := elm_previous_cmd g; elm_memory := elm_memory g;
     elm_adaptive := elm_adaptive g;
     elm_can_auto_format := elm_can_auto_format g;
     elm_can_flow_control := elm_can_flow_control g;
     elm_can_silent_mode := elm_can_silent_mode g;
     elm_long_message := elm_long_message g; elm_protocol := elm_protocol g;
     elm_protocol_auto := v; elm_monitor := elm_monitor g;
     elm_monitor_task_run := elm_monitor_task_run g;
     elm_filter := elm_filter g; pass_filter := pass_filter g;
     block_filter := block_filter g |}.

Definition set_elm_monitor (v : bool) (g : elm_globals_t) : elm_globals_t :=
  {| elm_tag := elm_tag g; elm_echo := elm_echo g;
     elm_linefeed := elm_linefeed g; elm_headers := elm_headers g;
     elm_spaces := elm_spaces g; elm_dlc := elm_dlc g;
     elm_timeout := elm_timeout g;
     elm_device_identifier := elm_device_identifier g;
     elm_previous_cmd := elm_previous_cmd g; elm_memory := elm_memory g;
     elm_adaptive := elm_adaptive g;
     elm_can_auto_format := elm_can_auto_format g;
     elm_can_flow_control := elm_can_flow_control g;
     elm_can_silent_mode := elm_can_silent_mode g;
     elm_long_message := elm_long_message g; elm_protocol := elm_protocol g;
     elm_protocol_auto := elm_protocol_auto g; elm_monitor := v;
     elm_monitor_task_run := elm_monitor_task_run g;
     elm_filter := elm_filter g; pass_filter := pass_filter g;
     block_filter := block_filter g |}.

Definition set_elm_monitor_task_run (v : bool) (g : elm_globals_t) : elm_globals_t :=
  {| elm_tag := elm_tag g; elm_echo := elm_echo g;
     elm_linefeed := elm_linefeed g; elm_headers := elm_headers g;
     elm_spaces := elm_spaces g; elm_dlc := elm_dlc g;
     elm_timeout := elm_timeout g;
     elm_device_identifier := elm_device_identifier g;
     elm_previous_cmd := elm_previous_cmd g; elm_memory := elm_memory g;
     elm_adaptive := elm_adaptive g;
     elm_can_auto_format := elm_can_auto_format g;
     elm_can_flow_control := elm_can_flow_control g;
     elm_can_silent_mode := elm_can_silent_mode g;
     elm_long_message := elm_long_message g; elm_protocol := elm_protocol g;
     elm_protocol_auto := elm_protocol_auto g; elm_monitor := elm_monitor g;
     elm_monitor_task_run := v; elm_filter := elm_filter g;
     pass_filter := pass_filter g; block_filter := block_filter g |}.

Definition set_elm_filter (v : elm_filter_t) (g : elm_globals_t) : elm_globals_t :=
  {| elm_tag := elm_tag g; elm_echo := elm_echo g;
     elm_linefeed := elm_linefeed g; elm_headers := elm_headers g;
     elm_spaces := elm_spaces g; elm_dlc := elm_dlc g;
     elm_timeout := elm_timeout g;
     elm_device_identifier := elm_device_identifier g;
     elm_previous_cmd := elm_previous_cmd g; elm_memory := elm_memory g;
     elm_adaptive := elm_adaptive g;
     elm_can_auto_format := elm_can_auto_format g;
     elm_can_flow_control := elm_can_flow_control g;
     elm_can_silent_mode := elm_can_silent_mode g;
     elm_long_message := elm_long_message g; elm_protocol := elm_protocol g;
     elm_protocol_auto := elm_protocol_auto g; elm_monitor := elm_monitor g;
     elm_monitor_task_run := elm_monitor_task_run g; elm_filter := v;
     pass_filter := pass_filter g; block_filter := block_filter g |}.

Definition set_pass_filter (v : list elm_filter_t) (g : elm_globals_t) : elm_globals_t :=
  {| elm_tag := elm_tag g; elm_echo := elm_echo g;
     elm_linefeed := elm_linefeed g; elm_headers := elm_headers g;
     elm_spaces := elm_spaces g; elm_dlc := elm_dlc g;
     elm_timeout := elm_timeout g;
     elm_device_identifier := elm_device_identifier g;
     elm_previous_cmd := elm_previous_cmd g; elm_memory := elm_memory g;
     elm_adaptive := elm_adaptive g;
     elm_can_auto_format := elm_can_auto_format g;
     elm_can_flow_control := elm_can_flow_control g;
     elm_can_silent_mode := elm_can_silent_mode g;
     elm_long_message := elm_long_message g; elm_protocol := elm_protocol g;
     elm_protocol_auto := elm_protocol_auto g; elm_monitor := elm_monitor g;
     elm_monitor_task_run := elm_monitor_task_run g;
     elm_filter := elm_filter g; pass_filter := v;
     block_filter := block_filter g |}.

Definition set_block_filter (v : list elm_filter_t) (g : elm_globals_t) : elm_globals_t :=
  {| elm_tag := elm_tag g; elm_echo := elm_echo g;
     elm_linefeed := elm_linefeed g; elm_headers := elm_headers g;
     elm_spaces := elm_spaces g; elm_dlc := elm_dlc g;
     elm_timeout := elm_timeout g;
     elm_device_identifier := elm_device_identifier g;
     elm_previous_cmd := elm_previous_cmd g; elm_memory := elm_memory g;
     elm_adaptive := elm_adaptive g;
     elm_can_auto_format := elm_can_auto_format g;
     elm_can_flow_control := elm_can_flow_control g;
     elm_can_silent_mode := elm_can_silent_mode g;
     elm_long_message := elm_long_message g; elm_protocol := elm_protocol g;
     elm_protocol_auto := elm_protocol_auto g; elm_monitor := elm_monitor g;
     elm_monitor_task_run := elm_monitor_task_run g;
     elm_filter := elm_filter g; pass_filter := pass_filter g;
     block_filter := v |}.

(** ** The constants of the source *)

Definition ELM_DEFAULT_PROTOCOL : ascii := "0".
Definition ELM_VERSION_STRING : string := "ELM327 v1.3a Teslap".
Definition ST_VERSION_STRING : string := "STN1110 r0.1 Teslap".
Definition ELM_DEVICE_STRING : string := "Espnux".
Definition ELM_PROMPT : string := ">".
Definition ELM_HEADERS : bool := true.
Definition ELM_SPACES : bool := true.
Definition ELM_ECHO : bool := true.
Definition ELM_LINEFEED : bool := true.
Definition ELM_MEMORY : bool := true.
Definition ELM_TIMEOUT : Z := 5000.
Definition ELM_ADAPTIVETIMING : Z := 1.
Definition ELM_DISPLAYDLC : bool := false.
Definition ELM_CAN_AUTO_FORMAT : bool := false.
Definition ELM_CAN_FLOW_CONTROL : bool := true.
Definition ELM_CAN_SILENT_MODE : bool := true.
Definition ELM_LONG_MESSAGE : bool := false.
Definition ELM_QUERY_PROMPT : string := "?".
Definition ELM_OK_PROMPT : string := "OK".
Definition ELM_ERROR_PROMPT : string := "ERROR".
Definition ELM_NODATA_PROMPT : string := "NO DATA".

Definition CR : ascii := "013".
Definition LF : ascii := "010".
Definition DQUOTE : ascii := "034".
Definition NEWLINE_CRLF : string := String CR (String LF EmptyString).
Definition NEWLINE_CR : string := String CR EmptyString.
Definition ELM_NEWLINE (g : elm_globals_t) : string :=
  if elm_linefeed g then NEWLINE_CRLF else NEWLINE_CR.

(** ** The ST pass and block tables

    A table is the C array [elm_filter_t[ELM_ST_FILTER_LEN]], held as a list
    that is read and written by index.  [slot] reads a zeroed entry outside
    the list; that does not arise for a table of [ELM_ST_FILTER_LEN]
    entries, the loops below stop at that index. *)

Definition empty_slot : elm_filter_t := mk_filter 0 0.

Definition slot (filter : list elm_filter_t) (i : nat) : elm_filter_t :=
  nth i filter empty_slot.

Definition set_slot (filter : list elm_filter_t) (i : nat) (r : elm_filter_t)
  : list elm_filter_t :=
  array_set filter i r.

(** The body of the [for] loop of [elm_filter_clear], from index [i] with
    [n] iterations left. *)
Fixpoint elm_filter_clear_loop (n i : nat) (filter : list elm_filter_t)
  : list elm_filter_t :=
  match n with
  | O => filter
  | S n' =>
      if mask (slot filter i) =? 0 then filter
      else elm_filter_clear_loop n' (S i) (set_slot filter i (mk_filter 0 0))
  end.

Definition elm_filter_clear (filter : list elm_filter_t) : list elm_filter_t :=
  elm_filter_clear_loop ELM_ST_FILTER_LEN 0 filter.

(** [elm_filter_add]: the table after the call and the returned flag. *)
Fixpoint elm_filter_add_loop (n i : nat) (filter : list elm_filter_t)
  (pattern' mask' : Z) : list elm_filter_t * bool :=
  match n with
  | O => (filter, false)
  | S n' =>
      if mask (slot filter i) =? 0
      then (set_slot filter i (mk_filter pattern' mask'), true)
      else elm_filter_add_loop n' (S i) filter pattern' mask'
  end.

Definition elm_filter_add (filter : list elm_filter_t) (pattern' mask' : Z)
  : list elm_filter_t * bool :=
  elm_filter_add_loop ELM_ST_FILTER_LEN 0 filter pattern' mask'.

(** The test [(id & f.mask) == (f.pattern & f.mask)]. *)
Definition filter_hit (id : Z) (f : elm_filter_t) : bool :=
  Z.land id (mask f) =? Z.land (pattern f) (mask f).

(** The scanning loop shared by the pass and the block stage of
    [elm_filter_test]: [true] when the loop leaves through the [break]
    taken on a hit, [false] when it leaves at an empty slot or at the end of
    the table. *)
Fixpoint filter_scan_loop (n i : nat) (filter : list elm_filter_t) (id : Z)
  : bool :=
  match n with
  | O => false
  | S n' =>
      if mask (slot filter i) =? 0 then false
      else if filter_hit id (slot filter i) then true
      else filter_scan_loop n' (S i) filter id
  end.

(** [elm_filter_test].  The function only reads [*g]: it has no output
    state.  The third argument is unused by the source as well. *)
Definition elm_filter_test (g : elm_globals_t) (id us : Z) : bool :=
  if id =? 0 then false
  else if negb (filter_hit id (elm_filter g)) then false
  else
    let ok := true in
    let ok :=
      if negb (mask (slot (pass_filter g) 0) =? 0)
      then filter_scan_loop ELM_ST_FILTER_LEN 0 (pass_filter g) id
      else ok in
    let ok :=
      if ok && negb (mask (slot (block_filter g) 0) =? 0)
      then negb (filter_scan_loop ELM_ST_FILTER_LEN 0 (block_filter g) id)
      else ok in
    ok.

(** [elm_reset] *)
Definition elm_reset (g : elm_globals_t) : elm_globals_t :=
  let g := set_elm_echo ELM_ECHO g in
  let g := set_elm_linefeed ELM_LINEFEED g in
  let g := set_elm_headers ELM_HEADERS g in
  let g := set_elm_spaces ELM_SPACES g in
  let g := set_elm_dlc ELM_DISPLAYDLC g in
  let g := set_elm_timeout ELM_TIMEOUT g in
  let g := set_elm_previous_cmd EmptyString g in
  let g := set_elm_memory ELM_MEMORY g in
  let g := set_elm_adaptive ELM_ADAPTIVETIMING g in
  let g := set_elm_can_auto_format ELM_CAN_AUTO_FORMAT g in
  let g := set_elm_can_flow_control ELM_CAN_FLOW_CONTROL g in
  let g := set_elm_can_silent_mode ELM_CAN_SILENT_MODE g in
  let g := set_elm_long_message ELM_LONG_MESSAGE g in
  let g := set_elm_protocol ELM_DEFAULT_PROTOCOL g in
  let g := set_elm_protocol_auto true g in
  let g := set_elm_monitor false g in
  let g := set_elm_filter (mk_filter 0 (mask (elm_filter g))) g in
  let g := set_elm_filter (mk_filter (pattern (elm_filter g)) 0) g in
  let g := set_pass_filter (elm_filter_clear (pass_filter g)) g in
  let g := set_block_filter (elm_filter_clear (block_filter g)) g in
  g.

(** The session structure as [elm_do] sets it up before its first
    [elm_reset]: the structure zeroed by [memset], then the tag. *)
Definition elm_globals_zero (tag : string) : elm_globals_t :=
  {| elm_tag := tag;
     elm_echo := false; elm_linefeed := false; elm_headers := false;
     elm_spaces := false; elm_dlc := false; elm_timeout := 0;
     elm_device_identifier := None; elm_previous_cmd := EmptyString;
     elm_memory := false; elm_adaptive := 0;
     elm_can_auto_format := false; elm_can_flow_control := false;
     elm_can_silent_mode := false; elm_long_message := false;
     elm_protocol := NUL; elm_protocol_auto := false;
     elm_monitor := false; elm_monitor_task_run := false;
     elm_filter := mk_filter 0 0;
     pass_filter := repeat (mk_filter 0 0) ELM_ST_FILTER_LEN;
     block_filter := repeat (mk_filter 0 0) ELM_ST_FILTER_LEN |}.

(** * elm.c: the command interpreter *)

(** What a command does besides changing the session structure: bytes
    printed on the session stream, and calls that leave elm.c.  For a log
    call the event holds the tag and the formatted message. *)
Inductive event : Type :=
| Printf (s : string)
| ESP_LOGW (tag msg : string)
| ESP_LOGE (tag msg : string)
| Call_esp_restart
| Call_cmd_ps
| Call_cmd_free
| Call_elog_out_set
| Call_elog_level_set (tag : string) (level : Z)
| Call_can_simu_start
| Call_can_simu_stop
| Call_wifi_status
| Call_wifi_sta (ssid pwd : string)
| Call_wifi_ap (ssid pwd : string)
| Call_wifi_stop
| Call_wifi_scan
| Call_ota_info
| Call_ota_update (url : string)
| Call_vTaskDelay (ticks : Z)
| Call_xTaskCreate_elm_monitor.

(** What the session task takes from outside: the results of the calls
    into wifi.c whose value the interpreter looks at, and how long
    [elm_monitor_stop] waits for a running monitor task.  [monitor_wait]
    is [Some n] when the wait loop reads [elm_monitor_task_run] as clear
    after [n + 1] delays, and [None] when the monitor task never clears
    the flag. *)
Record extern : Type := mk_extern {
  wifi_sta : string -> string -> bool;
  wifi_ap : string -> string -> bool;
  wifi_stop : bool;
  monitor_wait : option nat
}.

(** A statement sequence working on [*g]: the structure after it and the
    events it produced. *)
Definition action : Type := elm_globals_t -> elm_globals_t * list event.

Definition skip : action := fun g => (g, []).

Definition seq (a b : action) : action :=
  fun g => let r := a g in let r' := b (fst r) in (fst r', (snd r ++ snd r')%list).

Notation "a ;; b" := (seq a b) (at level 61, right associativity).

Definition assign (f : elm_globals_t -> elm_globals_t) : action :=
  fun g => (f g, []).

Definition emit (e : event) : action := fun g => (g, [e]).

Definition printf (s : string) : action := emit (Printf s).

(** The text the [printf] calls among the events write on the session
    stream. *)
Fixpoint output (t : list event) : string :=
  match t with
  | [] => EmptyString
  | Printf s :: t' => (s ++ output t')%string
  | _ :: t' => output t'
  end.

(** ** Output helpers *)

Definition elm_newline : action := fun g => printf (ELM_NEWLINE g) g.

(** [elm_writeln]; [None] is the NULL string.  No string handed to it by
    the interpreter contains a conversion specification, so [printf(str)]
    prints [str]. *)
Definition elm_writeln (str : option string) : action :=
  match str with
  | Some s => printf s ;; elm_newline
  | None => elm_newline
  end.

Definition elm_write_prompt : action := printf ELM_PROMPT.
Definition elm_write_ok : action := printf ELM_OK_PROMPT ;; elm_newline.
Definition elm_write_error : action := printf ELM_ERROR_PROMPT ;; elm_newline.
Definition elm_write_ok_error (ok : bool) : action :=
  if ok then elm_write_ok else elm_write_error.

(** ** Protocol table *)

Inductive elm_protocol_header_type_t : Type :=
| OBDHEADER_NULL | OBDHEADER_J1850PWM | OBDHEADER_J1850VPW
| OBDHEADER_14230 | OBDHEADER_CAN29 | OBDHEADER_CAN11.

Record elm_protocol_t : Type := mk_protocol {
  num : string;
  desc : string;
  header_type : elm_protocol_header_type_t
}.

Definition elm_protocols : list elm_protocol_t :=
  [ mk_protocol "0" "Automatic" OBDHEADER_NULL;
    mk_protocol "1" "SAE J1850 PWM" OBDHEADER_J1850PWM;
    mk_protocol "2" "SAE J1850 VPW" OBDHEADER_J1850VPW;
    mk_protocol "3" "ISO 9141-2" OBDHEADER_J1850VPW;
    mk_protocol "4" "ISO 14230-4 (KWP 5BAUD)" OBDHEADER_14230;
    mk_protocol "5" "ISO 14230-4 (KWP FAST)" OBDHEADER_14230;
    mk_protocol "6" "ISO 15765-4 (CAN 11/500)" OBDHEADER_CAN11;
    mk_protocol "7" "ISO 15765-4 (CAN 29/500)" OBDHEADER_CAN29;
    mk_protocol "8" "ISO 15765-4 (CAN 11/250)" OBDHEADER_CAN11;
    mk_protocol "9" "ISO 15765-4 (CAN 29/250)" OBDHEADER_CAN29;
    mk_protocol "A" "SAE J1939 (CAN 29/250)" OBDHEADER_CAN29;
    mk_protocol "B" "USER1 CAN" OBDHEADER_CAN11;
    mk_protocol "C" "USER2 CAN" OBDHEADER_CAN11 ].

Definition elm_get_protocol (protocol_num : ascii) : elm_protocol_t :=
  match find (fun p => Ascii.eqb (deref (num p)) protocol_num) elm_protocols with
  | Some p => p
  | None => nth 0 elm_protocols (mk_protocol "0" "Automatic" OBDHEADER_NULL)
  end.

(** ** Argument readers *)

Definition hex_digit (c : ascii) : option Z :=
  if ascii_between "0" c "9" then Some (Z.of_nat (nat_of_ascii c) - 48)
  else if ascii_between "A" c "F" then Some (Z.of_nat (nat_of_ascii c) - 65 + 10)
  else if ascii_between "a" c "f" then Some (Z.of_nat (nat_of_ascii c) - 97 + 10)
  else None.

Fixpoint elm_read_hexa_loop (c : string) (h : Z) : string * Z :=
  match c with
  | EmptyString => (c, h)
  | String a r =>
      match hex_digit a with
      | Some d => elm_read_hexa_loop r (u32 (Z.shiftl h 4 + d))
      | None => (c, h)
      end
  end.

(** [elm_read_hexa]: the returned pointer and the value stored in [*h]. *)
Definition elm_read_hexa (c : string) : string * Z := elm_read_hexa_loop c 0.

(** The characters of [c] before the first [stop] (or before the end), and
    [c] advanced to that place. *)
Fixpoint scan_until (stop : ascii) (c : string) : string * string :=
  match c with
  | EmptyString => (EmptyString, c)
  | String a r =>
      if Ascii.eqb a stop then (EmptyString, c)
      else let p := scan_until stop r in (String a (fst p), snd p)
  end.

(** [elm_read_str]: the returned pointer and the token stored in [*str].
    The NUL the source writes over the delimiter only serves to terminate
    the token. *)
Definition elm_read_str (c : string) : string * string :=
  let c := skip_spaces c in
  let p :=
    if Ascii.eqb (deref c) DQUOTE then scan_until DQUOTE (advance 1 c)
    else if Ascii.eqb (deref c) "'" then scan_until "'" (advance 1 c)
    else scan_until " " c in
  (if Ascii.eqb (deref (snd p)) NUL then snd p else advance 1 (snd p), fst p).

(** ** Monitor start *)

Definition elm_monitor_start : action :=
  fun g =>
    if elm_monitor g then skip g
    else (assign (set_elm_monitor true) ;; emit Call_xTaskCreate_elm_monitor) g.

(** ** [elm_do_cmd]

    The function is one chain of tests on the command text.  A branch that
    ends in [return] is an action; a branch that is left without returning
    (or through [goto _err]) continues at the label [_err], here
    [elm_cmd_err], with the value the variable [cmd] has at that point:
    the SIMU and WIFI branches have advanced it past their keyword.  No
    branch changes the session before it falls through to [_err]. *)

Definition ESP_LOG_INFO : Z := 3.

Definition elm_cmd_err (cmd : string) : action :=
  (fun g =>
     if negb (Ascii.eqb (deref cmd) NUL)
     then emit (ESP_LOGW (elm_tag g)
                  ("Unreconized command '" ++ cmd ++ "'")%string) g
     else skip g) ;;
  elm_writeln (Some ELM_QUERY_PROMPT).

(** A switch command [AT<name><0|1>]: the test the source writes as
    [strncasecmp(c, name, n) == 0 && (c[n] == '0' || c[n] == '1')]. *)
Definition is_switch (c name : string) (n : nat) : bool :=
  strncasecmp c name n
  && (Ascii.eqb (char_at c n) "0" || Ascii.eqb (char_at c n) "1").

(** [bool en = c[n] != '0';] *)
Definition switch_value (c : string) (n : nat) : bool :=
  negb (Ascii.eqb (char_at c n) "0").

(** *** Shell commands *)

Definition cmd_elog (cmd : string) : action :=
  let cmd := skip_spaces (advance 4 cmd) in
  let level := ESP_LOG_INFO in
  let tag := "*" in
  let r := if negb (Ascii.eqb (deref cmd) NUL)
           then elm_read_hexa cmd else (cmd, level) in
  let cmd := skip_spaces (fst r) in
  let level := snd r in
  let tag := if negb (Ascii.eqb (deref cmd) NUL) then cmd else tag in
  emit Call_elog_out_set ;; emit (Call_elog_level_set tag level).

Definition cmd_simu (cmd : string) : action :=
  let cmd := skip_spaces (advance 4 cmd) in
  if strncasecmp cmd "START" 3 then emit Call_can_simu_start
  else if strncasecmp cmd "STOP" 3 then emit Call_can_simu_stop
  else elm_cmd_err cmd.

Definition cmd_wifi (x : extern) (cmd : string) : action :=
  let cmd := skip_spaces (advance 4 cmd) in
  if Ascii.eqb (deref cmd) NUL then
    printf NEWLINE_CRLF ;; emit Call_wifi_status
  else if strncasecmp cmd "STA" 3 then
    let cmd := skip_spaces (advance 3 cmd) in
    if Ascii.eqb (deref cmd) NUL then skip
    else
      let r1 := elm_read_str cmd in
      let r2 := elm_read_str (fst r1) in
      let ssid := snd r1 in
      let pwd := snd r2 in
      emit (Call_wifi_sta ssid pwd) ;;
      elm_write_ok_error (wifi_sta x ssid pwd) ;;
      assign (set_elm_previous_cmd EmptyString)
  else if strncasecmp cmd "AP" 2 then
    let cmd := skip_spaces (advance 2 cmd) in
    if Ascii.eqb (deref cmd) NUL then skip
    else
      let r1 := elm_read_str cmd in
      let r2 := elm_read_str (fst r1) in
      let ssid := snd r1 in
      let pwd := snd r2 in
      emit (Call_wifi_ap ssid pwd) ;;
      elm_write_ok_error (wifi_ap x ssid pwd) ;;
      assign (set_elm_previous_cmd EmptyString)
  else if strncasecmp cmd "STOP" 4 then
    emit Call_wifi_stop ;;
    elm_write_ok_error (wifi_stop x) ;;
    assign (set_elm_previous_cmd EmptyString)
  else if strncasecmp cmd "SCAN" 4 then
    printf NEWLINE_CRLF ;; emit Call_wifi_scan
  else elm_cmd_err cmd.

Definition cmd_ota (cmd : string) : action :=
  let cmd := skip_spaces (advance 3 cmd) in
  if Ascii.eqb (deref cmd) NUL then emit Call_ota_info
  else emit (Call_ota_update cmd).

(** *** ST commands *)

(** The argument part [<hex> , <hex>] of STFPA and STFBA: [None] stands for
    [goto _err]. *)
Definition st_filter_args (c : string) : option (Z * Z) :=
  let c := skip_spaces (advance 3 c) in
  if Ascii.eqb (deref c) NUL then None
  else
    let r1 := elm_read_hexa c in
    let c := skip_spaces (fst r1) in
    if negb (Ascii.eqb (deref c) ",") then None
    else
      let c := skip_spaces (advance 1 c) in
      let r2 := elm_read_hexa c in
      Some (snd r1, snd r2).

Definition st_add_pass (cmd c : string) : action :=
  match st_filter_args c with
  | None => elm_cmd_err cmd
  | Some (pattern', mask') =>
      fun g =>
        let r := elm_filter_add (pass_filter g) pattern' mask' in
        (assign (set_pass_filter (fst r)) ;;
         if snd r then elm_write_ok else elm_writeln (Some "??")) g
  end.

Definition st_add_block (cmd c : string) : action :=
  match st_filter_args c with
  | None => elm_cmd_err cmd
  | Some (pattern', mask') =>
      fun g =>
        let r := elm_filter_add (block_filter g) pattern' mask' in
        (assign (set_block_filter (fst r)) ;;
         if snd r then elm_write_ok else elm_writeln (Some "??")) g
  end.

Definition clear_pass : action :=
  assign (fun g => set_pass_filter (elm_filter_clear (pass_filter g)) g).

Definition clear_block : action :=
  assign (fun g => set_block_filter (elm_filter_clear (block_filter g)) g).

Definition cmd_st (cmd : string) : action :=
  let c := advance 2 cmd in
  if strcasecmp c "DI" then elm_writeln (Some ST_VERSION_STRING)
  else if strcasecmp c "F" then skip
  else if strcasecmp c "FAC" || strcasecmp c "FCA" then
    clear_pass ;; clear_block ;; elm_write_ok
  else if strncasecmp c "FPA" 3 || strncasecmp c "FAP" 3 then st_add_pass cmd c
  else if strcasecmp c "FPC" || strcasecmp c "FCP" then
    clear_pass ;; elm_write_ok
  else if strncasecmp c "FBA" 3 || strncasecmp c "FAB" 3 then st_add_block cmd c
  else if strcasecmp c "FBC" || strcasecmp c "FCB" then
    clear_block ;; elm_write_ok
  else if strcasecmp c "M" then elm_monitor_start
  else if strcasecmp c "MA" then elm_monitor_start
  else elm_cmd_err cmd.

(** *** AT commands *)

(** The loop of ATCRA over the address digits: a hex digit shifts the digit
    into [f] and [0xf] into [m], an [X] shifts in zeros, any other character
    is stepped over. *)
Fixpoint cra_loop (c : string) (f m : Z) : Z * Z :=
  match c with
  | EmptyString => (f, m)
  | String a r =>
      match hex_digit a with
      | Some d => cra_loop r (u32 (Z.shiftl f 4 + d)) (u32 (Z.shiftl m 4 + 15))
      | None =>
          if Ascii.eqb a "X" || Ascii.eqb a "x"
          then cra_loop r (u32 (Z.shiftl f 4)) (u32 (Z.shiftl m 4))
          else cra_loop r f m
      end
  end.

Definition at_cra (c : string) : action :=
  let r := cra_loop (advance 3 c) 0 4294967295 in
  assign (fun g => set_elm_filter (mk_filter (fst r) (mask (elm_filter g))) g) ;;
  assign (fun g => set_elm_filter (mk_filter (pattern (elm_filter g)) (snd r)) g) ;;
  elm_write_ok.

Definition at_mr (c : string) : action :=
  let h := snd (elm_read_hexa (advance 2 c)) in
  (fun g =>
     let f := pattern (elm_filter g) in
     let m := mask (elm_filter g) in
     let f := u32 (Z.land f 4294967040 + Z.land h 255) in
     let m := Z.lor m 255 in
     assign (set_elm_filter (mk_filter f m)) g) ;;
  elm_monitor_start.

Definition at_mt (c : string) : action :=
  let h := snd (elm_read_hexa (advance 2 c)) in
  (fun g =>
     let f := pattern (elm_filter g) in
     let m := mask (elm_filter g) in
     let f := u32 (Z.land f 255 + Z.land h 4294967040) in
     let m := Z.lor m 4294967040 in
     assign (set_elm_filter (mk_filter f m)) g) ;;
  elm_monitor_start.

(** ATSP and ATTP share the parsing of [A<digit>]; [try] is the extra
    rule of ATTP that protocol 0 is always automatic. *)
Definition at_protocol (try : bool) (c : string) : action :=
  let c := skip_spaces (advance 2 c) in
  let auto := Ascii.eqb (deref c) "A" in
  let c := if auto then advance 1 c else c in
  assign (set_elm_protocol_auto auto) ;;
  assign (set_elm_protocol (deref c)) ;;
  (if try && Ascii.eqb (deref c) "0"
   then assign (set_elm_protocol_auto true) else skip) ;;
  elm_write_ok.

Definition at_describe_protocol : action :=
  fun g =>
    let p := elm_get_protocol (elm_protocol g) in
    printf ((if elm_protocol_auto g then "Auto, " else EmptyString)
            ++ desc p ++ ELM_NEWLINE g)%string g.

Definition at_describe_protocol_num : action :=
  fun g =>
    let p := elm_get_protocol (elm_protocol g) in
    printf ((if elm_protocol_auto g then "A" else EmptyString)
            ++ num p ++ ELM_NEWLINE g)%string g.

Definition cmd_at (cmd : string) : action :=
  let c := advance 2 cmd in
  if strcasecmp c "@1" then elm_writeln (Some ELM_DEVICE_STRING)
  else if strcasecmp c "@2" then
    (fun g => elm_writeln (elm_device_identifier g) g)
  else if strcasecmp c "@3" then
    assign (set_elm_device_identifier (Some (skip_spaces (advance 2 c)))) ;;
    elm_write_ok
  else if strcasecmp c "AL" then
    assign (set_elm_long_message true) ;; elm_write_ok
  else if strncasecmp c "AT" 2
          && (Ascii.eqb (char_at c 2) "0" || Ascii.eqb (char_at c 2) "1"
              || Ascii.eqb (char_at c 2) "2") then
    assign (set_elm_adaptive (Z.of_nat (nat_of_ascii (char_at c 2)) - 48)) ;;
    elm_write_ok
  else if is_switch c "CAF" 3 then
    assign (set_elm_can_auto_format (switch_value c 3)) ;; elm_write_ok
  else if is_switch c "CFC" 3 then
    assign (set_elm_can_flow_control (switch_value c 3)) ;; elm_write_ok
  else if strncasecmp c "CF" 2 then
    let h := snd (elm_read_hexa (advance 2 c)) in
    assign (fun g => set_elm_filter (mk_filter h (mask (elm_filter g))) g) ;;
    elm_write_ok
  else if strncasecmp c "CM" 2 then
    let h := snd (elm_read_hexa (advance 2 c)) in
    assign (fun g => set_elm_filter (mk_filter (pattern (elm_filter g)) h) g) ;;
    elm_write_ok
  else if strcasecmp c "CRA" then
    assign (fun g => set_elm_filter (mk_filter 0 (mask (elm_filter g))) g) ;;
    assign (fun g => set_elm_filter (mk_filter (pattern (elm_filter g)) 0) g) ;;
    elm_write_ok
  else if strncasecmp c "CRA" 3 then at_cra c
  else if strcasecmp c "CS" then elm_writeln (Some "STARTED")
  else if is_switch c "CSM" 3 then
    assign (set_elm_can_silent_mode (switch_value c 3)) ;; elm_write_ok
  else if strcasecmp c "D" then
    assign elm_reset ;; elm_write_ok
  else if is_switch c "D" 1 then
    assign (set_elm_dlc (switch_value c 1)) ;; elm_write_ok
  else if strcasecmp c "DP" then at_describe_protocol
  else if strcasecmp c "DPN" then at_describe_protocol_num
  else if is_switch c "E" 1 then
    assign (set_elm_echo (switch_value c 1)) ;; elm_write_ok
  else if is_switch c "H" 1 then
    assign (set_elm_headers (switch_value c 1)) ;; elm_write_ok
  else if strcasecmp c "I" then elm_writeln (Some ELM_VERSION_STRING)
  else if is_switch c "L" 1 then
    assign (set_elm_linefeed (switch_value c 1)) ;; elm_write_ok
  else if is_switch c "M" 1 then
    assign (set_elm_memory (switch_value c 1)) ;; elm_write_ok
  else if strcasecmp c "MA" then elm_monitor_start
  else if strncasecmp c "MR" 2 then at_mr c
  else if strncasecmp c "MT" 2 then at_mt c
  else if is_switch c "R" 1 then elm_write_ok
  else if is_switch c "S" 1 then
    assign (set_elm_spaces (switch_value c 1)) ;; elm_write_ok
  else if strncasecmp c "SP" 2 then at_protocol false c
  else if strncasecmp c "ST" 2 then
    assign (set_elm_timeout (snd (elm_read_hexa (advance 2 c)))) ;;
    elm_write_ok
  else if strncasecmp c "TP" 2 then at_protocol true c
  else if strcasecmp c "WS" then
    assign elm_reset ;; emit (Call_vTaskDelay (100 / 2)) ;;
    elm_writeln (Some ELM_VERSION_STRING)
  else if strcasecmp c "Z" then
    assign elm_reset ;; emit (Call_vTaskDelay 100) ;;
    elm_writeln (Some ELM_VERSION_STRING)
  else elm_cmd_err cmd.

(** *** The dispatcher *)

(** The part of [elm_do_cmd] after the previous-command step: leading
    spaces are stepped over and the command is looked up. *)
Definition elm_dispatch (x : extern) (cmd : string) : action :=
  let cmd := skip_spaces cmd in
  if strcasecmp cmd "REBOOT" || strcasecmp cmd "RESTART" then
    emit Call_esp_restart
  else if strcasecmp cmd "PS" then printf NEWLINE_CRLF ;; emit Call_cmd_ps
  else if strcasecmp cmd "FREE" then printf NEWLINE_CRLF ;; emit Call_cmd_free
  else if strncasecmp cmd "ELOG" 4 then cmd_elog cmd
  else if strncasecmp cmd "SIMU" 4 then cmd_simu cmd
  else if strncasecmp cmd "WIFI" 4 then cmd_wifi x cmd
  else if strncasecmp cmd "OTA" 3 then cmd_ota cmd
  else if strncasecmp cmd "ST" 2 then cmd_st cmd
  else if strncasecmp cmd "AT" 2 then cmd_at cmd
  else elm_cmd_err cmd.

(** [elm_do_cmd].  An empty line takes the stored previous command, any
    other line is first copied into [elm_previous_cmd].  The argument is
    the line buffer of [elm_do]: it is never NULL and holds fewer than
    [ELM_BUFFER_LEN] characters, so the guard on NULL has no counterpart
    and the [strcpy] is an assignment. *)
Definition elm_do_cmd (x : extern) (cmd : string) : action :=
  fun g =>
    if str_is_empty cmd
    then elm_dispatch x (elm_previous_cmd g) g
    else elm_dispatch x cmd (set_elm_previous_cmd cmd g).

(** The session structure at the first prompt of [elm_do]. *)
Definition elm_init (tag : string) : elm_globals_t :=
  elm_reset (elm_globals_zero tag).

(** * elm.c: the monitor task *)

(** ** Formatting a frame *)

Definition hex_char (d : Z) : ascii :=
  nth (Z.to_nat d)
      ["0"; "1"; "2"; "3"; "4"; "5"; "6"; "7"; "8"; "9";
       "A"; "B"; "C"; "D"; "E"; "F"]%char "0"%char.

Fixpoint hex_digits (fuel : nat) (n : Z) (acc : string) : string :=
  match fuel with
  | O => acc
  | S fuel' =>
      let acc' := String (hex_char (n mod 16)) acc in
      if n / 16 =? 0 then acc' else hex_digits fuel' (n / 16) acc'
  end.

Fixpoint zeros (n : nat) : string :=
  match n with
  | O => EmptyString
  | S n' => String "0" (zeros n')
  end.

(** The conversion [%0<width>X] applied to an unsigned 32 bit value. *)
Definition fmt_0X (width : nat) (n : Z) : string :=
  let s := hex_digits 8 n EmptyString in
  (zeros (width - String.length s) ++ s)%string.

Fixpoint dec_digits (fuel : nat) (n : Z) (acc : string) : string :=
  match fuel with
  | O => acc
  | S fuel' =>
      let acc' := String (hex_char (n mod 10)) acc in
      if n / 10 =? 0 then acc' else dec_digits fuel' (n / 10) acc'
  end.

(** The conversion [%i] applied to an [int] that is not negative. *)
Definition fmt_i (n : Z) : string := dec_digits 10 n EmptyString.

(** [msg->data[i]].  The array has eight bytes; the loop of
    [_elm_write_can] runs up to [data_length_code], which the driver does
    not keep below 9, and for [i >= 8] it reads the memory after the
    array: [past j] is the byte at [data[8 + j]]. *)
Definition data_at (m : can_message_t) (past : nat -> Z) (i : nat) : Z :=
  if (i <? 8)%nat then nth i (data m) 0 else past (i - 8)%nat.

(** The payload loop of [_elm_write_can], from index [i] with [n]
    iterations left. *)
Fixpoint write_can_data (g : elm_globals_t) (m : can_message_t)
  (past : nat -> Z) (n i : nat) : list event :=
  match n with
  | O => []
  | S n' =>
      (Printf (fmt_0X 2 (data_at m past i))
         :: (if elm_spaces g then [Printf " "] else []))
      ++ write_can_data g m past n' (S i)
  end.

(** [_elm_write_can]: what is printed; the returned flag is the outcome
    [fflush(...) >= 0], which is given by the stream. *)
Definition _elm_write_can (g : elm_globals_t) (m : can_message_t)
  (past : nat -> Z) : list event :=
  (if elm_headers g
   then Printf (fmt_0X 3 (identifier m))
          :: (if elm_spaces g then [Printf " "] else [])
   else [])
  ++ (if elm_dlc g
      then Printf (fmt_0X 2 (data_length_code m))
             :: (if elm_spaces g then [Printf " "] else [])
      else [])
  ++ write_can_data g m past (Z.to_nat (data_length_code m)) 0
  ++ [Printf (ELM_NEWLINE g)].

(** ** The loop of [elm_monitor_task] *)

(** The local variables of the task that live across iterations. *)
Record monitor_locals : Type := mk_locals {
  stat_us : Z;
  last_us : Z;
  count : Z
}.

(** What one iteration takes from outside: whether the session task has
    cleared [G.elm_monitor] before the loop test, the item
    [xRingbufferReceive] hands over within its 100 ms (or NULL) and the
    bytes the memory holds after its payload array, the value of
    [esp_timer_get_time()] read after it, whether flushing the stream
    succeeds should a frame be written, and the text [strerror(errno)]
    gives when it does not. *)
Record monitor_tick : Type := mk_tick {
  tick_stopped : bool;
  tick_rx : option can_message_timestamp_t;
  tick_past : nat -> Z;
  tick_time : Z;
  tick_flush_ok : bool;
  tick_strerror : string
}.

(** One pass through the loop body: [None] when the body leaves the loop
    through [break], otherwise the locals for the next pass; and the
    events of the pass. *)
Definition elm_monitor_body (g : elm_globals_t) (l : monitor_locals)
  (k : monitor_tick) : option monitor_locals * list event :=
  let us := u32 (tick_time k) in
  let r :=
    match tick_rx k with
    | Some rx_msg =>
        if elm_filter_test g (identifier (msg rx_msg)) (u32 (timestamp rx_msg))
        then
          let l' := mk_locals (stat_us l) (u32 (timestamp rx_msg))
                              (u32 (count l + 1)) in
          if tick_flush_ok k
          then (Some l', _elm_write_can g (msg rx_msg) (tick_past k))
          else (None,
                _elm_write_can g (msg rx_msg) (tick_past k)
                ++ [ESP_LOGE (elm_tag g)
                      ("monitor write error " ++ tick_strerror k)%string])
        else (Some l, [])
    | None => (Some l, [])
    end in
  match fst r with
  | None => (None, snd r)
  | Some l1 =>
      if u32 (us - last_us l1) >=? u32 (elm_timeout g * 1000)
      then (None,
            snd r ++ [ESP_LOGW (elm_tag g) "monitor timeout";
                      Printf (ELM_NODATA_PROMPT ++ ELM_NEWLINE g)%string])
      else
        let time_us := u32 (us - stat_us l1) in
        if time_us >=? 10 * 1000000
        then (Some (mk_locals us (last_us l1) 0), snd r)
        else (Some l1, snd r)
  end.

(** The [while (G.elm_monitor)] loop over the ticks the task lives
    through: the flag is read as clear when it is clear in [g] or when the
    session task has cleared it before this test.  The returned flag says
    whether the loop has been left; it is [false] when the ticks run out
    with the task still looping. *)
Fixpoint elm_monitor_loop (g : elm_globals_t) (l : monitor_locals)
  (ticks : list monitor_tick) : list event * bool :=
  match ticks with
  | [] => ([], false)
  | k :: rest =>
      if negb (elm_monitor g) || tick_stopped k then ([], true)
      else
        match elm_monitor_body g l k with
        | (None, ev) => (ev, true)
        | (Some l', ev) =>
            let r := elm_monitor_loop g l' rest in (ev ++ fst r, snd r)
        end
  end.

(** [elm_monitor_task].  [buf_ok] tells whether [can_ringbuf_new] found a
    free slot, [start] is the timer value read before the loop.  The result
    is the session structure as the task leaves it (after the label
    [_exit] when the loop has ended, with only [elm_monitor_task_run] set
    when it has not), the events, and whether the task has ended. *)
Definition elm_monitor_task (g : elm_globals_t) (buf_ok : bool) (start : Z)
  (ticks : list monitor_tick) : elm_globals_t * list event * bool :=
  let g := set_elm_monitor_task_run true g in
  let at_exit g := set_elm_monitor_task_run false (set_elm_monitor false g) in
  if negb buf_ok
  then (at_exit g,
        [ESP_LOGE (elm_tag g) "monitor error create buffer, nomem"], true)
  else
    let l := mk_locals (u32 start) (u32 start) 0 in
    let r := elm_monitor_loop g l ticks in
    if snd r then (at_exit g, fst r, true) else (g, fst r, false).

(** [elm_monitor_stop].  After clearing [elm_monitor] the function waits
    in [while (G.elm_monitor_task_run) vTaskDelay(10)] for the monitor
    task to clear its flag.  With the flag clear on entry the loop is not
    entered.  With the flag set, [monitor_wait x] says after how many
    delays the task has cleared it; the function then goes on with the
    flag clear.  When the task never clears it the function does not
    return: the result is the structure as the wait finds it, without
    events, and the flag [false].  The returned flag is [true] when the
    function has returned. *)
Definition elm_monitor_stop (x : extern) (g : elm_globals_t)
  : elm_globals_t * list event * bool :=
  if negb (elm_monitor g) then (g, [], true)
  else
    let g := set_elm_monitor false g in
    if elm_monitor_task_run g then
      match monitor_wait x with
      | Some n =>
          let g := set_elm_monitor_task_run false g in
          (g,
           repeat (Call_vTaskDelay 10) (S n)
           ++ [Printf (ELM_NEWLINE g ++ ELM_PROMPT)%string],
           true)
      | None => (g, [], false)
      end
    else (g, [Printf (ELM_NEWLINE g ++ ELM_PROMPT)%string], true).

(** * elm.c: the session loop *)

Definition EOT : ascii := "004".
Definition BS : ascii := "008".
Definition DEL : ascii := "127".

(** The string without its last character. *)
Fixpoint drop_last (s : string) : string :=
  match s with
  | EmptyString => EmptyString
  | String a r =>
      match r with
      | EmptyString => EmptyString
      | _ => String a (drop_last r)
      end
  end.

(** How one pass through the loop of [elm_do] ends: the loop goes on
    with the session structure and the line buffer given, it is left
    through [break], or the pass does not end because [elm_monitor_stop]
    does not return.  Each case has the events of the pass. *)
Inductive elm_do_pass : Type :=
| Pass_next (g : elm_globals_t) (line : string) (ev : list event)
| Pass_break (ev : list event)
| Pass_blocked (g : elm_globals_t) (ev : list event).

(** One pass through the loop of [elm_do].  [c] is what [fgetc(stdin)]
    returns, a byte or EOF ([None]); [line] holds the characters
    [line[0 .. pos-1]] of the line buffer, so [pos] is its length. *)
Definition elm_do_step (x : extern) (c : option ascii) (g : elm_globals_t)
  (line : string) : elm_do_pass :=
  match c with
  | None => Pass_break [ESP_LOGW (elm_tag g) "stop on EOF"]
  | Some c =>
      if Ascii.eqb c NUL then Pass_next g line []
      else if Ascii.eqb c EOT
      then Pass_break [ESP_LOGW (elm_tag g) "stop on ctrl-D"]
      else
        let r :=
          if elm_monitor g then
            let s := elm_monitor_stop x g in
            (fst (fst s),
             ESP_LOGW (elm_tag g)
               ("char " ++ fmt_i (Z.of_nat (nat_of_ascii c))
                ++ " receveid, stop monitor")%string
               :: snd (fst s),
             snd s)
          else (g, [], true) in
        let g := fst (fst r) in
        let ev := snd (fst r) in
        if negb (snd r) then Pass_blocked g ev
        else if Ascii.eqb c BS || Ascii.eqb c DEL then
          if (0 <? String.length line)%nat
          then Pass_next g (drop_last line)
                 (ev ++ [Printf (String BS (String " " (String BS EmptyString)))])
          else Pass_next g line ev
        else if Ascii.eqb c CR then
          let r :=
            (elm_newline ;; elm_newline ;; elm_do_cmd x line ;;
             (fun g => if negb (elm_monitor g) then elm_write_prompt g
                       else skip g)) g in
          Pass_next (fst r) EmptyString (ev ++ snd r)
        else if Ascii.eqb c LF then Pass_next g line ev
        else if (nat_of_ascii c <? nat_of_ascii " ")%nat then Pass_next g line ev
        else if (ELM_BUFFER_LEN - 1 <=? String.length line)%nat
        then Pass_next g line ev
        else
          Pass_next g (line ++ String c EmptyString)%string
            (ev ++ (if elm_echo g then [Printf (String c EmptyString)] else []))
  end.

(** The loop over the bytes the session stream delivers.  The returned
    flag says whether the loop has been left; it is [false] when the
    bytes run out with the task waiting in [fgetc], and when the task
    waits in [elm_monitor_stop] for a monitor task that does not end. *)
Fixpoint elm_do_loop (x : extern) (input : list (option ascii))
  (g : elm_globals_t) (line : string)
  : elm_globals_t * string * list event * bool :=
  match input with
  | [] => (g, line, [], false)
  | c :: rest =>
      match elm_do_step x c g line with
      | Pass_break ev => (g, line, ev, true)
      | Pass_blocked g' ev => (g', line, ev, false)
      | Pass_next g' line' ev =>
          match elm_do_loop x rest g' line' with
          | (g'', line'', ev', ended) => (g'', line'', ev ++ ev', ended)
          end
      end
  end.

(** [elm_do], for the case that [malloc] returns the session structure:
    the structure and the line buffer at the last byte read, the events
    up to and including the final [elm_monitor_stop] when the loop has
    been left, and whether the function has come to its end. *)
Definition elm_do (x : extern) (tag : string) (input : list (option ascii))
  : elm_globals_t * string * list event * bool :=
  let g := elm_reset (elm_globals_zero tag) in
  match elm_do_loop x input g EmptyString with
  | (g', line, ev, ended) =>
      let r := if ended then elm_monitor_stop x g' else (g', [], true) in
      (fst (fst r), line,
       snd (elm_write_prompt g) ++ ev ++ snd (fst r),
       ended && snd r)
  end.

End Elm.

(** * can.c: ingestion, rate limiting and fan-out *)

Module Can.

Definition CAN_MAX_CB : nat := 10.

(** The identifiers of [VEHICLEBUS_ID], in the order of the source
    (0x00C, 0x04F, 0x082, ... 0x7FF), written in decimal. *)
Definition VEHICLEBUS_ID : list Z :=
  [12; 79; 130; 258; 259; 264; 280; 291; 294; 297; 306; 317; 322; 340; 390;
   421; 468; 469; 472; 513; 522; 524; 530; 532; 533; 535; 541; 545; 548;
   552; 553; 558; 573; 577; 579; 580; 583; 585; 594; 599; 605; 609; 611;
   612; 614; 615; 616; 641; 642; 644; 647; 648; 658; 659; 669; 680; 691;
   692; 694; 705; 708; 722; 737; 741; 753; 755; 768; 769; 777; 786; 787;
   789; 792; 796; 797; 800; 801; 812; 818; 819; 820; 821; 822; 826; 850;
   886; 897; 899; 915; 917; 918; 921; 929; 946; 947; 950; 955; 962; 963;
   978; 984; 985; 994; 995; 1001; 1010; 1013; 1022; 1025; 1029; 1066; 1085;
   1310; 1320; 1345; 1366; 1367; 1493; 1495; 1576; 1577; 1622; 1859; 1879;
   1885; 1962; 2005; 2047 ].

Definition can_id : list Z := VEHICLEBUS_ID.
Definition can_id_count : nat := List.length can_id.
Definition can_id_delay_us : Z := 1000000 / 11.

(** Modelled from the spec: the FreeRTOS no-split ring buffer behind a
    subscriber's [RingbufHandle_t] is not part of the sources.  A
    subscription is a bounded FIFO of frames whose capacity ([rb_items]
    messages) is fixed at creation; a push into a full queue fails and
    leaves the queue as it is. *)
Record msg_ringbuf : Type := mk_msg_ringbuf {
  rb_items : nat;
  rb_queue : list can_message_timestamp_t
}.

(** [xRingbufferSend(rb, m, sizeof m, 0)]: the queue after the call and
    whether the message went in. *)
Definition msg_ringbuf_send (rb : msg_ringbuf) (m : can_message_timestamp_t)
  : msg_ringbuf * bool :=
  if (List.length (rb_queue rb) <? rb_items rb)%nat
  then (mk_msg_ringbuf (rb_items rb) (rb_queue rb ++ [m]), true)
  else (rb, false).

(** The static data of can.c: [can_rx_ringbuf] (a NULL handle is [None])
    and [can_id_last_us]. *)
Record can_state : Type := mk_can_state {
  can_rx_ringbuf : list (option msg_ringbuf);
  can_id_last_us : list Z
}.

(** The state [can_init] sets up with its two [memset]s. *)
Definition can_state_init : can_state :=
  mk_can_state (repeat None CAN_MAX_CB) (repeat 0 can_id_count).

(** [_can_raise] *)
Definition _can_raise (m : can_message_timestamp_t)
  (bufs : list (option msg_ringbuf)) : list (option msg_ringbuf) :=
  map (fun b => match b with
                | Some rb => Some (fst (msg_ringbuf_send rb m))
                | None => None
                end) bufs.

(** The loop of [_can_filter_id], from index [i] with [n] iterations left:
    the returned flag and [can_id_last_us] after the call. *)
Fixpoint _can_filter_id_loop (n i : nat) (id ts : Z) (last : list Z)
  : bool * list Z :=
  match n with
  | O => (false, last)
  | S n' =>
      if negb (id =? nth i can_id 0) then _can_filter_id_loop n' (S i) id ts last
      else if u32 (ts - nth i last 0) >=? can_id_delay_us
           then (true, array_set last i ts)
           else (false, last)
  end.

(** [_can_filter_id]; [ts] is a [uint32_t]. *)
Definition _can_filter_id (id ts : Z) (last : list Z) : bool * list Z :=
  _can_filter_id_loop can_id_count 0 id ts last.

(** One pass through the loop of [can_task] for a frame that
    [can_receive] delivered: [ts] is the 64 bit value of
    [esp_timer_get_time()], cut to 32 bits for the rate limiter and kept
    whole in the forwarded message.  The flag tells whether the frame
    was handed to [_can_raise]. *)
Definition can_task_receive (rx_msg : can_message_t) (ts : Z) (st : can_state)
  : bool * can_state :=
  let r := _can_filter_id (identifier rx_msg) (u32 ts) (can_id_last_us st) in
  if fst r
  then (true,
        mk_can_state
          (_can_raise (mk_can_message_timestamp rx_msg ts) (can_rx_ringbuf st))
          (snd r))
  else (false, mk_can_state (can_rx_ringbuf st) (snd r)).

(** ** The receive task *)

(** What one pass through the loop of [can_task] takes from outside: the
    frame [can_receive] delivers ([None] when it returns an error), the
    value of [esp_timer_get_time()] read after it, and whether
    [can_get_status_info], should the pass ask for it, reports a state
    other than [CAN_STATE_RUNNING]. *)
Record can_rx : Type := mk_can_rx {
  rx_frame : option can_message_t;
  rx_time : Z;
  rx_not_running : bool
}.

(** The loop of [can_task] over the passes the task lives through, with
    the local [stat_us].  The counters only feed the log and are left out.
    The returned flag says whether the loop has been left through
    [break]. *)
Fixpoint can_task_loop (stat_us : Z) (passes : list can_rx) (st : can_state)
  : can_state * bool :=
  match passes with
  | [] => (st, false)
  | k :: rest =>
      match rx_frame k with
      | None => (st, true)
      | Some rx_msg =>
          let st := snd (can_task_receive rx_msg (rx_time k) st) in
          let us := u32 (rx_time k) in
          let time_us := u32 (us - stat_us) in
          if time_us >=? 10 * 1000000
          then if rx_not_running k then (st, true)
               else can_task_loop us rest st
          else can_task_loop stat_us rest st
      end
  end.

(** [can_task]; [start] is the timer value read before the loop. *)
Definition can_task (start : Z) (passes : list can_rx) (st : can_state)
  : can_state * bool :=
  can_task_loop (u32 start) passes st.

(** ** Subscriptions

    [can_ringbuf_new] and [can_ringbuf_del] work on the handles in
    [can_rx_ringbuf], not on the queues behind them.  A handle is a
    non-null pointer, here a [Z]; the NULL handle is [None]. *)

(** The loop of [can_ringbuf_new], from index [i] with [n] iterations
    left.  [created] is what [xRingbufferCreateNoSplit] returns if it is
    called. *)
Fixpoint can_ringbuf_new_loop (n i : nat) (created : option Z)
  (handles : list (option Z)) : list (option Z) * option Z :=
  match n with
  | O => (handles, None)
  | S n' =>
      match nth i handles None with
      | None => (array_set handles i created, created)
      | Some _ => can_ringbuf_new_loop n' (S i) created handles
      end
  end.

Definition can_ringbuf_new (created : option Z) (handles : list (option Z))
  : list (option Z) * option Z :=
  can_ringbuf_new_loop CAN_MAX_CB 0 created handles.

Definition handle_eqb (a b : option Z) : bool :=
  match a, b with
  | Some x, Some y => x =? y
  | None, None => true
  | _, _ => false
  end.

Fixpoint can_ringbuf_del_loop (n i : nat) (ringbuf : option Z)
  (handles : list (option Z)) : list (option Z) * bool :=
  match n with
  | O => (handles, false)
  | S n' =>
      if handle_eqb (nth i handles None) ringbuf
      then (array_set handles i None, true)
      else can_ringbuf_del_loop n' (S i) ringbuf handles
  end.

Definition can_ringbuf_del (ringbuf : option Z) (handles : list (option Z))
  : list (option Z) * bool :=
  match ringbuf with
  | None => (handles, true)
  | Some _ => can_ringbuf_del_loop CAN_MAX_CB 0 ringbuf handles
  end.

End Can.

(** * bt.c: the buffered Bluetooth SPP transport *)

Module Bt.

Definition BT_SPP_RINGBUF_RX_SIZE : nat := 100.
Definition BT_SPP_RINGBUF_TX_SIZE : nat := 10 * 1024.

(** [ESP_SPP_MAX_MTU] of [esp_spp_api.h], the value the source repeats in
    its comment. *)
Definition ESP_SPP_MAX_MTU : nat := 3 * 330.
Definition BT_SPP_DATA_MAX_SIZE : nat := ESP_SPP_MAX_MTU.

Definition EBADF : Z := 9.

(** [(size_t)-1] on the 32 bit target. *)
Definition SIZE_T_MINUS_1 : Z := u32 (-1).

(** Modelled from the spec: the FreeRTOS byte ring buffer behind
    [spp_rx_buffer] and [spp_tx_buffer] is not part of the sources.  A ring
    is a bounded FIFO of bytes; a send with no wait either finds room for
    all its bytes and appends them, or fails and leaves the ring as it is;
    a receive hands over the oldest bytes, at most [max] of them, and
    nothing when the ring is empty. *)
Record byte_ringbuf : Type := mk_byte_ringbuf {
  rb_size : nat;
  rb_bytes : list byte
}.

Definition xRingbufferCreate (size : nat) : byte_ringbuf :=
  mk_byte_ringbuf size [].

Definition xRingbufferGetCurFreeSize (rb : byte_ringbuf) : nat :=
  rb_size rb - List.length (rb_bytes rb).

Definition xRingbufferSend (rb : byte_ringbuf) (item : list byte)
  : byte_ringbuf * bool :=
  if (List.length item <=? xRingbufferGetCurFreeSize rb)%nat
  then (mk_byte_ringbuf (rb_size rb) (rb_bytes rb ++ item), true)
  else (rb, false).

(** [xRingbufferReceiveUpTo] followed by [vRingbufferReturnItem]: the
    bytes handed over and the ring without them; [None] is the NULL
    item. *)
Definition xRingbufferReceiveUpTo (rb : byte_ringbuf) (max : nat)
  : option (list byte * byte_ringbuf) :=
  match rb_bytes rb with
  | [] => None
  | _ => Some (firstn max (rb_bytes rb),
               mk_byte_ringbuf (rb_size rb) (skipn max (rb_bytes rb)))
  end.

(** The static data of bt.c and [errno].  A NULL ring handle is [None];
    of the two callbacks only their being registered is kept, a call of
    one is an event. *)
Record bt_state : Type := mk_bt_state {
  spp_handle : Z;
  spp_rx_buffer : option byte_ringbuf;
  spp_tx_buffer : option byte_ringbuf;
  spp_open_cb : bool;
  spp_close_cb : bool;
  spp_size : Z;
  spp_stat_us : Z;
  spp_last_us : Z;
  spp_rx_buffer_min_free : Z;
  spp_tx_buffer_min_free : Z;
  spp_writing : bool;
  spp_second_connexion : bool;
  errno : Z
}.

Definition set_spp_handle (v : Z) (st : bt_state) : bt_state :=
  {| spp_handle := v; spp_rx_buffer := spp_rx_buffer st;
     spp_tx_buffer := spp_tx_buffer st; spp_open_cb := spp_open_cb st;
     spp_close_cb := spp_close_cb st; spp_size := spp_size st;
     spp_stat_us := spp_stat_us st; spp_last_us := spp_last_us st;
     spp_rx_buffer_min_free := spp_rx_buffer_min_free st;
     spp_tx_buffer_min_free := spp_tx_buffer_min_free st;
     spp_writing := spp_writing st;
     spp_second_connexion := spp_second_connexion st; errno := errno st |}.

Definition set_spp_rx_buffer (v : option byte_ringbuf) (st : bt_state) : bt_state :=
  {| spp_handle := spp_handle st; spp_rx_buffer := v;
     spp_tx_buffer := spp_tx_buffer st; spp_open_cb := spp_open_cb st;
     spp_close_cb := spp_close_cb st; spp_size := spp_size st;
     spp_stat_us := spp_stat_us st; spp_last_us := spp_last_us st;
     spp_rx_buffer_min_free := spp_rx_buffer_min_free st;
     spp_tx_buffer_min_free := spp_tx_buffer_min_free st;
     spp_writing := spp_writing st;
     spp_second_connexion := spp_second_connexion st; errno := errno st |}.

Definition set_spp_tx_buffer (v : option byte_ringbuf) (st : bt_state) : bt_state :=
  {| spp_handle := spp_handle st; spp_rx_buffer := spp_rx_buffer st;
     spp_tx_buffer := v; spp_open_cb := spp_open_cb st;
     spp_close_cb := spp_close_cb st; spp_size := spp_size st;
     spp_stat_us := spp_stat_us st; spp_last_us := spp_last_us st;
     spp_rx_buffer_min_free := spp_rx_buffer_min_free st;
     spp_tx_buffer_min_free := spp_tx_buffer_min_free st;
     spp_writing := spp_writing st;
     spp_second_connexion := spp_second_connexion st; errno := errno st |}.

Definition set_spp_open_cb (v : bool) (st : bt_state) : bt_state :=
  {| spp_handle := spp_handle st; spp_rx_buffer := spp_rx_buffer st;
     spp_tx_buffer := spp_tx_buffer st; spp_open_cb := v;
     spp_close_cb := spp_close_cb st; spp_size := spp_size st;
     spp_stat_us := spp_stat_us st; spp_last_us := spp_last_us st;
     spp_rx_buffer_min_free := spp_rx_buffer_min_free st;
     spp_tx_buffer_min_free := spp_tx_buffer_min_free st;
     spp_writing := spp_writing st;
     spp_second_connexion := spp_second_connexion st; errno := errno st |}.

Definition set_spp_close_cb (v : bool) (st : bt_state) : bt_state :=
  {| spp_handle := spp_handle st; spp_rx_buffer := spp_rx_buffer st;
     spp_tx_buffer := spp_tx_buffer st; spp_open_cb := spp_open_cb st;
     spp_close_cb := v; spp_size := spp_size st;
     spp_stat_us := spp_stat_us st; spp_last_us := spp_last_us st;
     spp_rx_buffer_min_free := spp_rx_buffer_min_free st;
     spp_tx_buffer_min_free := spp_tx_buffer_min_free st;
     spp_writing := spp_writing st;
     spp_second_connexion := spp_second_connexion st; errno := errno st |}.

Definition set_spp_size (v : Z) (st : bt_state) : bt_state :=
  {| spp_handle := spp_handle st; spp_rx_buffer := spp_rx_buffer st;
     spp_tx_buffer := spp_tx_buffer st; spp_open_cb := spp_open_cb st;
     spp_close_cb := spp_close_cb st; spp_size := v;
     spp_stat_us := spp_stat_us st; spp_last_us := spp_last_us st;
     spp_rx_buffer_min_free := spp_rx_buffer_min_free st;
     spp_tx_buffer_min_free := spp_tx_buffer_min_free st;
     spp_writing := spp_writing st;
     spp_second_connexion := spp_second_connexion st; errno := errno st |}.

Definition set_spp_stat_us (v : Z) (st : bt_state) : bt_state :=
  {| spp_handle := spp_handle st; spp_rx_buffer := spp_rx_buffer st;
     spp_tx_buffer := spp_tx_buffer st; spp_open_cb := spp_open_cb st;
     spp_close_cb := spp_close_cb st; spp_size := spp_size st;
     spp_stat_us := v; spp_last_us := spp_last_us st;
     spp_rx_buffer_min_free := spp_rx_buffer_min_free st;
     spp_tx_buffer_min_free := spp_tx_buffer_min_free st;
     spp_writing := spp_writing st;
     spp_second_connexion := spp_second_connexion st; errno := errno st |}.

Definition set_spp_last_us (v : Z) (st : bt_state) : bt_state :=
  {| spp_handle := spp_handle st; spp_rx_buffer := spp_rx_buffer st;
     spp_tx_buffer := spp_tx_buffer st; spp_open_cb := spp_open_cb st;
     spp_close_cb := spp_close_cb st; spp_size := spp_size st;
     spp_stat_us := spp_stat_us st; spp_last_us := v;
     spp_rx_buffer_min_free := spp_rx_buffer_min_free st;
     spp_tx_buffer_min_free := spp_tx_buffer_min_free st;
     spp_writing := spp_writing st;
     spp_second_connexion := spp_second_connexion st; errno := errno st |}.

Definition set_spp_rx_buffer_min_free (v : Z) (st : bt_state) : bt_state :=
  {| spp_handle := spp_handle st; spp_rx_buffer := spp_rx_buffer st;
     spp_tx_buffer := spp_tx_buffer st; spp_open_cb := spp_open_cb st;
     spp_close_cb := spp_close_cb st; spp_size := spp_size st;
     spp_stat_us := spp_stat_us st; spp_last_us := spp_last_us st;
     spp_rx_buffer_min_free := v;
     spp_tx_buffer_min_free := spp_tx_buffer_min_free st;
     spp_writing := spp_writing st;
     spp_second_connexion := spp_second_connexion st; errno := errno st |}.

Definition set_spp_tx_buffer_min_free (v : Z) (st : bt_state) : bt_state :=
  {| spp_handle := spp_handle st; spp_rx_buffer := spp_rx_buffer st;
     spp_tx_buffer := spp_tx_buffer st; spp_open_cb := spp_open_cb st;
     spp_close_cb := spp_close_cb st; spp_size := spp_size st;
     spp_stat_us := spp_stat_us st; spp_last_us := spp_last_us st;
     spp_rx_buffer_min_free := spp_rx_buffer_min_free st;
     spp_tx_buffer_min_free := v; spp_writing := spp_writing st;
     spp_second_connexion := spp_second_connexion st; errno := errno st |}.

Definition set_spp_writing (v : bool) (st : bt_state) : bt_state :=
  {| spp_handle := spp_handle st; spp_rx_buffer := spp_rx_buffer st;
     spp_tx_buffer := spp_tx_buffer st; spp_open_cb := spp_open_cb st;
     spp_close_cb := spp_close_cb st; spp_size := spp_size st;
     spp_stat_us := spp_stat_us st; spp_last_us := spp_last_us st;
     spp_rx_buffer_min_free := spp_rx_buffer_min_free st;
     spp_tx_buffer_min_free := spp_tx_buffer_min_free st; spp_writing := v;
     spp_second_connexion := spp_second_connexion st; errno := errno st |}.

Definition set_spp_second_connexion (v : bool) (st : bt_state) : bt_state :=
  {| spp_handle := spp_handle st; spp_rx_buffer := spp_rx_buffer st;
     spp_tx_buffer := spp_tx_buffer st; spp_open_cb := spp_open_cb st;
     spp_close_cb := spp_close_cb st; spp_size := spp_size st;
     spp_stat_us := spp_stat_us st; spp_last_us := spp_last_us st;
     spp_rx_buffer_min_free := spp_rx_buffer_min_free st;
     spp_tx_buffer_min_free := spp_tx_buffer_min_free st;
     spp_writing := spp_writing st; spp_second_connexion := v;
     errno := errno st |}.

Definition set_errno (v : Z) (st : bt_state) : bt_state :=
  {| spp_handle := spp_handle st; spp_rx_buffer := spp_rx_buffer st;
     spp_tx_buffer := spp_tx_buffer st; spp_open_cb := spp_open_cb st;
     spp_close_cb := spp_close_cb st; spp_size := spp_size st;
     spp_stat_us := spp_stat_us st; spp_last_us := spp_last_us st;
     spp_rx_buffer_min_free := spp_rx_buffer_min_free st;
     spp_tx_buffer_min_free := spp_tx_buffer_min_free st;
     spp_writing := spp_writing st;
     spp_second_connexion := spp_second_connexion st; errno := v |}.

(** Calls that leave bt.c. *)
Inductive bt_event : Type :=
| Call_esp_spp_disconnect (handle : Z)
| Call_esp_spp_write (handle : Z) (data : list byte)
| Call_spp_open_cb (handle : Z)
| Call_spp_close_cb (handle : Z).

(** The static initialisers. *)
Definition bt_state_init : bt_state :=
  {| spp_handle := 0; spp_rx_buffer := None; spp_tx_buffer := None;
     spp_open_cb := false; spp_close_cb := false;
     spp_size := 0; spp_stat_us := 0; spp_last_us := 0;
     spp_rx_buffer_min_free := 0; spp_tx_buffer_min_free := 0;
     spp_writing := false; spp_second_connexion := false; errno := 0 |}.

(** [_open].  [rx_ok] and [tx_ok] tell whether the two
    [xRingbufferCreate] calls return a ring, [now] is the value of
    [esp_timer_get_time()]. *)
Definition _open (rx_ok tx_ok : bool) (now : Z) (handle : Z) (st : bt_state)
  : bt_state * list bt_event :=
  if negb (spp_handle st =? 0) then
    (set_spp_second_connexion true st, [Call_esp_spp_disconnect handle])
  else
    let st :=
      set_spp_rx_buffer
        (if rx_ok then Some (xRingbufferCreate BT_SPP_RINGBUF_RX_SIZE) else None)
        st in
    let st :=
      set_spp_tx_buffer
        (if tx_ok then Some (xRingbufferCreate BT_SPP_RINGBUF_TX_SIZE) else None)
        st in
    if negb rx_ok || negb tx_ok then
      let st := set_spp_handle 0 st in
      let st := set_spp_rx_buffer None st in
      let st := set_spp_tx_buffer None st in
      (st, [])
    else
      let st := set_spp_handle handle st in
      let st := set_spp_rx_buffer_min_free (Z.of_nat BT_SPP_RINGBUF_RX_SIZE) st in
      let st := set_spp_tx_buffer_min_free (Z.of_nat BT_SPP_RINGBUF_TX_SIZE) st in
      let st := set_spp_writing false st in
      let st := set_spp_size 0 st in
      let st := set_spp_stat_us (u32 now) st in
      (st, if spp_open_cb st then [Call_spp_open_cb handle] else []).

(** [_close] *)
Definition _close (handle : Z) (st : bt_state) : bt_state * list bt_event :=
  if negb (handle =? spp_handle st) then
    if spp_second_connexion st
    then (set_spp_second_connexion false st, [])
    else (set_errno EBADF st, [])
  else
    let ev := if spp_close_cb st then [Call_spp_close_cb handle] else [] in
    let st := set_spp_rx_buffer None st in
    let st := set_spp_tx_buffer None st in
    let st := set_spp_handle 0 st in
    (st, ev).

(** [_write], the drain step.  [esp_spp_write h data] tells whether the
    stack takes the chunk ([ESP_OK]); [now] is the value of
    [esp_timer_get_time()].  The result is [None] when the call would hand
    a NULL ring to the ring buffer functions, which the source does not
    guard against (handle 0 while no connection is open). *)
Definition _write (esp_spp_write : Z -> list byte -> bool) (now : Z)
  (handle : Z) (st : bt_state) : option (bt_state * list bt_event) :=
  if negb (handle =? spp_handle st) then Some (st, [])
  else
    match spp_tx_buffer st with
    | None => None
    | Some tx =>
        match xRingbufferReceiveUpTo tx BT_SPP_DATA_MAX_SIZE with
        | Some (data, tx') =>
            let len := Z.of_nat (List.length data) in
            let st := set_spp_tx_buffer (Some tx') st in
            let ev := [Call_esp_spp_write handle data] in
            if negb (esp_spp_write handle data) then Some (st, ev)
            else
              let st := set_spp_last_us (u32 now) st in
              let st := set_spp_size (u32 (spp_size st + len)) st in
              let time_us := u32 (spp_last_us st - spp_stat_us st) in
              if time_us >=? 10 * 1000000
              then Some (set_spp_stat_us (spp_last_us st) (set_spp_size 0 st), ev)
              else Some (st, ev)
        | None => Some (set_spp_writing false st, [])
        end
    end.

(** [bt_write].  [buf] holds the [count] bytes the caller passes (so it is
    not NULL); the value returned is a [size_t].  The difference
    [esp_timer_get_time() - spp_last_us] is taken in 64 bits: the timer
    value is an [int64_t] and the stored [uint32_t] is widened. *)
Definition bt_write (esp_spp_write : Z -> list byte -> bool) (now : Z)
  (handle : Z) (buf : list byte) (st : bt_state)
  : option (Z * bt_state * list bt_event) :=
  let count := Z.of_nat (List.length buf) in
  if count =? 0 then Some (0, st, [])
  else if negb (handle =? spp_handle st) then
    Some (SIZE_T_MINUS_1, set_errno EBADF st, [])
  else
    match spp_tx_buffer st with
    | None => None
    | Some tx =>
        let r := xRingbufferSend tx buf in
        let st := set_spp_tx_buffer (Some (fst r)) st in
        if negb (snd r) then
          match
            (if spp_writing st && (now - spp_last_us st >? 5 * 1000000)
             then _write esp_spp_write now handle st
             else Some (st, []))
          with
          | None => None
          | Some (st1, ev1) =>
              match
                (if negb (spp_writing st1)
                 then _write esp_spp_write now handle (set_spp_writing true st1)
                 else Some (st1, []))
              with
              | None => None
              | Some (st2, ev2) => Some (0, st2, ev1 ++ ev2)
              end
          end
        else
          let free := Z.of_nat (xRingbufferGetCurFreeSize (fst r)) in
          let st :=
            if spp_tx_buffer_min_free st >? free
            then set_spp_tx_buffer_min_free free st else st in
          match
            (if negb (spp_writing st)
             then _write esp_spp_write now handle (set_spp_writing true st)
             else Some (st, []))
          with
          | None => None
          | Some (st1, ev1) => Some (count, st1, ev1)
          end
    end.

(** ** The receive path and the rest of the interface *)

(** [_read]: a packet of the stack is put into the receive ring, whole or
    not at all.  As in [_write], the result is [None] when the call would
    hand a NULL ring to the ring buffer functions. *)
Definition _read (handle : Z) (data : list byte) (st : bt_state)
  : option bt_state :=
  if negb (handle =? spp_handle st) then Some st
  else
    match spp_rx_buffer st with
    | None => None
    | Some rx =>
        let r := xRingbufferSend rx data in
        let st := set_spp_rx_buffer (Some (fst r)) st in
        if negb (snd r) then Some st
        else
          let free := Z.of_nat (xRingbufferGetCurFreeSize (fst r)) in
          Some (if spp_rx_buffer_min_free st >? free
                then set_spp_rx_buffer_min_free free st else st)
    end.

(** [bt_read]: the returned [size_t], the bytes copied into [buf], and the
    state.  The receive ring is taken as it is when the wait of
    [xRingbufferReceiveUpTo] ends: empty when the wait timed out. *)
Definition bt_read (handle : Z) (count : nat) (st : bt_state)
  : option (Z * list byte * bt_state) :=
  if negb (handle =? spp_handle st) then
    Some (SIZE_T_MINUS_1, [], set_errno EBADF st)
  else
    match spp_rx_buffer st with
    | None => None
    | Some rx =>
        match xRingbufferReceiveUpTo rx count with
        | None => Some (0, [], st)
        | Some (data, rx') =>
            let size := List.length data in
            if (size =? 0)%nat then Some (0, [], st)
            else
              let size := if (count <? size)%nat then count else size in
              Some (Z.of_nat size, firstn size data,
                    set_spp_rx_buffer (Some rx') st)
        end
    end.

(** [bt_close]: the returned [int]. *)
Definition bt_close (handle : Z) (st : bt_state)
  : Z * bt_state * list bt_event :=
  if negb (handle =? spp_handle st) then (-1, set_errno EBADF st, [])
  else (0, st, [Call_esp_spp_disconnect handle]).

(** [bt_get_tx_free] and [bt_get_rx_free]: the returned [size_t]. *)
Definition bt_get_tx_free (handle : Z) (st : bt_state) : option (Z * bt_state) :=
  if negb (handle =? spp_handle st) then
    Some (SIZE_T_MINUS_1, set_errno EBADF st)
  else
    match spp_tx_buffer st with
    | None => None
    | Some tx => Some (Z.of_nat (xRingbufferGetCurFreeSize tx), st)
    end.

Definition bt_get_rx_free (handle : Z) (st : bt_state) : option (Z * bt_state) :=
  if negb (handle =? spp_handle st) then
    Some (SIZE_T_MINUS_1, set_errno EBADF st)
  else
    match spp_rx_buffer st with
    | None => None
    | Some rx => Some (Z.of_nat (xRingbufferGetCurFreeSize rx), st)
    end.

(** [bt_discard_tx_buffer]: the returned [int]. *)
Definition bt_discard_tx_buffer (handle : Z) (st : bt_state)
  : option (Z * bt_state) :=
  if negb (handle =? spp_handle st) then Some (-1, set_errno EBADF st)
  else
    match spp_tx_buffer st with
    | None => None
    | Some tx =>
        match xRingbufferReceiveUpTo tx BT_SPP_RINGBUF_TX_SIZE with
        | None => Some (0, st)
        | Some (data, tx') =>
            Some (Z.of_nat (List.length data),
                  set_spp_tx_buffer (Some tx') st)
        end
    end.

(** ** The callback of the stack *)

Definition SPP_SERVER_NAME : string := "teslap-server".
Definition SPP_DEVICE_NAME : string := "TeslapLX".

(** The events [esp_spp_cb] tells apart, with the fields of [param] it
    reads.  [ESP_SPP_OTHER_EVT] stands for the events of the [default]
    case. *)
Inductive esp_spp_cb_event_t : Type :=
| ESP_SPP_INIT_EVT
| ESP_SPP_DISCOVERY_COMP_EVT
| ESP_SPP_OPEN_EVT (handle : Z)
| ESP_SPP_SRV_OPEN_EVT (handle : Z)
| ESP_SPP_CLOSE_EVT (handle : Z)
| ESP_SPP_START_EVT (handle : Z)
| ESP_SPP_CL_INIT_EVT (handle : Z)
| ESP_SPP_WRITE_EVT (handle : Z) (cong : bool)
| ESP_SPP_DATA_IND_EVT (handle : Z) (data : list byte)
| ESP_SPP_CONG_EVT (handle : Z) (cong : bool)
| ESP_SPP_OTHER_EVT.

(** What a callback does outside bt.c: the calls of [bt_event], and the
    three calls with which [ESP_SPP_INIT_EVT] starts the server. *)
Inductive spp_call : Type :=
| Bt_event (e : bt_event)
| Call_esp_bt_dev_set_device_name (name : string)
| Call_esp_bt_gap_set_scan_mode
| Call_esp_spp_start_srv (name : string).

(** [esp_spp_cb].  [rx_ok], [tx_ok], [esp_spp_write] and [now] are what
    [_open] and [_write] take from outside. *)
Definition esp_spp_cb (rx_ok tx_ok : bool)
  (esp_spp_write : Z -> list byte -> bool) (now : Z)
  (event : esp_spp_cb_event_t) (st : bt_state)
  : option (bt_state * list spp_call) :=
  let lift (r : option (bt_state * list bt_event)) :=
    match r with
    | Some (st', ev) => Some (st', map Bt_event ev)
    | None => None
    end in
  match event with
  | ESP_SPP_INIT_EVT =>
      Some (st, [Call_esp_bt_dev_set_device_name SPP_DEVICE_NAME;
                 Call_esp_bt_gap_set_scan_mode;
                 Call_esp_spp_start_srv SPP_SERVER_NAME])
  | ESP_SPP_SRV_OPEN_EVT handle => lift (Some (_open rx_ok tx_ok now handle st))
  | ESP_SPP_CLOSE_EVT handle => lift (Some (_close handle st))
  | ESP_SPP_WRITE_EVT handle cong =>
      if negb cong then lift (_write esp_spp_write now handle st)
      else Some (st, [])
  | ESP_SPP_DATA_IND_EVT handle data =>
      match _read handle data st with
      | Some st' => Some (st', [])
      | None => None
      end
  | ESP_SPP_CONG_EVT handle cong =>
      if negb cong then lift (_write esp_spp_write now handle st)
      else Some (st, [])
  | _ => Some (st, [])
  end.

End Bt.

(** * Vocabulary of the properties *)

Import Elm.

(** ** Filter tables *)

(** A rule matches an identifier. *)
Definition rule_matches (id : Z) (r : elm_filter_t) : Prop :=
  Z.land id (mask r) = Z.land (pattern r) (mask r).

(** A slot holds a rule when its mask is not zero. *)
Definition occupied (r : elm_filter_t) : bool := negb (mask r =? 0).

(** The entries of a list before the first free one. *)
Fixpoint stored_prefix (l : list elm_filter_t) : list elm_filter_t :=
  match l with
  | [] => []
  | r :: t => if mask r =? 0 then [] else r :: stored_prefix t
  end.

(** The rules of a table as the scanning loops meet them: the slots before
    the first free one, among the [ELM_ST_FILTER_LEN] slots of the
    array. *)
Definition stored_rules (filter : list elm_filter_t) : list elm_filter_t :=
  stored_prefix (firstn ELM_ST_FILTER_LEN filter).

(** The table is an array of [ELM_ST_FILTER_LEN] slots whose occupied
    slots form a prefix: no occupied slot comes after a free one. *)
Definition table_inv (filter : list elm_filter_t) : Prop :=
  List.length filter = ELM_ST_FILTER_LEN /\
  forall i j : nat,
    (i < j)%nat -> (j < ELM_ST_FILTER_LEN)%nat ->
    mask (slot filter j) <> 0 -> mask (slot filter i) <> 0.

(** Index [k] is the lowest free slot of the table. *)
Definition lowest_free (filter : list elm_filter_t) (k : nat) : Prop :=
  (k < ELM_ST_FILTER_LEN)%nat /\
  mask (slot filter k) = 0 /\
  forall i : nat, (i < k)%nat -> mask (slot filter i) <> 0.

(** A decision procedure for [table_inv], for concrete tables. *)
Fixpoint prefix_shape (l : list elm_filter_t) : bool :=
  match l with
  | [] => true
  | r :: t =>
      if mask r =? 0 then forallb (fun q => mask q =? 0) t else prefix_shape t
  end.

Definition table_invb (filter : list elm_filter_t) : bool :=
  (List.length filter =? ELM_ST_FILTER_LEN)%nat && prefix_shape filter.

(** Both tables of a session are in prefix form. *)
Definition tables_inv (g : elm_globals_t) : Prop :=
  table_inv (pass_filter g) /\ table_inv (block_filter g).

(** ** The table loops, read structurally *)

(** What [n] iterations of the scanning loop compute on the part of the
    table they are about to read. *)
Fixpoint scan_spec (n : nat) (l : list elm_filter_t) (id : Z) : bool :=
  match n, l with
  | S n', r :: t =>
      if mask r =? 0 then false
      else if filter_hit id r then true else scan_spec n' t id
  | _, _ => false
  end.

(** No occupied entry of the list comes after a free one. *)
Definition contiguous (l : list elm_filter_t) : Prop :=
  forall i j : nat,
    (i < j)%nat -> (j < List.length l)%nat ->
    mask (nth j l empty_slot) <> 0 -> mask (nth i l empty_slot) <> 0.


(** ** Actions *)

(** An action keeps a property of the session structure. *)
Definition keeps (I : elm_globals_t -> Prop) (a : action) : Prop :=
  forall g, I g -> I (fst (a g)).


(** The effect of an action on the stored previous command: it either
    empties it ([b = true]) or leaves it as it was. *)
Definition prev_effect (a : action) (b : bool) : Prop :=
  forall g, elm_previous_cmd (fst (a g))
            = if b then EmptyString else elm_previous_cmd g.


(** ** Commands and defaults *)

(** The line [line] is the command [name]: leading spaces are stepped
    over and letter case is ignored, as the dispatcher does. *)
Definition is_cmd (line name : string) : Prop :=
  strcasecmp (skip_spaces line) name = true.

(** The values [elm_reset] gives to the settings of a session. *)
Definition session_defaults (g : elm_globals_t) : Prop :=
  elm_echo g = true /\
  elm_linefeed g = true /\
  elm_headers g = true /\
  elm_spaces g = true /\
  elm_dlc g = false /\
  elm_timeout g = 5000 /\
  elm_memory g = true /\
  elm_adaptive g = 1 /\
  elm_can_auto_format g = false /\
  elm_can_flow_control g = true /\
  elm_can_silent_mode g = true /\
  elm_long_message g = false /\
  elm_protocol g = "0"%char /\
  elm_protocol_auto g = true /\
  elm_previous_cmd g = EmptyString /\
  elm_monitor g = false /\
  elm_filter g = mk_filter 0 0 /\
  stored_rules (pass_filter g) = [] /\
  stored_rules (block_filter g) = [].

(** An [extern] for concrete runs: every call into wifi.c succeeds, and
    a running monitor task has ended after one delay of
    [elm_monitor_stop]. *)
Definition extern_ok : extern :=
  mk_extern (fun _ _ => true) (fun _ _ => true) true (Some 0%nat).

(** The line begins with the keyword [name], leading spaces stepped over
    and letter case ignored: the command [name] with arguments. *)
Definition is_cmd_prefix (line name : string) : Prop :=
  strncasecmp (skip_spaces line) name (String.length name) = true.

(** The two arguments of an STFPA or STFBA line as the interpreter reads
    them, when it can. *)
Definition st_args (line : string) : option (Z * Z) :=
  st_filter_args (advance 2 (skip_spaces line)).

(** The commands that empty the stored previous command: the three resets
    ATD, ATWS and ATZ, WIFI STOP, and WIFI STA and WIFI AP when they are
    given arguments. *)
Definition clears_previous (line : string) : bool :=
  let cmd := skip_spaces line in
  (strncasecmp cmd "AT" 2
   && (strcasecmp (advance 2 cmd) "D" || strcasecmp (advance 2 cmd) "WS"
       || strcasecmp (advance 2 cmd) "Z"))
  || (strncasecmp cmd "WIFI" 4
      && (let a := skip_spaces (advance 4 cmd) in
          (strncasecmp a "STA" 3
           && negb (Ascii.eqb (deref (skip_spaces (advance 3 a))) NUL))
          || (strncasecmp a "AP" 2
              && negb (Ascii.eqb (deref (skip_spaces (advance 2 a))) NUL))
          || strncasecmp a "STOP" 4)).


(** ** Sessions *)

(** What changes the session structure after [elm_do] has set it up: a
    line handed to [elm_do_cmd], a run of the monitor task, and
    [elm_monitor_stop]. *)
Inductive session_step : Type :=
| Dispatch (x : extern) (line : string)
| MonitorTask (buf_ok : bool) (start : Z) (ticks : list monitor_tick)
| MonitorStop (x : extern).

Definition session_step_run (g : elm_globals_t) (s : session_step)
  : elm_globals_t :=
  match s with
  | Dispatch x line => fst (elm_do_cmd x line g)
  | MonitorTask buf_ok start ticks =>
      fst (fst (elm_monitor_task g buf_ok start ticks))
  | MonitorStop x => fst (fst (elm_monitor_stop x g))
  end.

(** The session structure after the given steps. *)
Definition elm_session (tag : string) (steps : list session_step)
  : elm_globals_t :=
  fold_left session_step_run steps (elm_init tag).

(** The last line accepted in a session, from its history: the last
    dispatched line that is not empty, unless that line is one of the
    commands that empty the store.  [acc] is the line accepted before the
    steps. *)
Fixpoint last_accepted (steps : list session_step) (acc : string) : string :=
  match steps with
  | [] => acc
  | Dispatch _ line :: rest =>
      last_accepted rest
        (if str_is_empty line then acc
         else if clears_previous line then EmptyString else line)
  | _ :: rest => last_accepted rest acc
  end.


(** ** Rate limiting *)

Import Can.

(** The position of the first occurrence of [id] in a list. *)
Fixpoint index_of (id : Z) (l : list Z) : option nat :=
  match l with
  | [] => None
  | x :: t => if id =? x then Some O else option_map S (index_of id t)
  end.

(** The entry of [can_id_last_us] that belongs to an identifier of the
    allow-list. *)
Definition last_forwarded (last : list Z) (id : Z) : Z :=
  match index_of id can_id with
  | Some i => nth i last 0
  | None => 0
  end.


(** ** Transport *)

Import Bt.

(** The bytes handed to the link by the [esp_spp_write] calls among
    the events, in order. *)
Fixpoint handed_over (ev : list bt_event) : list byte :=
  match ev with
  | [] => []
  | Call_esp_spp_write _ d :: ev' => d ++ handed_over ev'
  | _ :: ev' => handed_over ev'
  end.

(** The connection [handle] is open in [st], with transmit ring [tx]. *)
Definition connection_open (st : bt_state) (handle : Z) (tx : byte_ringbuf)
  : Prop :=
  spp_handle st <> 0 /\ handle = spp_handle st /\ spp_tx_buffer st = Some tx.

(** The transmit ring has room for [buf]. *)
Definition has_room (tx : byte_ringbuf) (buf : list byte) : Prop :=
  (List.length buf <= xRingbufferGetCurFreeSize tx)%nat.


(** A link for concrete runs: every chunk is taken. *)
Definition link_ok : Z -> list byte -> bool := fun _ _ => true.

(** The transport after connection 5 has been opened at time 1000000. *)
Definition bt_state_open5 : bt_state :=
  fst (_open true true 1000000 5 bt_state_init).


(** Connection 5 with a transmit ring filled to its last byte, a drain
    believed in flight, and the last successful send at time 1000000. *)
Definition bt_state_full5 : bt_state :=
  set_spp_tx_buffer
    (Some (mk_byte_ringbuf BT_SPP_RINGBUF_TX_SIZE
             (repeat x41%byte BT_SPP_RINGBUF_TX_SIZE)))
    (set_spp_writing true (set_spp_last_us 1000000 bt_state_open5)).


(** ** Monitoring *)

(** The frame received in a tick passes the filter. *)
Definition tick_passes (g : elm_globals_t) (k : monitor_tick) : bool :=
  match tick_rx k with
  | Some rx_msg =>
      elm_filter_test g (identifier (msg rx_msg)) (u32 (timestamp rx_msg))
  | None => false
  end.

(** What a tick prints for its frame. *)
Definition tick_frame_events (g : elm_globals_t) (k : monitor_tick)
  : list event :=
  match tick_rx k with
  | Some rx_msg =>
      if tick_passes g k then _elm_write_can g (msg rx_msg) (tick_past k)
      else []
  | None => []
  end.


(** The locals of the task after the given ticks, while the loop runs. *)
Fixpoint locals_after (g : elm_globals_t) (l : monitor_locals)
  (ticks : list monitor_tick) : monitor_locals :=
  match ticks with
  | [] => l
  | k :: rest =>
      match fst (elm_monitor_body g l k) with
      | Some l' => locals_after g l' rest
      | None => l
      end
  end.


(** ** Hexadecimal text *)

Definition is_hex (c : ascii) : bool :=
  match hex_digit c with Some _ => true | None => false end.

(** The longest prefix of a string that consists of hexadecimal digits. *)
Fixpoint hex_prefix (c : string) : string :=
  match c with
  | EmptyString => EmptyString
  | String a r => if is_hex a then String a (hex_prefix r) else EmptyString
  end.

(** Every character of the string is a hexadecimal digit. *)
Fixpoint all_hex (s : string) : bool :=
  match s with
  | EmptyString => true
  | String a r => is_hex a && all_hex r
  end.

(** The number a string of hexadecimal digits denotes, most significant
    digit first. *)
Fixpoint hex_value (s : string) : Z :=
  match s with
  | EmptyString => 0
  | String a r =>
      match hex_digit a with Some d => d | None => 0 end
      * 16 ^ Z.of_nat (String.length r) + hex_value r
  end.

(** ** The session loop *)





(** The line buffer and the stored previous command leave room for the
    terminating NUL in their [ELM_BUFFER_LEN] bytes. *)
Definition buffers_fit (g : elm_globals_t) (line : string) : Prop :=
  (String.length line < ELM_BUFFER_LEN)%nat /\
  (String.length (elm_previous_cmd g) < ELM_BUFFER_LEN)%nat.



(** ** Monitoring without traffic *)


(** ** Ingestion *)

(** The frames a run of [can_task] hands to [_can_raise], in order. *)
Fixpoint can_task_forwarded (stat_us : Z) (passes : list can_rx)
  (st : can_state) : list can_message_timestamp_t :=
  match passes with
  | [] => []
  | k :: rest =>
      match rx_frame k with
      | None => []
      | Some rx_msg =>
          let r := can_task_receive rx_msg (rx_time k) st in
          let fw := if fst r
                    then [mk_can_message_timestamp rx_msg (rx_time k)]
                    else [] in
          let us := u32 (rx_time k) in
          if u32 (us - stat_us) >=? 10 * 1000000
          then if rx_not_running k then fw
               else fw ++ can_task_forwarded us rest (snd r)
          else fw ++ can_task_forwarded stat_us rest (snd r)
      end
  end.

(** A subscription after the frames [l] have been offered to it one by
    one: it takes them in order for as long as it has room. *)
Definition offered (l : list can_message_timestamp_t)
  (b : option msg_ringbuf) : option msg_ringbuf :=
  match b with
  | Some rb =>
      Some (mk_msg_ringbuf (rb_items rb)
              (rb_queue rb
               ++ firstn (rb_items rb - List.length (rb_queue rb)) l))
  | None => None
  end.

(** ** Runs of the transport *)

(** What happens on the transmit path of an open connection: a call of
    [bt_write], or an event of the stack ([ESP_SPP_WRITE_EVT] or
    [ESP_SPP_CONG_EVT] without congestion) that makes [esp_spp_cb] call
    [_write]. *)
Inductive tx_op : Type :=
| Tx_write (now : Z) (buf : list byte)
| Tx_drain (now : Z).

(** The transport after the operations, the calls they make, and the
    bytes [bt_write] has accepted (those of the calls that returned
    [count]), in order. *)
Fixpoint tx_run (esp_spp_write : Z -> list byte -> bool) (handle : Z)
  (ops : list tx_op) (st : bt_state)
  : option (bt_state * list bt_event * list byte) :=
  match ops with
  | [] => Some (st, [], [])
  | Tx_write now buf :: rest =>
      match bt_write esp_spp_write now handle buf st with
      | None => None
      | Some (ret, st1, ev1) =>
          match tx_run esp_spp_write handle rest st1 with
          | None => None
          | Some (st2, ev2, acc) =>
              Some (st2, ev1 ++ ev2,
                    (if ret =? Z.of_nat (List.length buf) then buf else [])
                    ++ acc)
          end
      end
  | Tx_drain now :: rest =>
      match _write esp_spp_write now handle st with
      | None => None
      | Some (st1, ev1) =>
          match tx_run esp_spp_write handle rest st1 with
          | None => None
          | Some (st2, ev2, acc) => Some (st2, ev1 ++ ev2, acc)
          end
      end
  end.

(** The call hands a chunk to the stack for the connection [handle]: not
    empty and not longer than [BT_SPP_DATA_MAX_SIZE]. *)
Definition chunk_ok (handle : Z) (e : bt_event) : Prop :=
  match e with
  | Call_esp_spp_write h d =>
      h = handle /\ (1 <= List.length d <= BT_SPP_DATA_MAX_SIZE)%nat
  | _ => False
  end.

(** What an operation on the transmit path does to an open connection:
    the ring keeps its size, the bytes handed to the stack followed by
    those left in the ring are the bytes the ring held followed by the
    bytes [added], handle and receive ring stay, and every call made
    hands a chunk to the stack. *)
Definition tx_effect (st st' : bt_state) (ev : list bt_event)
  (added : list byte) : Prop :=
  exists tx tx',
    spp_tx_buffer st = Some tx /\ spp_tx_buffer st' = Some tx' /\
    rb_size tx' = rb_size tx /\
    handed_over ev ++ rb_bytes tx' = rb_bytes tx ++ added /\
    spp_handle st' = spp_handle st /\
    spp_rx_buffer st' = spp_rx_buffer st /\
    Forall (chunk_ok (spp_handle st)) ev.

(** The transmit ring is within its capacity, a drain is believed in
    flight whenever bytes are queued, and [spp_tx_buffer_min_free] is a
    lower bound of the free space. *)
Definition tx_invariant (st : bt_state) : Prop :=
  exists tx,
    spp_tx_buffer st = Some tx /\
    (List.length (rb_bytes tx) <= rb_size tx)%nat /\
    (rb_bytes tx <> [] -> spp_writing st = true) /\
    0 <= spp_tx_buffer_min_free st
      <= Z.of_nat (xRingbufferGetCurFreeSize tx).

(** What happens on the receive path of an open connection: a packet of
    the stack ([ESP_SPP_DATA_IND_EVT], handled by [_read]), or a call of
    [bt_read]. *)
Inductive rx_op : Type :=
| Rx_data (data : list byte)
| Rx_read (count : nat).

(** The transport after the operations, the bytes the [bt_read] calls
    have returned, and the bytes of the packets that went into the ring,
    both in order. *)
Fixpoint rx_run (handle : Z) (ops : list rx_op) (st : bt_state)
  : option (bt_state * list byte * list byte) :=
  match ops with
  | [] => Some (st, [], [])
  | Rx_data data :: rest =>
      match _read handle data st, spp_rx_buffer st with
      | Some st1, Some rx =>
          match rx_run handle rest st1 with
          | None => None
          | Some (st2, got, put) =>
              Some (st2, got,
                    (if snd (xRingbufferSend rx data) then data else [])
                    ++ put)
          end
      | _, _ => None
      end
  | Rx_read count :: rest =>
      match bt_read handle count st with
      | None => None
      | Some (_, bytes, st1) =>
          match rx_run handle rest st1 with
          | None => None
          | Some (st2, got, put) => Some (st2, bytes ++ got, put)
          end
      end
  end.

(** Everything that reaches bt.c: an event of the stack, or a call of
    one of the interface functions. *)
Inductive bt_op : Type :=
| Op_event (rx_ok tx_ok : bool) (now : Z) (event : esp_spp_cb_event_t)
| Op_write (now : Z) (handle : Z) (buf : list byte)
| Op_read (handle : Z) (count : nat)
| Op_close (handle : Z)
| Op_get_tx_free (handle : Z)
| Op_get_rx_free (handle : Z)
| Op_discard_tx_buffer (handle : Z).

(** The connection handle an operation names, if it names one that the
    code compares with [spp_handle]. *)
Definition op_handle (o : bt_op) : option Z :=
  match o with
  | Op_event _ _ _ (ESP_SPP_SRV_OPEN_EVT h) => Some h
  | Op_event _ _ _ (ESP_SPP_CLOSE_EVT h) => Some h
  | Op_event _ _ _ (ESP_SPP_WRITE_EVT h _) => Some h
  | Op_event _ _ _ (ESP_SPP_DATA_IND_EVT h _) => Some h
  | Op_event _ _ _ (ESP_SPP_CONG_EVT h _) => Some h
  | Op_event _ _ _ _ => None
  | Op_write _ h _ => Some h
  | Op_read h _ => Some h
  | Op_close h => Some h
  | Op_get_tx_free h => Some h
  | Op_get_rx_free h => Some h
  | Op_discard_tx_buffer h => Some h
  end.

(** The static data after an operation; [None] when the operation hands
    a NULL ring to a ring buffer function. *)
Definition bt_step (esp_spp_write : Z -> list byte -> bool) (o : bt_op)
  (st : bt_state) : option bt_state :=
  match o with
  | Op_event rx_ok tx_ok now event =>
      option_map fst (esp_spp_cb rx_ok tx_ok esp_spp_write now event st)
  | Op_write now h buf =>
      option_map (fun r => snd (fst r)) (bt_write esp_spp_write now h buf st)
  | Op_read h count => option_map snd (bt_read h count st)
  | Op_close h => Some (snd (fst (bt_close h st)))
  | Op_get_tx_free h => option_map snd (bt_get_tx_free h st)
  | Op_get_rx_free h => option_map snd (bt_get_rx_free h st)
  | Op_discard_tx_buffer h => option_map snd (bt_discard_tx_buffer h st)
  end.

Fixpoint bt_run (esp_spp_write : Z -> list byte -> bool) (ops : list bt_op)
  (st : bt_state) : option bt_state :=
  match ops with
  | [] => Some st
  | o :: rest =>
      match bt_step esp_spp_write o st with
      | Some st' => bt_run esp_spp_write rest st'
      | None => None
      end
  end.

(** Handle and rings go together: no connection and no ring, or a
    connection with both rings. *)
Definition rings_match_handle (st : bt_state) : Prop :=
  (spp_handle st = 0 /\ spp_rx_buffer st = None /\ spp_tx_buffer st = None)
  \/ (spp_handle st <> 0 /\ spp_rx_buffer st <> None /\ spp_tx_buffer st <> None).

(** ** Tokens *)

(** The character does not occur in the string. *)
Fixpoint no_char (a : ascii) (s : string) : bool :=
  match s with
  | EmptyString => true
  | String b r => negb (Ascii.eqb b a) && no_char a r
  end.

(** A run of [n] spaces. *)
Fixpoint spaces (n : nat) : string :=
  match n with
  | O => EmptyString
  | S n' => String " " (spaces n')
  end.

(** ** Receive addresses *)

(** The address digits of an ATCRA argument, most significant first: a
    hexadecimal digit, or [None] for the wildcard [X]; any other
    character is left out. *)
Fixpoint cra_digits (c : string) : list (option Z) :=
  match c with
  | EmptyString => []
  | String a r =>
      match hex_digit a with
      | Some d => Some d :: cra_digits r
      | None =>
          if Ascii.eqb a "X" || Ascii.eqb a "x"
          then None :: cra_digits r else cra_digits r
      end
  end.

(** The hexadecimal digit of [id] at position [k], counted from the least
    significant one. *)
Definition nibble (id : Z) (k : nat) : Z := (id / 16 ^ Z.of_nat k) mod 16.

(** Written with as many hexadecimal digits as [ds] has, [id] has the
    digits of [ds] wherever [ds] has no wildcard. *)
Fixpoint digits_match (ds : list (option Z)) (id : Z) : Prop :=
  match ds with
  | [] => True
  | d :: r =>
      match d with
      | Some v => nibble id (List.length r) = v
      | None => True
      end /\ digits_match r id
  end.

(** What the loop of ATCRA has reached after the digits [ds]: [f] has
    as many digits, and the rule [{f, m}] matches the identifiers that
    have as many digits and agree with [ds]. *)
Definition cra_reached (ds : list (option Z)) (f m : Z) : Prop :=
  0 <= f < 16 ^ Z.of_nat (List.length ds) /\
  0 <= m < 2 ^ 32 /\
  forall id, 0 <= id < 2 ^ 32 ->
    (Z.land id m = Z.land f m <->
     id < 16 ^ Z.of_nat (List.length ds) /\ digits_match ds id).

(** ** Commands *)

(** The protocol numbers of the table. *)
Definition protocol_numbers : list ascii :=
  map (fun p => deref (num p)) elm_protocols.

(** The letters a command can begin with: REBOOT and RESTART, PS, FREE,
    ELOG, SIMU and the ST commands, WIFI, OTA, and the AT commands. *)
Definition command_letter (c : ascii) : bool :=
  existsb (Ascii.eqb (tolower c)) ["r"; "p"; "f"; "e"; "s"; "w"; "o"; "a"]%char.

(** * Properties *)

(** ** Arrays *)

Lemma nth_app_length (A : Type) (pre l : list A) (d : A) :
  nth (List.length pre) (pre ++ l) d = nth 0 l d.
Proof.
  induction pre as [|x pre IH]; simpl; auto.
Qed.

Lemma array_set_length (A : Type) (l : list A) (i : nat) (v : A) :
  List.length (array_set l i v) = List.length l.
Proof.
  revert i; induction l as [|x l IH]; intros [|i]; simpl; auto.
Qed.

Lemma nth_array_set_same (A : Type) (l : list A) (i : nat) (v d : A) :
  (i < List.length l)%nat -> nth i (array_set l i v) d = v.
Proof.
  revert i; induction l as [|x l IH]; intros [|i] H; simpl in *; try lia; auto.
  apply IH; lia.
Qed.

Lemma nth_array_set_other (A : Type) (l : list A) (i j : nat) (v d : A) :
  i <> j -> nth j (array_set l i v) d = nth j l d.
Proof.
  revert i j; induction l as [|x l IH]; intros [|i] [|j] H; simpl; auto;
    try congruence.
Qed.

Lemma app_cons_shift (A : Type) (pre : list A) (x : A) (t : list A) :
  pre ++ x :: t = (pre ++ [x]) ++ t.
Proof. now rewrite <- app_assoc. Qed.

Lemma length_snoc (A : Type) (pre : list A) (x : A) :
  List.length (pre ++ [x]) = S (List.length pre).
Proof. rewrite length_app; simpl; lia. Qed.

(** ** The table loops, read structurally *)

Lemma slot_app_length pre l :
  slot (pre ++ l) (List.length pre) = nth 0 l empty_slot.
Proof. unfold slot. apply nth_app_length. Qed.

Lemma filter_scan_loop_app n : forall pre l id,
  filter_scan_loop n (List.length pre) (pre ++ l) id = scan_spec n l id.
Proof.
  induction n as [|n IH]; intros pre l id; simpl; [reflexivity|].
  rewrite slot_app_length.
  destruct l as [|r t]; simpl; [reflexivity|].
  destruct (mask r =? 0); [reflexivity|].
  destruct (filter_hit id r); [reflexivity|].
  rewrite app_cons_shift, <- (length_snoc pre r). apply IH.
Qed.

Lemma filter_scan_loop_spec filter id :
  filter_scan_loop ELM_ST_FILTER_LEN 0 filter id
  = scan_spec ELM_ST_FILTER_LEN filter id.
Proof. exact (filter_scan_loop_app ELM_ST_FILTER_LEN [] filter id). Qed.

Lemma filter_hit_iff id r : filter_hit id r = true <-> rule_matches id r.
Proof. unfold filter_hit, rule_matches. apply Z.eqb_eq. Qed.

Lemma scan_spec_stored n : forall l id,
  scan_spec n l id = existsb (filter_hit id) (stored_prefix (firstn n l)).
Proof.
  induction n as [|n IH]; intros [|r t] id; simpl; try reflexivity.
  destruct (mask r =? 0); simpl; [reflexivity|].
  destruct (filter_hit id r); simpl; [reflexivity | apply IH].
Qed.

Lemma scan_true_iff filter id :
  filter_scan_loop ELM_ST_FILTER_LEN 0 filter id = true
  <-> Exists (rule_matches id) (stored_rules filter).
Proof.
  rewrite filter_scan_loop_spec, scan_spec_stored. fold (stored_rules filter).
  rewrite existsb_exists, Exists_exists.
  split; intros [r [Hin Hr]]; exists r; split; auto; now apply filter_hit_iff.
Qed.

Lemma slot0_free_iff filter :
  (mask (slot filter 0) =? 0) = true <-> stored_rules filter = [].
Proof.
  unfold stored_rules, slot, ELM_ST_FILTER_LEN.
  destruct filter as [|r t]; cbn [firstn stored_prefix nth empty_slot mask].
  - rewrite Z.eqb_refl. tauto.
  - destruct (mask r =? 0); split; intros; congruence.
Qed.

(** ** The two-stage filter test *)

(** C1.  [elm_filter_test] accepts an identifier exactly when the
    identifier is not zero, the AT rule of the session matches it, the pass
    table is empty or one of its rules matches it, and it is not the case
    that the block table is non-empty and one of its rules matches it.  A
    rule [{pattern, mask}] matches [id] when
    [id & mask = pattern & mask]; the rules of a table are the slots before
    its first free one.  The test is a function of the session structure
    and the identifier alone: it returns a flag and has no session
    structure to give back. *)
Theorem elm_filter_test_two_stage (g : elm_globals_t) (id us : Z) :
  elm_filter_test g id us = true <->
  id <> 0 /\
  rule_matches id (elm_filter g) /\
  (stored_rules (pass_filter g) = [] \/
   Exists (rule_matches id) (stored_rules (pass_filter g))) /\
  ~ (stored_rules (block_filter g) <> [] /\
     Exists (rule_matches id) (stored_rules (block_filter g))).
Proof.
  unfold elm_filter_test.
  destruct (Z.eqb_spec id 0) as [Hid|Hid].
  { split; [discriminate | intros [H _]; contradiction]. }
  destruct (filter_hit id (elm_filter g)) eqn:Hat; cbn [negb].
  2:{ split; [discriminate|]. intros (_ & H & _).
      apply filter_hit_iff in H. congruence. }
  apply filter_hit_iff in Hat.
  pose proof (slot0_free_iff (pass_filter g)) as Hp.
  pose proof (slot0_free_iff (block_filter g)) as Hb.
  pose proof (scan_true_iff (pass_filter g) id) as Sp.
  pose proof (scan_true_iff (block_filter g) id) as Sb.
  destruct (mask (slot (pass_filter g) 0) =? 0);
    destruct (filter_scan_loop ELM_ST_FILTER_LEN 0 (pass_filter g) id);
    destruct (mask (slot (block_filter g) 0) =? 0);
    destruct (filter_scan_loop ELM_ST_FILTER_LEN 0 (block_filter g) id);
    cbn [negb andb]; intuition congruence.
Qed.

(** ** The occupied slots of a table form a prefix *)

Lemma slot_set_slot_same f i r :
  (i < List.length f)%nat -> slot (set_slot f i r) i = r.
Proof. unfold slot, set_slot. apply nth_array_set_same. Qed.

Lemma slot_set_slot_other f i j r :
  i <> j -> slot (set_slot f i r) j = slot f j.
Proof. unfold slot, set_slot. apply nth_array_set_other. Qed.

Lemma slot_outside f i : (List.length f <= i)%nat -> slot f i = empty_slot.
Proof. unfold slot. apply nth_overflow. Qed.

Lemma occupied_inside f i : mask (slot f i) <> 0 -> (i < List.length f)%nat.
Proof.
  intros H. destruct (Nat.lt_ge_cases i (List.length f)) as [|Hge]; auto.
  rewrite (slot_outside f Hge) in H. now elim H.
Qed.

Ltac nat_cases :=
  repeat match goal with
         | |- context [(?a <=? ?b)%nat] => destruct (Nat.leb_spec a b)
         | |- context [(?a <? ?b)%nat] => destruct (Nat.ltb_spec a b)
         end;
  cbn [andb]; auto; try lia.

(** [elm_filter_add] either finds the lowest free slot among those it
    scans and writes the rule there, or finds every slot occupied and
    leaves the table alone. *)
Lemma elm_filter_add_loop_char n : forall i f p m,
  (exists k, (i <= k < i + n)%nat /\ mask (slot f k) = 0 /\
             (forall i', (i <= i' < k)%nat -> mask (slot f i') <> 0) /\
             elm_filter_add_loop n i f p m = (set_slot f k (mk_filter p m), true))
  \/ ((forall i', (i <= i' < i + n)%nat -> mask (slot f i') <> 0) /\
      elm_filter_add_loop n i f p m = (f, false)).
Proof.
  induction n as [|n IH]; intros i f p m; cbn [elm_filter_add_loop].
  - right. split; [intros; lia | reflexivity].
  - destruct (Z.eqb_spec (mask (slot f i)) 0) as [E|E].
    + left. exists i. repeat split; auto; intros; lia.
    + destruct (IH (S i) f p m) as [(k & Hk & Hfree & Hocc & Heq)|(Hocc & Heq)].
      * left. exists k. repeat split; auto; try lia.
        intros i' Hi'. destruct (Nat.eq_dec i' i) as [->|]; auto.
        apply Hocc; lia.
      * right. split; auto.
        intros i' Hi'. destruct (Nat.eq_dec i' i) as [->|]; auto.
        apply Hocc; lia.
Qed.

(** [elm_filter_clear] zeroes the slots from where it starts up to the
    first free slot it meets, and touches no other slot. *)
Lemma elm_filter_clear_loop_char n : forall i f,
  exists k, (i <= k <= i + n)%nat /\
    (forall i', (i <= i' < k)%nat -> mask (slot f i') <> 0) /\
    ((k < i + n)%nat -> mask (slot f k) = 0) /\
    List.length (elm_filter_clear_loop n i f) = List.length f /\
    forall j, slot (elm_filter_clear_loop n i f) j
              = if ((i <=? j) && (j <? k))%nat then mk_filter 0 0 else slot f j.
Proof.
  induction n as [|n IH]; intros i f; cbn [elm_filter_clear_loop].
  - exists i. repeat split; try lia.
    intros j. nat_cases.
  - destruct (Z.eqb_spec (mask (slot f i)) 0) as [E|E].
    + exists i. repeat split; auto; try lia.
      intros j. nat_cases.
    + pose proof (occupied_inside f i E) as Hin.
      destruct (IH (S i) (set_slot f i (mk_filter 0 0)))
        as (k & Hk & Hocc & Hfree & Hlen & Hslot).
      exists k. repeat split; try lia.
      * intros i' Hi'. destruct (Nat.eq_dec i' i) as [->|Hne]; auto.
        rewrite <- (slot_set_slot_other f (mk_filter 0 0) (i:=i) (j:=i')) by lia.
        apply Hocc; lia.
      * intros Hlt. rewrite <- (slot_set_slot_other f (mk_filter 0 0) (i:=i) (j:=k)) by lia.
        apply Hfree; lia.
      * rewrite Hlen. unfold set_slot. apply array_set_length.
      * intros j. rewrite Hslot.
        destruct (Nat.eq_dec j i) as [->|Hne].
        -- rewrite slot_set_slot_same by auto. nat_cases.
        -- rewrite slot_set_slot_other by auto. nat_cases.
Qed.

Lemma table_inv_contiguous f :
  table_inv f <-> List.length f = ELM_ST_FILTER_LEN /\ contiguous f.
Proof.
  unfold table_inv, contiguous, slot.
  split; intros [Hlen H]; split; auto; intros i j Hij Hj; apply H; auto; lia.
Qed.

Lemma contiguous_tail r t : contiguous (r :: t) -> contiguous t.
Proof.
  intros H i j Hij Hj Hocc. apply (H (S i) (S j)); simpl; auto; lia.
Qed.

Lemma contiguous_head_free r t :
  contiguous (r :: t) -> mask r = 0 -> Forall (fun q => mask q = 0) t.
Proof.
  intros H Hr. apply Forall_forall. intros q Hq.
  destruct (In_nth t q empty_slot Hq) as (j & Hj & Hnth).
  destruct (Z.eq_dec (mask q) 0) as [|Hne]; auto.
  exfalso. apply (H 0%nat (S j)); simpl; auto; try lia. now rewrite Hnth.
Qed.

Lemma filter_all_free t :
  Forall (fun q => mask q = 0) t -> List.filter occupied t = [].
Proof.
  induction 1 as [|q t Hq _ IH]; simpl; auto.
  unfold occupied at 1. rewrite Hq. simpl. exact IH.
Qed.

Lemma stored_prefix_filter l :
  contiguous l -> stored_prefix l = List.filter occupied l.
Proof.
  induction l as [|r t IH]; intros H; simpl; auto.
  unfold occupied at 1.
  destruct (Z.eqb_spec (mask r) 0) as [E|E]; simpl.
  - symmetry. apply filter_all_free. now apply contiguous_head_free with r.
  - f_equal. apply IH. now apply contiguous_tail with r.
Qed.

Lemma stored_rules_filter f :
  table_inv f -> stored_rules f = List.filter occupied f.
Proof.
  intros H. apply table_inv_contiguous in H. destruct H as [Hlen H].
  unfold stored_rules. rewrite <- Hlen, firstn_all.
  now apply stored_prefix_filter.
Qed.

Lemma prefix_shape_sound l : prefix_shape l = true -> contiguous l.
Proof.
  induction l as [|r t IH]; intros Hs i j Hij Hj Hocc; simpl in *; [lia|].
  destruct j as [|j]; [lia|].
  destruct (Z.eqb_spec (mask r) 0) as [E|E].
  - exfalso. rewrite forallb_forall in Hs.
    assert (Hin : In (nth j t empty_slot) t) by (apply nth_In; lia).
    apply Hs in Hin. apply Z.eqb_eq in Hin. contradiction.
  - destruct i as [|i]; auto.
    apply (IH Hs i j); auto; lia.
Qed.

Lemma table_invb_sound f : table_invb f = true -> table_inv f.
Proof.
  unfold table_invb. intros H. apply andb_true_iff in H. destruct H as [Hl Hs].
  apply table_inv_contiguous. split.
  - now apply Nat.eqb_eq.
  - now apply prefix_shape_sound.
Qed.

Lemma elm_filter_add_lowest_free f p m :
  (exists k, lowest_free f k /\
             elm_filter_add f p m = (set_slot f k (mk_filter p m), true))
  \/ ((forall i, (i < ELM_ST_FILTER_LEN)%nat -> mask (slot f i) <> 0) /\
      elm_filter_add f p m = (f, false)).
Proof.
  unfold elm_filter_add, lowest_free.
  destruct (elm_filter_add_loop_char ELM_ST_FILTER_LEN 0 f p m)
    as [(k & Hk & Hfree & Hocc & Heq)|(Hocc & Heq)].
  - left. exists k. repeat split; auto; try lia. intros; apply Hocc; lia.
  - right. split; auto. intros; apply Hocc; lia.
Qed.

Lemma elm_filter_add_inv f p m :
  table_inv f -> table_inv (fst (elm_filter_add f p m)).
Proof.
  intros [Hlen Hinv].
  destruct (elm_filter_add_lowest_free f p m)
    as [(k & (Hk & Hfree & Hocc) & Heq)|(_ & Heq)]; rewrite Heq; cbn [fst].
  2:{ split; auto. }
  split.
  - unfold set_slot. now rewrite array_set_length.
  - intros i j Hij Hj.
    destruct (Nat.eq_dec j k) as [->|Hjk].
    + intros _. rewrite slot_set_slot_other by lia. apply Hocc; lia.
    + rewrite slot_set_slot_other by lia. intros Hoj.
      destruct (Nat.eq_dec i k) as [->|Hik].
      * exfalso. apply (Hinv k j); auto.
      * rewrite slot_set_slot_other by lia. apply (Hinv i j); auto.
Qed.

Lemma elm_filter_clear_first_free f :
  exists k, (k <= ELM_ST_FILTER_LEN)%nat /\
    (forall i, (i < k)%nat -> mask (slot f i) <> 0) /\
    ((k < ELM_ST_FILTER_LEN)%nat -> mask (slot f k) = 0) /\
    List.length (elm_filter_clear f) = List.length f /\
    forall j, slot (elm_filter_clear f) j
              = if (j <? k)%nat then mk_filter 0 0 else slot f j.
Proof.
  unfold elm_filter_clear.
  destruct (elm_filter_clear_loop_char ELM_ST_FILTER_LEN 0 f)
    as (k & Hk & Hocc & Hfree & Hlen & Hslot).
  exists k. split; [lia|]. split; [intros; apply Hocc; lia|].
  split; [intros; apply Hfree; lia|]. split; [exact Hlen|].
  intros j. rewrite Hslot. reflexivity.
Qed.

Lemma elm_filter_clear_all_free f :
  table_inv f -> forall j, mask (slot (elm_filter_clear f) j) = 0.
Proof.
  intros [Hlen Hinv] j.
  destruct (elm_filter_clear_first_free f) as (k & Hk & Hocc & Hfree & _ & Hslot).
  rewrite Hslot. destruct (Nat.ltb_spec j k) as [Hjk|Hjk]; [reflexivity|].
  destruct (Z.eq_dec (mask (slot f j)) 0) as [|Hne]; auto.
  exfalso.
  pose proof (occupied_inside f j Hne) as Hin. rewrite Hlen in Hin.
  destruct (Nat.eq_dec j k) as [->|Hne'].
  - apply Hne, Hfree; lia.
  - apply (Hinv k j); try lia; auto.
Qed.

Lemma elm_filter_clear_inv f : table_inv f -> table_inv (elm_filter_clear f).
Proof.
  intros H. split.
  - destruct (elm_filter_clear_first_free f) as (k & _ & _ & _ & Hlen & _).
    rewrite Hlen. apply H.
  - intros i j _ _ Hocc. exfalso. apply Hocc.
    now apply elm_filter_clear_all_free.
Qed.

Lemma elm_filter_clear_stored f : stored_rules (elm_filter_clear f) = [].
Proof.
  apply slot0_free_iff. apply Z.eqb_eq.
  destruct (elm_filter_clear_first_free f) as (k & Hk & Hocc & Hfree & _ & Hslot).
  rewrite Hslot. destruct (Nat.ltb_spec 0 k) as [Hjk|Hjk]; [reflexivity|].
  assert (k = 0)%nat as -> by lia.
  apply Hfree. unfold ELM_ST_FILTER_LEN. lia.
Qed.

Lemma pass_filter_elm_reset g :
  pass_filter (elm_reset g) = elm_filter_clear (pass_filter g).
Proof. reflexivity. Qed.

Lemma block_filter_elm_reset g :
  block_filter (elm_reset g) = elm_filter_clear (block_filter g).
Proof. reflexivity. Qed.

(** ** Rules and the filter test *)

(** [elm_filter_test] in terms of the stored rules. *)
Lemma elm_filter_test_stored g id us :
  elm_filter_test g id us
  = negb (id =? 0) && filter_hit id (elm_filter g)
    && (match stored_rules (pass_filter g) with
        | [] => true
        | l => existsb (filter_hit id) l
        end)
    && negb (existsb (filter_hit id) (stored_rules (block_filter g))).
Proof.
  unfold elm_filter_test.
  destruct (id =? 0); cbn [negb andb]; [reflexivity|].
  destruct (filter_hit id (elm_filter g)); cbn [negb andb]; [|reflexivity].
  rewrite !filter_scan_loop_spec, !scan_spec_stored.
  fold (stored_rules (pass_filter g)). fold (stored_rules (block_filter g)).
  pose proof (slot0_free_iff (pass_filter g)) as Hp.
  pose proof (slot0_free_iff (block_filter g)) as Hb.
  destruct (mask (slot (pass_filter g) 0) =? 0).
  - rewrite (proj1 Hp eq_refl). cbn [negb andb].
    destruct (mask (slot (block_filter g) 0) =? 0); cbn [negb].
    + rewrite (proj1 Hb eq_refl). reflexivity.
    + reflexivity.
  - cbn [negb].
    destruct (stored_rules (pass_filter g)) as [|r l] eqn:E.
    { destruct Hp as [_ Hp]. specialize (Hp eq_refl). discriminate. }
    destruct (existsb (filter_hit id) (r :: l)); cbn [andb]; [|reflexivity].
    destruct (mask (slot (block_filter g) 0) =? 0); cbn [negb].
    + rewrite (proj1 Hb eq_refl). reflexivity.
    + reflexivity.
Qed.

Lemma existsb_filter_hit id l :
  existsb (filter_hit id) l = true <-> Exists (rule_matches id) l.
Proof.
  rewrite existsb_exists, Exists_exists.
  split; intros (r & Hin & Hr); exists r; split; auto; now apply filter_hit_iff.
Qed.

Lemma elm_filter_test_iff g id us :
  elm_filter_test g id us = true <->
  id <> 0 /\ rule_matches id (elm_filter g) /\
  (stored_rules (pass_filter g) = [] \/
   Exists (rule_matches id) (stored_rules (pass_filter g))) /\
  ~ Exists (rule_matches id) (stored_rules (block_filter g)).
Proof.
  rewrite elm_filter_test_stored.
  pose proof (filter_hit_iff id (elm_filter g)) as Hat.
  pose proof (existsb_filter_hit id (stored_rules (pass_filter g))) as Hp.
  pose proof (existsb_filter_hit id (stored_rules (block_filter g))) as Hb.
  destruct (Z.eqb_spec id 0) as [Hid|Hid];
    destruct (filter_hit id (elm_filter g));
    destruct (existsb (filter_hit id) (stored_rules (block_filter g)));
    destruct (stored_rules (pass_filter g)) as [|r l];
    try destruct (existsb (filter_hit id) (r :: l));
    cbn [negb andb]; intuition (try congruence).
Qed.

(** On a table in prefix form the clear loop, which stops at the first
    free slot, has zeroed every occupied slot and no other. *)
Lemma elm_filter_clear_occupied f :
  table_inv f ->
  elm_filter_clear f
  = map (fun r => if occupied r then mk_filter 0 0 else r) f.
Proof.
  intros Hinv. pose proof Hinv as [Hlen Hcont].
  destruct (elm_filter_clear_first_free f) as (k & Hk & Hocc & Hfree & Hl & Hslot).
  set (h := fun r => if occupied r then mk_filter 0 0 else r).
  apply nth_ext with (d := empty_slot) (d' := h empty_slot).
  { now rewrite length_map. }
  intros j Hj.
  change (nth j (elm_filter_clear f) empty_slot) with (slot (elm_filter_clear f) j).
  rewrite Hslot, map_nth. fold (slot f j). unfold h.
  unfold occupied.
  destruct (Nat.ltb_spec j k) as [Hjk|Hjk].
  - rewrite (proj2 (Z.eqb_neq _ _) (Hocc j Hjk)). reflexivity.
  - destruct (Z.eqb_spec (mask (slot f j)) 0) as [E|E]; [reflexivity|].
    exfalso. rewrite Hl, Hlen in Hj.
    destruct (Nat.eq_dec j k) as [->|Hne].
    + apply E, Hfree. exact Hj.
    + apply (Hcont k j ltac:(lia) Hj E). apply Hfree. lia.
Qed.

(** ** Reasoning about actions *)

Section Keeps.
Variable I : elm_globals_t -> Prop.

Lemma keeps_skip : keeps I skip.
Proof. intros g H; exact H. Qed.

Lemma keeps_emit e : keeps I (emit e).
Proof. intros g H; exact H. Qed.

Lemma keeps_printf s : keeps I (printf s).
Proof. intros g H; exact H. Qed.

Lemma keeps_seq a b : keeps I a -> keeps I b -> keeps I (a ;; b).
Proof. intros Ha Hb g H. unfold seq. cbn [fst]. apply Hb, Ha, H. Qed.

Lemma keeps_if (c : bool) a b :
  keeps I a -> keeps I b -> keeps I (if c then a else b).
Proof. destruct c; auto. Qed.

Lemma keeps_assign f : (forall g, I g -> I (f g)) -> keeps I (assign f).
Proof. intros Hf g H. apply Hf, H. Qed.

Lemma keeps_elm_newline : keeps I elm_newline.
Proof. intros g H; exact H. Qed.

Lemma keeps_elm_writeln s : keeps I (elm_writeln s).
Proof. intros g H. destruct s; exact H. Qed.

Lemma keeps_elm_write_ok : keeps I elm_write_ok.
Proof. intros g H; exact H. Qed.

Lemma keeps_elm_write_ok_error ok : keeps I (elm_write_ok_error ok).
Proof. intros g H. destruct ok; exact H. Qed.

Lemma keeps_elm_cmd_err cmd : keeps I (elm_cmd_err cmd).
Proof.
  intros g H. unfold elm_cmd_err, seq.
  destruct (negb (Ascii.eqb (deref cmd) NUL)); exact H.
Qed.

Lemma keeps_at_describe_protocol : keeps I at_describe_protocol.
Proof. intros g H; exact H. Qed.

Lemma keeps_at_describe_protocol_num : keeps I at_describe_protocol_num.
Proof. intros g H; exact H. Qed.

Lemma keeps_at_2 : keeps I (fun g => elm_writeln (elm_device_identifier g) g).
Proof. intros g H. destruct (elm_device_identifier g); exact H. Qed.

Lemma keeps_elm_monitor_start :
  (forall g, I g -> I (set_elm_monitor true g)) -> keeps I elm_monitor_start.
Proof.
  intros Hm g H. unfold elm_monitor_start.
  destruct (elm_monitor g); [exact H | apply Hm, H].
Qed.
End Keeps.

Lemma pe_skip : prev_effect skip false.
Proof. intros g; reflexivity. Qed.

Lemma pe_emit e : prev_effect (emit e) false.
Proof. intros g; reflexivity. Qed.

Lemma pe_printf s : prev_effect (printf s) false.
Proof. intros g; reflexivity. Qed.

Lemma pe_seq a1 a2 b1 b2 :
  prev_effect a1 b1 -> prev_effect a2 b2 -> prev_effect (a1 ;; a2) (b1 || b2).
Proof.
  intros H1 H2 g. unfold seq. cbn [fst]. rewrite H2, H1.
  destruct b1, b2; reflexivity.
Qed.

Lemma pe_if (c : bool) a1 a2 b1 b2 :
  prev_effect a1 b1 -> prev_effect a2 b2 ->
  prev_effect (if c then a1 else a2) (if c then b1 else b2).
Proof. destruct c; auto. Qed.

Lemma pe_assign_keep f :
  (forall g, elm_previous_cmd (f g) = elm_previous_cmd g) ->
  prev_effect (assign f) false.
Proof. intros H g. apply H. Qed.

Lemma pe_assign_clear f :
  (forall g, elm_previous_cmd (f g) = EmptyString) ->
  prev_effect (assign f) true.
Proof. intros H g. apply H. Qed.

Lemma pe_elm_newline : prev_effect elm_newline false.
Proof. intros g; reflexivity. Qed.

Lemma pe_elm_writeln s : prev_effect (elm_writeln s) false.
Proof. intros g. destruct s; reflexivity. Qed.

Lemma pe_elm_write_ok : prev_effect elm_write_ok false.
Proof. intros g; reflexivity. Qed.

Lemma pe_elm_write_ok_error ok : prev_effect (elm_write_ok_error ok) false.
Proof. intros g. destruct ok; reflexivity. Qed.

Lemma pe_elm_cmd_err cmd : prev_effect (elm_cmd_err cmd) false.
Proof.
  intros g. unfold elm_cmd_err, seq.
  destruct (negb (Ascii.eqb (deref cmd) NUL)); reflexivity.
Qed.

Lemma pe_at_describe_protocol : prev_effect at_describe_protocol false.
Proof. intros g; reflexivity. Qed.

Lemma pe_at_describe_protocol_num : prev_effect at_describe_protocol_num false.
Proof. intros g; reflexivity. Qed.

Lemma pe_at_2 :
  prev_effect (fun g => elm_writeln (elm_device_identifier g) g) false.
Proof. intros g. destruct (elm_device_identifier g); reflexivity. Qed.

Lemma pe_elm_monitor_start : prev_effect elm_monitor_start false.
Proof.
  intros g. unfold elm_monitor_start. destruct (elm_monitor g); reflexivity.
Qed.

Lemma pe_st_add_pass cmd c : prev_effect (st_add_pass cmd c) false.
Proof.
  intros g. unfold st_add_pass.
  destruct (st_filter_args c) as [[p m]|]; [|apply pe_elm_cmd_err].
  unfold seq, assign. cbn [fst].
  destruct (snd (elm_filter_add (pass_filter g) p m)); reflexivity.
Qed.

Lemma pe_st_add_block cmd c : prev_effect (st_add_block cmd c) false.
Proof.
  intros g. unfold st_add_block.
  destruct (st_filter_args c) as [[p m]|]; [|apply pe_elm_cmd_err].
  unfold seq, assign. cbn [fst].
  destruct (snd (elm_filter_add (block_filter g) p m)); reflexivity.
Qed.

Lemma pe_at_mr c : prev_effect (at_mr c) false.
Proof.
  intros g. unfold at_mr, seq, elm_monitor_start, assign. cbn [fst].
  match goal with |- context [if ?b then _ else _] => destruct b end;
    reflexivity.
Qed.

Lemma pe_at_mt c : prev_effect (at_mt c) false.
Proof.
  intros g. unfold at_mt, seq, elm_monitor_start, assign. cbn [fst].
  match goal with |- context [if ?b then _ else _] => destruct b end;
    reflexivity.
Qed.

(** The dispatcher is a tree of tests on the command text whose leaves are
    sequences of the actions above. *)
Ltac pe_step :=
  lazymatch goal with
  | |- prev_effect (if _ then _ else _) _ => apply pe_if
  | |- prev_effect (_ ;; _) _ => apply pe_seq
  | |- prev_effect skip _ => apply pe_skip
  | |- prev_effect (emit _) _ => apply pe_emit
  | |- prev_effect (printf _) _ => apply pe_printf
  | |- prev_effect elm_newline _ => apply pe_elm_newline
  | |- prev_effect (elm_writeln _) _ => apply pe_elm_writeln
  | |- prev_effect elm_write_ok _ => apply pe_elm_write_ok
  | |- prev_effect (elm_write_ok_error _) _ => apply pe_elm_write_ok_error
  | |- prev_effect (elm_cmd_err _) _ => apply pe_elm_cmd_err
  | |- prev_effect at_describe_protocol _ => apply pe_at_describe_protocol
  | |- prev_effect at_describe_protocol_num _ =>
      apply pe_at_describe_protocol_num
  | |- prev_effect elm_monitor_start _ => apply pe_elm_monitor_start
  | |- prev_effect (st_add_pass _ _) _ => apply pe_st_add_pass
  | |- prev_effect (st_add_block _ _) _ => apply pe_st_add_block
  | |- prev_effect (at_mr _) _ => apply pe_at_mr
  | |- prev_effect (at_mt _) _ => apply pe_at_mt
  | |- prev_effect (assign elm_reset) _ =>
      apply pe_assign_clear; intros; reflexivity
  | |- prev_effect (assign (set_elm_previous_cmd EmptyString)) _ =>
      apply pe_assign_clear; intros; reflexivity
  | |- prev_effect (assign _) _ => apply pe_assign_keep; intros; reflexivity
  | |- prev_effect (fun g => elm_writeln (elm_device_identifier g) g) _ =>
      apply pe_at_2
  end.

(** Whether the command [cmd] empties the stored previous command depends
    on its text alone. *)
Lemma elm_dispatch_prev_effect cmd :
  exists b, forall x, prev_effect (elm_dispatch x cmd) b.
Proof.
  eexists. intros x.
  unfold elm_dispatch, cmd_elog, cmd_simu, cmd_wifi, cmd_ota, cmd_st, cmd_at,
    at_cra, at_protocol, clear_pass, clear_block.
  cbv zeta.
  repeat pe_step.
Qed.

(** ** Every command keeps the tables in prefix form *)

Lemma tables_inv_elm_reset g : tables_inv g -> tables_inv (elm_reset g).
Proof.
  intros [Hp Hb]. split.
  - rewrite pass_filter_elm_reset. now apply elm_filter_clear_inv.
  - rewrite block_filter_elm_reset. now apply elm_filter_clear_inv.
Qed.

Lemma keeps_tables_clear_pass : keeps tables_inv clear_pass.
Proof.
  intros g [Hp Hb]. split; [|exact Hb].
  change (table_inv (elm_filter_clear (pass_filter g))).
  now apply elm_filter_clear_inv.
Qed.

Lemma keeps_tables_clear_block : keeps tables_inv clear_block.
Proof.
  intros g [Hp Hb]. split; [exact Hp|].
  change (table_inv (elm_filter_clear (block_filter g))).
  now apply elm_filter_clear_inv.
Qed.

Lemma keeps_tables_st_add_pass cmd c : keeps tables_inv (st_add_pass cmd c).
Proof.
  intros g [Hp Hb]. unfold st_add_pass.
  destruct (st_filter_args c) as [[p m]|];
    [|apply keeps_elm_cmd_err; split; assumption].
  unfold seq, assign. cbn [fst].
  destruct (snd (elm_filter_add (pass_filter g) p m));
    (split; [|exact Hb]);
    change (table_inv (fst (elm_filter_add (pass_filter g) p m)));
    now apply elm_filter_add_inv.
Qed.

Lemma keeps_tables_st_add_block cmd c : keeps tables_inv (st_add_block cmd c).
Proof.
  intros g [Hp Hb]. unfold st_add_block.
  destruct (st_filter_args c) as [[p m]|];
    [|apply keeps_elm_cmd_err; split; assumption].
  unfold seq, assign. cbn [fst].
  destruct (snd (elm_filter_add (block_filter g) p m));
    (split; [exact Hp|]);
    change (table_inv (fst (elm_filter_add (block_filter g) p m)));
    now apply elm_filter_add_inv.
Qed.

Lemma keeps_tables_at_mr c : keeps tables_inv (at_mr c).
Proof.
  intros g H. unfold at_mr, seq, elm_monitor_start, assign. cbn [fst].
  match goal with |- context [if ?b then _ else _] => destruct b end; exact H.
Qed.

Lemma keeps_tables_at_mt c : keeps tables_inv (at_mt c).
Proof.
  intros g H. unfold at_mt, seq, elm_monitor_start, assign. cbn [fst].
  match goal with |- context [if ?b then _ else _] => destruct b end; exact H.
Qed.

Ltac keeps_tables_step :=
  lazymatch goal with
  | |- keeps _ (if _ then _ else _) => apply keeps_if
  | |- keeps _ (_ ;; _) => apply keeps_seq
  | |- keeps _ skip => apply keeps_skip
  | |- keeps _ (emit _) => apply keeps_emit
  | |- keeps _ (printf _) => apply keeps_printf
  | |- keeps _ elm_newline => apply keeps_elm_newline
  | |- keeps _ (elm_writeln _) => apply keeps_elm_writeln
  | |- keeps _ elm_write_ok => apply keeps_elm_write_ok
  | |- keeps _ (elm_write_ok_error _) => apply keeps_elm_write_ok_error
  | |- keeps _ (elm_cmd_err _) => apply keeps_elm_cmd_err
  | |- keeps _ at_describe_protocol => apply keeps_at_describe_protocol
  | |- keeps _ at_describe_protocol_num => apply keeps_at_describe_protocol_num
  | |- keeps _ elm_monitor_start =>
      apply keeps_elm_monitor_start; intros ? H; exact H
  | |- keeps _ clear_pass => apply keeps_tables_clear_pass
  | |- keeps _ clear_block => apply keeps_tables_clear_block
  | |- keeps _ (st_add_pass _ _) => apply keeps_tables_st_add_pass
  | |- keeps _ (st_add_block _ _) => apply keeps_tables_st_add_block
  | |- keeps _ (at_mr _) => apply keeps_tables_at_mr
  | |- keeps _ (at_mt _) => apply keeps_tables_at_mt
  | |- keeps _ (assign elm_reset) =>
      apply keeps_assign; exact tables_inv_elm_reset
  | |- keeps _ (assign _) => apply keeps_assign; intros ? H; exact H
  | |- keeps _ (fun g => elm_writeln (elm_device_identifier g) g) =>
      apply keeps_at_2
  end.

Lemma elm_dispatch_tables_inv x cmd : keeps tables_inv (elm_dispatch x cmd).
Proof.
  unfold elm_dispatch, cmd_elog, cmd_simu, cmd_wifi, cmd_ota, cmd_st, cmd_at,
    at_cra, at_protocol.
  cbv zeta.
  repeat keeps_tables_step.
Qed.

Lemma elm_do_cmd_tables_inv x cmd : keeps tables_inv (elm_do_cmd x cmd).
Proof.
  intros g H. unfold elm_do_cmd.
  destruct (str_is_empty cmd); apply elm_dispatch_tables_inv; exact H.
Qed.

Lemma tables_inv_elm_init tag : tables_inv (elm_init tag).
Proof.
  apply tables_inv_elm_reset.
  split; apply table_invb_sound; vm_compute; reflexivity.
Qed.

Lemma session_step_tables_inv g s :
  tables_inv g -> tables_inv (session_step_run g s).
Proof.
  intros H. destruct s as [x line|buf_ok start ticks|x]; cbn [session_step_run].
  - now apply elm_do_cmd_tables_inv.
  - unfold elm_monitor_task. destruct buf_ok; cbn [negb]; [|exact H].
    destruct (snd (elm_monitor_loop _ _ ticks)); exact H.
  - unfold elm_monitor_stop. destruct (elm_monitor g); cbn [negb]; [|exact H].
    cbn [elm_monitor_task_run set_elm_monitor].
    destruct (elm_monitor_task_run g); [destruct (monitor_wait x)|]; exact H.
Qed.

Lemma session_tables_inv tag steps : tables_inv (elm_session tag steps).
Proof.
  unfold elm_session.
  pose proof (tables_inv_elm_init tag) as H.
  revert H. generalize (elm_init tag).
  induction steps as [|s steps IH]; intros g H; cbn [fold_left]; auto.
  apply IH. now apply session_step_tables_inv.
Qed.

(** C10.  In a session whose pass and block tables have their occupied
    slots (mask not zero) in a prefix of the 100 slots:
    - the rules the filter test and the clear operation visit, scanning up
      to the first free slot, are exactly the occupied slots of the table:
      [elm_filter_test] accepts an identifier exactly when it is not 0,
      the AT rule matches it, the pass table has no occupied slot or one
      that matches it, and no occupied slot of the block table matches
      it; [elm_filter_clear] zeroes every occupied slot and no other;
    - adding a rule writes it into the lowest free slot, or finds the
      table full and changes nothing, and the table stays in prefix form;
    - clearing zeroes the slots below the first free one and no other, and
      the table stays in prefix form;
    - the session reset and every dispatched command keep both tables in
      prefix form.
    The tables of a session are in prefix form from its start on, at
    every step. *)
Theorem filter_tables_prefix_invariant (g : elm_globals_t)
  (Hinv : tables_inv g) :
  let table_ok f :=
    stored_rules f = List.filter occupied f /\
    (forall p m,
       table_inv (fst (elm_filter_add f p m)) /\
       ((exists k, lowest_free f k /\
                   elm_filter_add f p m = (set_slot f k (mk_filter p m), true))
        \/ ((forall i, (i < ELM_ST_FILTER_LEN)%nat -> mask (slot f i) <> 0) /\
            elm_filter_add f p m = (f, false)))) /\
    table_inv (elm_filter_clear f) /\
    (exists k, (k <= ELM_ST_FILTER_LEN)%nat /\
       (forall i, (i < k)%nat -> mask (slot f i) <> 0) /\
       ((k < ELM_ST_FILTER_LEN)%nat -> mask (slot f k) = 0) /\
       forall j, slot (elm_filter_clear f) j
                 = if (j <? k)%nat then mk_filter 0 0 else slot f j) /\
    elm_filter_clear f
    = map (fun r => if occupied r then mk_filter 0 0 else r) f in
  table_ok (pass_filter g) /\
  table_ok (block_filter g) /\
  tables_inv (elm_reset g) /\
  (forall x cmd, tables_inv (fst (elm_do_cmd x cmd g))) /\
  (forall tag steps, tables_inv (elm_session tag steps)) /\
  (forall id us,
     elm_filter_test g id us = true <->
     id <> 0 /\ rule_matches id (elm_filter g) /\
     (List.filter occupied (pass_filter g) = [] \/
      Exists (rule_matches id) (List.filter occupied (pass_filter g))) /\
     ~ Exists (rule_matches id) (List.filter occupied (block_filter g))).
Proof.
  assert (Hone : forall f, table_inv f ->
    stored_rules f = List.filter occupied f /\
    (forall p m,
       table_inv (fst (elm_filter_add f p m)) /\
       ((exists k, lowest_free f k /\
                   elm_filter_add f p m = (set_slot f k (mk_filter p m), true))
        \/ ((forall i, (i < ELM_ST_FILTER_LEN)%nat -> mask (slot f i) <> 0) /\
            elm_filter_add f p m = (f, false)))) /\
    table_inv (elm_filter_clear f) /\
    (exists k, (k <= ELM_ST_FILTER_LEN)%nat /\
       (forall i, (i < k)%nat -> mask (slot f i) <> 0) /\
       ((k < ELM_ST_FILTER_LEN)%nat -> mask (slot f k) = 0) /\
       forall j, slot (elm_filter_clear f) j
                 = if (j <? k)%nat then mk_filter 0 0 else slot f j) /\
    elm_filter_clear f
    = map (fun r => if occupied r then mk_filter 0 0 else r) f).
  { intros f Hf. split; [now apply stored_rules_filter|].
    split.
    { intros p m. split; [now apply elm_filter_add_inv|].
      apply elm_filter_add_lowest_free. }
    split; [now apply elm_filter_clear_inv|].
    split; [|now apply elm_filter_clear_occupied].
    destruct (elm_filter_clear_first_free f) as (k & Hk & Ho & Hf' & _ & Hs).
    exists k. auto. }
  destruct Hinv as [Hp Hb]. cbv zeta.
  split; [apply Hone, Hp|]. split; [apply Hone, Hb|].
  split; [apply tables_inv_elm_reset; split; assumption|].
  split; [intros x cmd; apply elm_do_cmd_tables_inv; split; assumption|].
  split; [exact session_tables_inv|].
  intros id us.
  rewrite <- (stored_rules_filter Hp), <- (stored_rules_filter Hb).
  apply elm_filter_test_iff.
Qed.

(** The invariant holds when the session starts, and after a rule has
    been added; with the pass rule 7E8/7FF in place the filter test
    accepts 0x7E8 and rejects 0x7E9. *)
Lemma filter_tables_prefix_invariant_witness :
  let g := fst (elm_do_cmd extern_ok "STFPA7E8,7FF" (elm_init "elm-bt")) in
  tables_inv g /\
  stored_rules (pass_filter g) = List.filter occupied (pass_filter g) /\
  tables_inv (elm_reset g) /\
  (elm_filter_test g 2024 0 = true <->
   2024 <> 0 /\ rule_matches 2024 (elm_filter g) /\
   (List.filter occupied (pass_filter g) = [] \/
    Exists (rule_matches 2024) (List.filter occupied (pass_filter g))) /\
   ~ Exists (rule_matches 2024) (List.filter occupied (block_filter g))) /\
  elm_filter_test g 2024 0 = true /\
  elm_filter_test g 2025 0 = false.
Proof.
  cbv zeta.
  assert (H : tables_inv
                (fst (elm_do_cmd extern_ok "STFPA7E8,7FF" (elm_init "elm-bt")))).
  { split; apply table_invb_sound; vm_compute; reflexivity. }
  split; [exact H|].
  pose proof (filter_tables_prefix_invariant H) as T. cbv zeta in T.
  destruct T as ((Hs & _) & _ & Hr & _ & _ & Ht).
  split; [exact Hs|]. split; [exact Hr|]. split; [apply Ht|].
  split; vm_compute; reflexivity.
Defined.

(** ** Reset *)

Lemma elm_reset_defaults g : session_defaults (elm_reset g).
Proof.
  unfold session_defaults.
  repeat (split; [reflexivity|]).
  split.
  - rewrite pass_filter_elm_reset. apply elm_filter_clear_stored.
  - rewrite block_filter_elm_reset. apply elm_filter_clear_stored.
Qed.

Lemma elm_reset_device_identifier g :
  elm_device_identifier (elm_reset g) = elm_device_identifier g.
Proof. reflexivity. Qed.

(** *** Spellings of a command *)

Ltac ascii_cases a :=
  destruct a as [[] [] [] [] [] [] [] []]; vm_compute;
  intros; try discriminate; auto.

Lemma tolower_is_a c : Ascii.eqb (tolower c) "a" = true -> c = "A"%char \/ c = "a"%char.
Proof. ascii_cases c. Qed.

Lemma tolower_is_t c : Ascii.eqb (tolower c) "t" = true -> c = "T"%char \/ c = "t"%char.
Proof. ascii_cases c. Qed.

Lemma tolower_is_z c : Ascii.eqb (tolower c) "z" = true -> c = "Z"%char \/ c = "z"%char.
Proof. ascii_cases c. Qed.

Lemma tolower_is_w c : Ascii.eqb (tolower c) "w" = true -> c = "W"%char \/ c = "w"%char.
Proof. ascii_cases c. Qed.

Lemma tolower_is_s c : Ascii.eqb (tolower c) "s" = true -> c = "S"%char \/ c = "s"%char.
Proof. ascii_cases c. Qed.

Lemma tolower_is_d c : Ascii.eqb (tolower c) "d" = true -> c = "D"%char \/ c = "d"%char.
Proof. ascii_cases c. Qed.

Lemma tolower_is_f c :
  Ascii.eqb (tolower c) "f" = true -> c = "F"%char \/ c = "f"%char.
Proof. ascii_cases c. Qed.

Lemma tolower_is_c c :
  Ascii.eqb (tolower c) "c" = true -> c = "C"%char \/ c = "c"%char.
Proof. ascii_cases c. Qed.

Lemma tolower_is_r c :
  Ascii.eqb (tolower c) "r" = true -> c = "R"%char \/ c = "r"%char.
Proof. ascii_cases c. Qed.

Lemma tolower_is_p c :
  Ascii.eqb (tolower c) "p" = true -> c = "P"%char \/ c = "p"%char.
Proof. ascii_cases c. Qed.

Lemma tolower_is_b c :
  Ascii.eqb (tolower c) "b" = true -> c = "B"%char \/ c = "b"%char.
Proof. ascii_cases c. Qed.

Lemma strcasecmp_nil_r s : strcasecmp s EmptyString = true -> s = EmptyString.
Proof. destruct s; [reflexivity | discriminate]. Qed.

(** Splits [H : strcasecmp s lit = true], for a literal [lit], into the
    possible spellings of [s]. *)
Ltac spell_letter H :=
  match type of H with
  | strcasecmp ?s (String _ _) = true =>
      destruct s; cbn [strcasecmp] in H; [discriminate H|];
      let Hc := fresh "Hc" in
      apply andb_true_iff in H; destruct H as [Hc H]
  end.

Ltac spell H :=
  repeat spell_letter H;
  apply strcasecmp_nil_r in H; subst;
  repeat match goal with
         | Hc : Ascii.eqb (tolower ?c) _ = true |- _ =>
             first [ apply tolower_is_a in Hc | apply tolower_is_t in Hc
                   | apply tolower_is_z in Hc | apply tolower_is_w in Hc
                   | apply tolower_is_s in Hc | apply tolower_is_d in Hc ];
             destruct Hc; subst c
         end.

Lemma is_cmd_not_empty line name :
  is_cmd line name -> name <> EmptyString -> str_is_empty line = false.
Proof.
  unfold is_cmd. destruct line; cbn; [|reflexivity].
  destruct name; [congruence | discriminate].
Qed.

Lemma elm_dispatch_skip_spaces x line :
  elm_dispatch x line = elm_dispatch x (skip_spaces line).
Proof.
  assert (H : skip_spaces (skip_spaces line) = skip_spaces line).
  { induction line as [|a r IH]; cbn; [reflexivity|].
    destruct (Ascii.eqb a " ") eqn:E; [exact IH|]. cbn. now rewrite E. }
  unfold elm_dispatch. cbv zeta. now rewrite H.
Qed.

Lemma ELM_NEWLINE_elm_reset g : ELM_NEWLINE (elm_reset g) = NEWLINE_CRLF.
Proof. reflexivity. Qed.

Lemma reset_then_version ticks g :
  (assign elm_reset ;; emit (Call_vTaskDelay ticks) ;;
   elm_writeln (Some ELM_VERSION_STRING)) g
  = (elm_reset g,
     [Call_vTaskDelay ticks; Printf ELM_VERSION_STRING; Printf NEWLINE_CRLF]).
Proof.
  unfold seq, assign, emit, elm_writeln, printf, elm_newline, seq, printf, emit.
  cbn [fst snd app]. now rewrite ELM_NEWLINE_elm_reset.
Qed.

Lemma reset_then_ok g :
  (assign elm_reset ;; elm_write_ok) g
  = (elm_reset g, [Printf ELM_OK_PROMPT; Printf NEWLINE_CRLF]).
Proof.
  unfold seq, assign, elm_write_ok, printf, elm_newline, seq, printf, emit.
  cbn [fst snd app]. now rewrite ELM_NEWLINE_elm_reset.
Qed.

Lemma elm_dispatch_ATZ x line g :
  is_cmd line "ATZ" ->
  elm_dispatch x line g
  = (elm_reset g,
     [Call_vTaskDelay 100; Printf ELM_VERSION_STRING; Printf NEWLINE_CRLF]).
Proof.
  unfold is_cmd. rewrite elm_dispatch_skip_spaces, <- reset_then_version.
  generalize (skip_spaces line). intros s H.
  spell H; reflexivity.
Qed.

Lemma elm_dispatch_ATWS x line g :
  is_cmd line "ATWS" ->
  elm_dispatch x line g
  = (elm_reset g,
     [Call_vTaskDelay 50; Printf ELM_VERSION_STRING; Printf NEWLINE_CRLF]).
Proof.
  unfold is_cmd. rewrite elm_dispatch_skip_spaces, <- reset_then_version.
  generalize (skip_spaces line). intros s H.
  spell H; reflexivity.
Qed.

Lemma elm_dispatch_ATD x line g :
  is_cmd line "ATD" ->
  elm_dispatch x line g
  = (elm_reset g, [Printf ELM_OK_PROMPT; Printf NEWLINE_CRLF]).
Proof.
  unfold is_cmd. rewrite elm_dispatch_skip_spaces, <- reset_then_ok.
  generalize (skip_spaces line). intros s H.
  spell H; reflexivity.
Qed.

Lemma elm_do_cmd_not_empty x line g :
  str_is_empty line = false ->
  elm_do_cmd x line g = elm_dispatch x line (set_elm_previous_cmd line g).
Proof. unfold elm_do_cmd. now intros ->. Qed.

Lemma elm_do_cmd_reset_state x line name g ev :
  is_cmd line name -> name <> EmptyString ->
  (forall g0, elm_dispatch x line g0 = (elm_reset g0, ev)) ->
  elm_do_cmd x line g = (elm_reset (set_elm_previous_cmd line g), ev).
Proof.
  intros H Hn Hd.
  rewrite elm_do_cmd_not_empty by (apply is_cmd_not_empty with name; auto).
  apply Hd.
Qed.

(** C3, as the code has it.  After a dispatched ATZ (in any letter case,
    leading spaces allowed) every setting of the session has its default
    value: echo, linefeed, headers and spaces on, DLC display off, timeout
    5000 ms, memory on, adaptive timing 1, CAN auto-format off, CAN flow
    control and silent mode on, long messages off, protocol '0' with the
    auto flag, no previous command, monitor off, the AT rule zero and both
    tables empty.  The device identifier is not among them: the reset
    leaves it as it was. *)
Theorem atz_restores_settings (x : extern) (line : string) (g : elm_globals_t)
  (Hcmd : is_cmd line "ATZ") :
  let g' := fst (elm_do_cmd x line g) in
  session_defaults g' /\
  elm_device_identifier g' = elm_device_identifier g.
Proof.
  cbv zeta.
  rewrite (@elm_do_cmd_reset_state x line "ATZ" g
             [Call_vTaskDelay 100; Printf ELM_VERSION_STRING; Printf NEWLINE_CRLF]);
    auto; [| discriminate | intros; now apply elm_dispatch_ATZ].
  cbn [fst]. split.
  - apply elm_reset_defaults.
  - rewrite elm_reset_device_identifier. reflexivity.
Qed.

Lemma atz_restores_settings_witness :
  let g := fst (elm_do_cmd extern_ok "AT@3" (elm_init "elm-bt")) in
  is_cmd " atz" "ATZ" /\
  session_defaults (fst (elm_do_cmd extern_ok " atz" g)) /\
  elm_device_identifier (fst (elm_do_cmd extern_ok " atz" g))
  = elm_device_identifier g.
Proof.
  cbv zeta. split; [reflexivity|].
  apply (@atz_restores_settings extern_ok " atz"). reflexivity.
Defined.

(** The device identifier is NULL when a session starts; AT@3 stores a
    string in it, and ATZ does not take it back to NULL (nor to the device
    string of AT@1). *)
Lemma atz_device_identifier_counterexample :
  let g0 := elm_init "elm-bt" in
  let g1 := fst (elm_do_cmd extern_ok "AT@3" g0) in
  let g2 := fst (elm_do_cmd extern_ok "ATZ" g1) in
  elm_device_identifier g0 = None /\
  elm_device_identifier g2 = Some EmptyString /\
  elm_device_identifier g2 <> elm_device_identifier g0 /\
  elm_device_identifier g2 <> Some ELM_DEVICE_STRING.
Proof.
  cbv zeta. repeat split; try (vm_compute; reflexivity);
    vm_compute; discriminate.
Qed.

(** C4, as the code has it.  Each of ATZ, ATWS and ATD stores the line as
    previous command and then runs [elm_reset], so the session has its
    default settings afterwards.  ATZ and ATWS then wait and print the
    version string and the newline; ATD prints OK and the newline
    instead. *)
Theorem reset_commands_reply (x : extern) (line : string) (g : elm_globals_t) :
  (is_cmd line "ATZ" ->
   elm_do_cmd x line g
   = (elm_reset (set_elm_previous_cmd line g),
      [Call_vTaskDelay 100; Printf ELM_VERSION_STRING; Printf NEWLINE_CRLF])) /\
  (is_cmd line "ATWS" ->
   elm_do_cmd x line g
   = (elm_reset (set_elm_previous_cmd line g),
      [Call_vTaskDelay 50; Printf ELM_VERSION_STRING; Printf NEWLINE_CRLF])) /\
  (is_cmd line "ATD" ->
   elm_do_cmd x line g
   = (elm_reset (set_elm_previous_cmd line g),
      [Printf ELM_OK_PROMPT; Printf NEWLINE_CRLF])) /\
  session_defaults (elm_reset (set_elm_previous_cmd line g)).
Proof.
  split; [|split; [|split]].
  - intros H. apply elm_do_cmd_reset_state with "ATZ"; auto; [discriminate|].
    intros; now apply elm_dispatch_ATZ.
  - intros H. apply elm_do_cmd_reset_state with "ATWS"; auto; [discriminate|].
    intros; now apply elm_dispatch_ATWS.
  - intros H. apply elm_do_cmd_reset_state with "ATD"; auto; [discriminate|].
    intros; now apply elm_dispatch_ATD.
  - apply elm_reset_defaults.
Qed.

Lemma reset_commands_reply_witness :
  let g := elm_init "elm-bt" in
  output (snd (elm_do_cmd extern_ok "ATZ" g))
  = (ELM_VERSION_STRING ++ NEWLINE_CRLF)%string /\
  output (snd (elm_do_cmd extern_ok "atws" g))
  = (ELM_VERSION_STRING ++ NEWLINE_CRLF)%string /\
  output (snd (elm_do_cmd extern_ok "ATD" g))
  = (ELM_OK_PROMPT ++ NEWLINE_CRLF)%string.
Proof.
  cbv zeta.
  destruct (reset_commands_reply extern_ok "ATZ" (elm_init "elm-bt"))
    as (Hz & _).
  destruct (reset_commands_reply extern_ok "atws" (elm_init "elm-bt"))
    as (_ & Hws & _).
  destruct (reset_commands_reply extern_ok "ATD" (elm_init "elm-bt"))
    as (_ & _ & Hd & _).
  rewrite (Hz eq_refl), (Hws eq_refl), (Hd eq_refl).
  repeat split.
Defined.

(** ATD answers OK: the version string is not printed. *)
Lemma atd_replies_ok_counterexample :
  snd (elm_do_cmd extern_ok "ATD" (elm_init "elm-bt"))
  = [Printf "OK"; Printf NEWLINE_CRLF] /\
  output (snd (elm_do_cmd extern_ok "ATD" (elm_init "elm-bt")))
  <> (ELM_VERSION_STRING ++ NEWLINE_CRLF)%string.
Proof.
  split; [vm_compute; reflexivity | vm_compute; discriminate].
Qed.

(** ** The blank line *)

Lemma set_elm_previous_cmd_same g :
  set_elm_previous_cmd (elm_previous_cmd g) g = g.
Proof. destruct g; reflexivity. Qed.

Lemma str_is_empty_false s : s <> EmptyString -> str_is_empty s = false.
Proof. destruct s; [congruence | reflexivity]. Qed.

(** In any state, a blank line does what the stored command does when it
    is dispatched again: same session structure, same events. *)
Lemma blank_line_same x g :
  elm_previous_cmd g <> EmptyString ->
  elm_do_cmd x EmptyString g = elm_do_cmd x (elm_previous_cmd g) g.
Proof.
  intros H. unfold elm_do_cmd. cbn [str_is_empty].
  rewrite (str_is_empty_false H), set_elm_previous_cmd_same. reflexivity.
Qed.

Lemma blank_line_empty_previous x g :
  elm_previous_cmd g = EmptyString ->
  elm_do_cmd x EmptyString g = (g, [Printf ELM_QUERY_PROMPT; Printf (ELM_NEWLINE g)]).
Proof.
  intros H. unfold elm_do_cmd. cbn [str_is_empty]. rewrite H. reflexivity.
Qed.

(** *** Which commands empty the store *)

Lemma ascii_eqb_trans a b c :
  Ascii.eqb a b = true -> Ascii.eqb a c = true -> Ascii.eqb b c = true.
Proof.
  intros H1 H2. apply Ascii.eqb_eq in H1, H2. subst. apply Ascii.eqb_refl.
Qed.

(** Two keywords that the same text matches agree with each other as far
    as both tests look. *)
Lemma strncasecmp_compat : forall n m a p q,
  strncasecmp a p n = true -> strncasecmp a q m = true ->
  strncasecmp p q (Nat.min n m) = true.
Proof.
  induction n as [|n IH]; intros [|m] a p q H1 H2;
    [destruct p; reflexivity | destruct p; reflexivity
    | destruct p; reflexivity |].
  change (Nat.min (S n) (S m)) with (S (Nat.min n m)).
  destruct a as [|a0 a], p as [|p0 p], q as [|q0 q];
    cbn [strncasecmp] in *; try discriminate; try reflexivity.
  apply andb_true_iff in H1, H2. destruct H1 as [H1 H1'], H2 as [H2 H2'].
  apply andb_true_iff. split.
  - apply (@ascii_eqb_trans _ _ _ H1 H2).
  - apply (IH m a p q H1' H2').
Qed.

Lemma strcasecmp_strncasecmp : forall a p n,
  strcasecmp a p = true -> strncasecmp a p n = true.
Proof.
  induction a as [|a0 a IH]; intros [|p0 p] [|n] H;
    cbn [strcasecmp strncasecmp] in *; try reflexivity; try discriminate.
  apply andb_true_iff in H. destruct H as [H H'].
  rewrite H. cbn [andb]. now apply IH.
Qed.

Lemma strcasecmp_compat a : forall p q,
  strcasecmp a p = true -> strcasecmp a q = true -> strcasecmp p q = true.
Proof.
  induction a as [|a0 a IH]; intros [|p0 p] [|q0 q] H1 H2;
    cbn [strcasecmp] in *; try reflexivity; try discriminate.
  apply andb_true_iff in H1, H2. destruct H1 as [H1 H1'], H2 as [H2 H2'].
  apply andb_true_iff. split.
  - apply (@ascii_eqb_trans _ _ _ H1 H2).
  - apply (IH p q H1' H2').
Qed.

Lemma strcasecmp_strncasecmp_compat a p q m :
  strcasecmp a p = true -> strncasecmp a q m = true ->
  strncasecmp p q m = true.
Proof.
  intros H1 H2.
  pose proof (@strncasecmp_compat _ _ _ _ _
                (@strcasecmp_strncasecmp _ _ m H1) H2) as H.
  now rewrite Nat.min_id in H.
Qed.

Lemma strncasecmp_head a b q n :
  strncasecmp a (String b q) (S n) = true ->
  Ascii.eqb (tolower (deref a)) (tolower b) = true.
Proof.
  destruct a; cbn [strncasecmp deref]; [discriminate|].
  intros H. apply andb_true_iff in H. apply H.
Qed.

Lemma pe_conv a b b' : prev_effect a b -> b = b' -> prev_effect a b'.
Proof. now intros H <-. Qed.

(** Two tests on one text that cannot both succeed. *)
Ltac keyword_clash :=
  repeat match goal with
         | H : is_switch _ _ _ = true |- _ => unfold is_switch in H
         | H : _ && _ = true |- _ =>
             apply andb_true_iff in H; destruct H
         end;
  match goal with
  | H1 : strcasecmp ?a _ = true, H2 : strcasecmp ?a _ = true |- _ =>
      let H := fresh in
      pose proof (@strcasecmp_compat _ _ _ H1 H2) as H;
      vm_compute in H; discriminate H
  | H1 : strcasecmp ?a _ = true, H2 : strncasecmp ?a _ _ = true |- _ =>
      let H := fresh in
      pose proof (@strcasecmp_strncasecmp_compat _ _ _ _ H1 H2) as H;
      vm_compute in H; discriminate H
  | H1 : strncasecmp ?a _ _ = true, H2 : strncasecmp ?a _ _ = true |- _ =>
      let H := fresh in
      pose proof (@strncasecmp_compat _ _ _ _ _ H1 H2) as H;
      vm_compute in H; discriminate H
  | H1 : Ascii.eqb (deref ?a) NUL = true, H2 : strncasecmp ?a _ _ = true |- _ =>
      let H := fresh in
      pose proof (@strncasecmp_head _ _ _ _ H2) as H;
      apply Ascii.eqb_eq in H1; rewrite H1 in H;
      vm_compute in H; discriminate H
  end.

Ltac split_or_true :=
  repeat match goal with
         | H : _ || _ = true |- _ => apply orb_true_iff in H; destruct H
         end.

(** A test still open in the goal fails when its success clashes with
    the test of the branch. *)
Ltac decide_tests :=
  repeat match goal with
         | |- context [strcasecmp ?a ?p] =>
             let E := fresh "E" in
             destruct (strcasecmp a p) eqn:E;
             [exfalso; split_or_true; keyword_clash|]
         | |- context [strncasecmp ?a ?p ?n] =>
             let E := fresh "E" in
             destruct (strncasecmp a p n) eqn:E;
             [exfalso; split_or_true; keyword_clash|]
         end.

Ltac walk_leaf :=
  eapply pe_conv; [solve [repeat pe_step] |];
  cbn [andb orb negb];
  decide_tests;
  cbn [andb orb negb];
  repeat match goal with
         | |- context [if ?c then _ else _] => destruct c
         end;
  try reflexivity.

Ltac walk :=
  lazymatch goal with
  | |- prev_effect (if ?c then _ else _) _ =>
      let E := fresh "E" in destruct c eqn:E; walk
  | |- _ => walk_leaf
  end.

(** The dispatcher empties the stored previous command for the commands
    of [clears_previous] and leaves it alone for every other text. *)
Lemma elm_dispatch_clears x cmd :
  prev_effect (elm_dispatch x cmd) (clears_previous cmd).
Proof.
  unfold elm_dispatch, clears_previous. cbv zeta.
  generalize (skip_spaces cmd). clear cmd. intros s.
  unfold cmd_elog, cmd_simu, cmd_wifi, cmd_ota, cmd_st, cmd_at,
    at_cra, at_protocol, clear_pass, clear_block.
  cbv zeta.
  walk.
Qed.

Lemma elm_do_cmd_stores x line g :
  line <> EmptyString ->
  elm_previous_cmd (fst (elm_do_cmd x line g))
  = if clears_previous line then EmptyString else line.
Proof.
  intros H. unfold elm_do_cmd. rewrite (str_is_empty_false H).
  rewrite (elm_dispatch_clears x line). reflexivity.
Qed.

Lemma elm_do_cmd_blank_keeps x g :
  clears_previous (elm_previous_cmd g) = false ->
  elm_previous_cmd (fst (elm_do_cmd x EmptyString g)) = elm_previous_cmd g.
Proof.
  intros H. unfold elm_do_cmd. cbn [str_is_empty].
  rewrite (elm_dispatch_clears x (elm_previous_cmd g)), H. reflexivity.
Qed.

(** *** Sessions *)

Lemma elm_monitor_task_previous g buf_ok start ticks :
  elm_previous_cmd (fst (fst (elm_monitor_task g buf_ok start ticks)))
  = elm_previous_cmd g.
Proof.
  unfold elm_monitor_task. destruct buf_ok; cbn [negb]; [|reflexivity].
  destruct (snd (elm_monitor_loop _ _ ticks)); reflexivity.
Qed.

Lemma elm_monitor_stop_previous x g :
  elm_previous_cmd (fst (fst (elm_monitor_stop x g))) = elm_previous_cmd g.
Proof.
  unfold elm_monitor_stop. destruct (elm_monitor g); cbn [negb]; [|reflexivity].
  cbn [elm_monitor_task_run set_elm_monitor].
  destruct (elm_monitor_task_run g); [destruct (monitor_wait x)|]; reflexivity.
Qed.

(** The stored previous command after a step, from the stored command
    before it, which is not one of the commands that empty the store. *)
Lemma session_step_previous g s :
  clears_previous (elm_previous_cmd g) = false ->
  elm_previous_cmd (session_step_run g s)
  = last_accepted [s] (elm_previous_cmd g) /\
  clears_previous (elm_previous_cmd (session_step_run g s)) = false.
Proof.
  intros Hg.
  assert (Hp : elm_previous_cmd (session_step_run g s)
               = last_accepted [s] (elm_previous_cmd g)).
  { destruct s as [x line|buf_ok start ticks|x];
      cbn [session_step_run last_accepted].
    - destruct line as [|a line].
      + cbn [str_is_empty]. now apply elm_do_cmd_blank_keeps.
      + cbn [str_is_empty]. apply elm_do_cmd_stores. discriminate.
    - apply elm_monitor_task_previous.
    - apply elm_monitor_stop_previous. }
  split; [exact Hp|]. rewrite Hp.
  destruct s as [x line|buf_ok start ticks|x]; cbn [last_accepted]; auto.
  destruct (str_is_empty line); [exact Hg|].
  destruct (clears_previous line) eqn:E; [reflexivity | exact E].
Qed.

Lemma last_accepted_cons s steps acc :
  last_accepted (s :: steps) acc = last_accepted steps (last_accepted [s] acc).
Proof. destruct s; reflexivity. Qed.

Lemma session_previous steps : forall g,
  clears_previous (elm_previous_cmd g) = false ->
  elm_previous_cmd (fold_left session_step_run steps g)
  = last_accepted steps (elm_previous_cmd g) /\
  clears_previous (elm_previous_cmd (fold_left session_step_run steps g))
  = false.
Proof.
  induction steps as [|s steps IH]; intros g Hg; cbn [fold_left].
  - split; [reflexivity | exact Hg].
  - destruct (@session_step_previous g s Hg) as [Hp Hc].
    destruct (IH _ Hc) as [Hp' Hc'].
    split; [|exact Hc'].
    rewrite Hp', Hp. symmetry. apply last_accepted_cons.
Qed.

(** C6, as the code has it.  In a session, the stored previous command
    is the last line that was dispatched and is not empty, unless that line
    is one of the commands that empty the store (ATD, ATWS, ATZ, WIFI
    STOP, and WIFI STA and WIFI AP with arguments): every line that is not
    empty is stored before it is looked up, these commands empty the
    store, and no other command touches it.
    - When the store is not empty, dispatching the empty line does exactly
      what dispatching the stored line does: the same session structure
      results and the same events, printed output included.
    - When the store is empty, the empty line is answered like an unknown
      command, with the question mark, and changes nothing.
    - In both cases the store is the same after the empty line as before
      it: the empty line is not stored. *)
Theorem blank_line_repeats (tag : string) (steps : list session_step)
  (x : extern) :
  let g := elm_session tag steps in
  let prev := last_accepted steps EmptyString in
  elm_previous_cmd g = prev /\
  (prev <> EmptyString ->
   elm_do_cmd x EmptyString g = elm_do_cmd x prev g) /\
  (prev = EmptyString ->
   elm_do_cmd x EmptyString g
   = (g, [Printf ELM_QUERY_PROMPT; Printf (ELM_NEWLINE g)])) /\
  elm_previous_cmd (fst (elm_do_cmd x EmptyString g)) = elm_previous_cmd g /\
  (forall line, line <> EmptyString ->
     elm_previous_cmd (fst (elm_do_cmd x line g))
     = if clears_previous line then EmptyString else line).
Proof.
  cbv zeta. unfold elm_session.
  assert (H0 : clears_previous (elm_previous_cmd (elm_init tag)) = false)
    by reflexivity.
  destruct (@session_previous steps (elm_init tag) H0) as [Hp Hc].
  change (elm_previous_cmd (elm_init tag)) with EmptyString in Hp.
  set (g := fold_left session_step_run steps (elm_init tag)) in *.
  split; [exact Hp|]. rewrite <- Hp.
  split; [apply blank_line_same|].
  split; [apply blank_line_empty_previous|].
  split; [now apply elm_do_cmd_blank_keeps|].
  intros line H. now apply elm_do_cmd_stores.
Qed.

Lemma blank_line_repeats_witness :
  let steps := [Dispatch extern_ok "STFPA7E8,7FF"; Dispatch extern_ok "ATH0";
                Dispatch extern_ok EmptyString] in
  let g := elm_session "elm-bt" steps in
  elm_previous_cmd g = "ATH0" /\
  elm_do_cmd extern_ok EmptyString g = elm_do_cmd extern_ok "ATH0" g /\
  elm_previous_cmd (fst (elm_do_cmd extern_ok EmptyString g)) = "ATH0" /\
  elm_previous_cmd (fst (elm_do_cmd extern_ok "ATZ" g)) = EmptyString.
Proof.
  cbv zeta.
  pose proof (@blank_line_repeats "elm-bt"
                [Dispatch extern_ok "STFPA7E8,7FF"; Dispatch extern_ok "ATH0";
                 Dispatch extern_ok EmptyString]
                extern_ok) as T.
  cbv zeta in T.
  change (last_accepted
            [Dispatch extern_ok "STFPA7E8,7FF"; Dispatch extern_ok "ATH0";
             Dispatch extern_ok EmptyString] EmptyString)
    with "ATH0" in T.
  destruct T as (Hp & Hsame & _ & Hkeep & Hst).
  split; [exact Hp|].
  split; [apply Hsame; discriminate|].
  split; [rewrite Hkeep; exact Hp|].
  apply (Hst "ATZ"). discriminate.
Defined.

(** After ATZ, and after WIFI STOP, the store is empty: the blank line
    that follows does not run the command again, it is answered with the
    question mark. *)
Lemma blank_line_after_reset_counterexample :
  let g := elm_session "elm-bt" [Dispatch extern_ok "ATI"; Dispatch extern_ok "ATZ"] in
  let h := elm_session "elm-bt" [Dispatch extern_ok "ATI"; Dispatch extern_ok "WIFI STOP"] in
  output (snd (elm_do_cmd extern_ok "ATZ" g))
  = (ELM_VERSION_STRING ++ NEWLINE_CRLF)%string /\
  output (snd (elm_do_cmd extern_ok EmptyString g))
  = (ELM_QUERY_PROMPT ++ NEWLINE_CRLF)%string /\
  snd (elm_do_cmd extern_ok "WIFI STOP" h)
  = [Call_wifi_stop; Printf ELM_OK_PROMPT; Printf NEWLINE_CRLF] /\
  snd (elm_do_cmd extern_ok EmptyString h)
  = [Printf ELM_QUERY_PROMPT; Printf NEWLINE_CRLF].
Proof.
  cbv zeta. repeat split; vm_compute; reflexivity.
Qed.

(** ** The rate limiter *)

Lemma skipn_nth_cons (A : Type) (d : A) : forall (l : list A) (i : nat),
  (i < List.length l)%nat -> skipn i l = nth i l d :: skipn (S i) l.
Proof.
  induction l as [|x l IH]; intros [|i] H; cbn in *; try lia; auto.
  apply IH. lia.
Qed.

Lemma index_of_some id : forall l k,
  index_of id l = Some k -> (k < List.length l)%nat /\ nth k l 0 = id.
Proof.
  induction l as [|x l IH]; intros k H; cbn in *; [discriminate|].
  destruct (Z.eqb_spec id x) as [->|Hne].
  - injection H as <-. split; [lia | reflexivity].
  - destruct (index_of id l) as [j|]; [|discriminate].
    injection H as <-. destruct (IH j eq_refl). split; [lia | assumption].
Qed.

Lemma index_of_none id : forall l, index_of id l = None <-> ~ In id l.
Proof.
  induction l as [|x l IH]; cbn; [tauto|].
  destruct (Z.eqb_spec id x) as [->|Hne].
  - split; [discriminate | intros H; elim H; auto].
  - destruct (index_of id l) as [j|]; cbn.
    + split; [discriminate|]. intros H. exfalso.
      destruct (in_dec Z.eq_dec id l) as [Hin|Hin].
      * apply H. now right.
      * apply IH in Hin. discriminate.
    + split; auto. intros _ [H|H]; [congruence|]. now apply IH.
Qed.

(** The loop of [_can_filter_id] finds the first entry of the allow-list
    that equals [id], at or after its starting index, and decides there. *)
Lemma _can_filter_id_loop_char id ts last : forall n i,
  (i + n = can_id_count)%nat ->
  _can_filter_id_loop n i id ts last
  = match index_of id (skipn i can_id) with
    | Some k =>
        if u32 (ts - nth (i + k) last 0) >=? can_id_delay_us
        then (true, array_set last (i + k) ts)
        else (false, last)
    | None => (false, last)
    end.
Proof.
  induction n as [|n IH]; intros i Hi; cbn [_can_filter_id_loop].
  - rewrite skipn_all2 by (fold can_id_count; lia). reflexivity.
  - rewrite (@skipn_nth_cons Z 0 can_id i) by (fold can_id_count; lia).
    cbn [index_of].
    destruct (Z.eqb_spec id (nth i can_id 0)) as [E|E]; cbn [negb].
    + rewrite Nat.add_0_r. reflexivity.
    + rewrite IH by lia.
      destruct (index_of id (skipn (S i) can_id)) as [k|]; cbn [option_map];
        [|reflexivity].
      replace (i + S k)%nat with (S i + k)%nat by lia. reflexivity.
Qed.

Lemma _can_filter_id_char id ts last :
  _can_filter_id id ts last
  = match index_of id can_id with
    | Some k =>
        if u32 (ts - nth k last 0) >=? can_id_delay_us
        then (true, array_set last k ts)
        else (false, last)
    | None => (false, last)
    end.
Proof.
  unfold _can_filter_id.
  rewrite _can_filter_id_loop_char by reflexivity.
  reflexivity.
Qed.

Lemma u32_sub_u32_l a b : u32 (u32 a - b) = u32 (a - b).
Proof. unfold u32. apply Zminus_mod_idemp_l. Qed.

Lemma u32_small a : 0 <= a < 2 ^ 32 -> u32 a = a.
Proof. unfold u32. apply Z.mod_small. Qed.

Lemma last_forwarded_set last id k ts :
  index_of id can_id = Some k -> (k < List.length last)%nat ->
  last_forwarded (array_set last k ts) id = ts.
Proof.
  intros E Hk. unfold last_forwarded. rewrite E.
  now apply nth_array_set_same.
Qed.

Lemma last_forwarded_set_other last id id' k ts :
  index_of id can_id = Some k -> id' <> id ->
  last_forwarded (array_set last k ts) id' = last_forwarded last id'.
Proof.
  intros E Hne. unfold last_forwarded.
  destruct (index_of id' can_id) as [k'|] eqn:E'; [|reflexivity].
  apply nth_array_set_other. intros ->.
  apply index_of_some in E. apply index_of_some in E'.
  destruct E as [_ E], E' as [_ E']. congruence.
Qed.

Lemma can_state_eta st :
  mk_can_state (can_rx_ringbuf st) (can_id_last_us st) = st.
Proof. destruct st; reflexivity. Qed.

(** C2, as the code has it.  Elapsed time is the 32 bit difference between
    the frame's timer value, cut to 32 bits, and the identifier's entry of
    [can_id_last_us] (all entries are 0 after [can_init]).  A received
    frame is handed to the subscribers exactly when its identifier is in
    the allow-list and that difference is at least [1000000 / 11 = 90909]
    microseconds.  When it is, the entry of the identifier becomes the
    frame's 32 bit timer value, the other entries stay, and the frame
    goes to [_can_raise]; when it is not, nothing changes.  Hence, once a
    frame of an allow-listed identifier has been forwarded at time [ts], a
    frame of that identifier at time [ts + delta], [0 <= delta < 2^32],
    is forwarded exactly when [delta >= 90909]; and a frame whose
    identifier is not in the allow-list is never forwarded. *)
Theorem can_rate_limit (st : can_state) (rx_msg : can_message_t) (ts : Z)
  (Hwf : List.length (can_id_last_us st) = can_id_count) :
  let id := identifier rx_msg in
  let r := can_task_receive rx_msg ts st in
  can_id_delay_us = 90909 /\
  (fst r = true <->
     In id can_id /\
     can_id_delay_us <= u32 (ts - last_forwarded (can_id_last_us st) id)) /\
  (fst r = true ->
     last_forwarded (can_id_last_us (snd r)) id = u32 ts /\
     (forall id', id' <> id ->
        last_forwarded (can_id_last_us (snd r)) id'
        = last_forwarded (can_id_last_us st) id') /\
     List.length (can_id_last_us (snd r)) = can_id_count /\
     can_rx_ringbuf (snd r)
     = _can_raise (mk_can_message_timestamp rx_msg ts) (can_rx_ringbuf st)) /\
  (fst r = false -> snd r = st) /\
  (fst r = true ->
     forall (rx_msg' : can_message_t) (delta : Z),
       identifier rx_msg' = id -> 0 <= delta < 2 ^ 32 ->
       (fst (can_task_receive rx_msg' (ts + delta) (snd r)) = true
        <-> can_id_delay_us <= delta)) /\
  (~ In id can_id -> fst r = false).
Proof.
  cbv zeta. unfold can_task_receive. rewrite _can_filter_id_char.
  split; [reflexivity|].
  destruct (index_of (identifier rx_msg) can_id) as [k|] eqn:E.
  2:{ (* not in the allow-list *)
      cbn [fst snd]. rewrite can_state_eta.
      apply index_of_none in E.
      split; [split; [discriminate | tauto]|].
      split; [discriminate|]. split; [reflexivity|].
      split; [discriminate | reflexivity]. }
  pose proof (index_of_some _ _ E) as [Hk Hnth].
  fold can_id_count in Hk. rewrite <- Hwf in Hk.
  assert (Hin : In (identifier rx_msg) can_id).
  { destruct (in_dec Z.eq_dec (identifier rx_msg) can_id) as [|n]; auto.
    apply index_of_none in n. congruence. }
  assert (Hel : last_forwarded (can_id_last_us st) (identifier rx_msg)
                = nth k (can_id_last_us st) 0).
  { unfold last_forwarded. now rewrite E. }
  rewrite Hel, u32_sub_u32_l.
  destruct (Z.geb_spec (u32 (ts - nth k (can_id_last_us st) 0)) can_id_delay_us)
    as [Hge|Hlt]; cbn [fst snd can_id_last_us can_rx_ringbuf].
  - (* forwarded *)
    split; [split; [intros _; split; [assumption | lia] | reflexivity]|].
    split.
    { intros _. split; [now apply last_forwarded_set|].
      split; [intros id' Hne; now apply last_forwarded_set_other with (identifier rx_msg)|].
      split; [rewrite array_set_length; exact Hwf | reflexivity]. }
    split; [discriminate|].
    split; [|intros Hn; contradiction].
    intros _ rx_msg' delta Hid Hd.
    rewrite _can_filter_id_char, Hid, E.
    rewrite nth_array_set_same by assumption.
    rewrite u32_sub_u32_l.
    replace (ts + delta - u32 ts) with (delta + (ts - u32 ts)) by lia.
    assert (Hu : u32 (delta + (ts - u32 ts)) = delta).
    { unfold u32. rewrite (Z.div_mod ts (2 ^ 32)) at 1 by lia.
      replace (delta + (2 ^ 32 * (ts / 2 ^ 32) + ts mod 2 ^ 32 - ts mod 2 ^ 32))
        with (delta + (ts / 2 ^ 32) * 2 ^ 32) by lia.
      rewrite Z.mod_add by lia. now apply Z.mod_small. }
    rewrite Hu.
    destruct (Z.geb_spec delta can_id_delay_us); cbn [fst];
      split; intros; try lia; try discriminate; reflexivity.
  - (* rate limited *)
    rewrite can_state_eta.
    split; [split; [discriminate | intros [_ H]; lia]|].
    split; [discriminate|]. split; [reflexivity|].
    split; [discriminate | intros Hn; contradiction].
Qed.


Lemma index_of_in id l k : index_of id l = Some k -> In id l.
Proof.
  intros H. destruct (in_dec Z.eq_dec id l) as [|n]; auto.
  apply index_of_none in n. congruence.
Qed.

Lemma can_rate_limit_witness :
  let m := mk_can_message 306 8 [64; 156; 226; 255; 0; 0; 255; 15] in
  List.length (can_id_last_us can_state_init) = can_id_count /\
  can_id_delay_us = 90909 /\
  fst (can_task_receive m 200000 can_state_init) = true /\
  last_forwarded
    (can_id_last_us (snd (can_task_receive m 200000 can_state_init))) 306
  = 200000.
Proof.
  cbv zeta.
  assert (Hwf : List.length (can_id_last_us can_state_init) = can_id_count)
    by reflexivity.
  pose proof (@can_rate_limit can_state_init
                (mk_can_message 306 8 [64; 156; 226; 255; 0; 0; 255; 15])
                200000 Hwf) as T.
  cbv zeta in T. destruct T as (Hd & Hiff & Hupd & _).
  assert (Hfwd : fst (can_task_receive
                        (mk_can_message 306 8 [64; 156; 226; 255; 0; 0; 255; 15])
                        200000 can_state_init) = true).
  { apply Hiff. split.
    - apply index_of_in with 10%nat. vm_compute. reflexivity.
    - vm_compute. discriminate. }
  split; [exact Hwf|]. split; [exact Hd|]. split; [exact Hfwd|].
  destruct (Hupd Hfwd) as (Hl & _). exact Hl.
Defined.

(** Two frames of identifier 0x132 whose distance, 100 ms, exceeds the
    minimum interval are not both forwarded when the first one arrives
    50 ms after the 32 bit timer value has wrapped to 0 and no frame of the
    identifier was forwarded before: the entry still holds 0 and the first
    frame is dropped.  And a frame that arrives [2^32 + 10] microseconds
    after a forwarded one is dropped, although far more than the minimum
    interval has passed. *)
Lemma can_two_frames_counterexample :
  let m := mk_can_message 306 8 [64; 156; 226; 255; 0; 0; 255; 15] in
  let t := 2 ^ 32 + 50000 in
  let delta := 100000 in
  let r1 := can_task_receive m t can_state_init in
  let r2 := can_task_receive m (t + delta) (snd r1) in
  let q1 := can_task_receive m 100000 can_state_init in
  let q2 := can_task_receive m (100000 + (2 ^ 32 + 10)) (snd q1) in
  In 306 can_id /\
  can_id_delay_us <= delta /\
  fst r1 = false /\ fst r2 = true /\
  fst q1 = true /\ fst q2 = false.
Proof.
  cbv zeta. split.
  { apply index_of_in with 10%nat. vm_compute. reflexivity. }
  split; [vm_compute; discriminate|].
  repeat split; vm_compute; reflexivity.
Qed.

(** ** The transport *)

Lemma set_spp_tx_buffer_same st tx :
  spp_tx_buffer st = Some tx -> set_spp_tx_buffer (Some tx) st = st.
Proof. destruct st; cbn; intros ->; reflexivity. Qed.

(** A drain step of an open connection takes a chunk of at most
    [BT_SPP_DATA_MAX_SIZE] bytes from the front of the ring and hands it to
    the link, or finds the ring empty and clears the in-flight flag. *)
Lemma _write_open w now handle st tx :
  handle = spp_handle st -> spp_tx_buffer st = Some tx ->
  (rb_bytes tx = [] /\
   _write w now handle st = Some (set_spp_writing false st, []))
  \/
  (rb_bytes tx <> [] /\
   exists st',
     _write w now handle st
     = Some (st', [Call_esp_spp_write handle
                     (firstn BT_SPP_DATA_MAX_SIZE (rb_bytes tx))]) /\
     spp_tx_buffer st'
     = Some (mk_byte_ringbuf (rb_size tx)
               (skipn BT_SPP_DATA_MAX_SIZE (rb_bytes tx))) /\
     spp_handle st' = spp_handle st /\
     spp_writing st' = spp_writing st /\
     spp_rx_buffer st' = spp_rx_buffer st).
Proof.
  intros Hh Htx. unfold _write. rewrite Hh, Z.eqb_refl, Htx. cbn [negb].
  unfold xRingbufferReceiveUpTo.
  destruct (rb_bytes tx) as [|b bs] eqn:Eb.
  - left. split; reflexivity.
  - right. split; [discriminate|].
    destruct (w (spp_handle st) (firstn BT_SPP_DATA_MAX_SIZE (b :: bs))); cbn [negb].
    + match goal with
      | |- context [if ?c then _ else _] => destruct c
      end; eexists; (split; [reflexivity|]); repeat split.
    + eexists; (split; [reflexivity|]); repeat split.
Qed.

Lemma _write_conserves w now handle st tx :
  handle = spp_handle st -> spp_tx_buffer st = Some tx ->
  exists st' ev tx',
    _write w now handle st = Some (st', ev) /\
    spp_tx_buffer st' = Some tx' /\
    handed_over ev ++ rb_bytes tx' = rb_bytes tx /\
    spp_handle st' = spp_handle st.
Proof.
  intros Hh Htx.
  destruct (_write_open w now st Hh Htx)
    as [(He & Hw)|(Hne & st' & Hw & Htx' & Hh' & _)].
  - exists (set_spp_writing false st), [], tx. repeat split; auto.
  - exists st'. eexists. eexists. split; [exact Hw|]. split; [exact Htx'|].
    split; [|exact Hh'].
    cbn [handed_over rb_bytes]. rewrite app_nil_r. apply firstn_skipn.
Qed.

(** The same for a drain step that is taken only when [c] holds. *)
Lemma optional_write_conserves (c : bool) w now handle st tx :
  handle = spp_handle st -> spp_tx_buffer st = Some tx ->
  exists st' ev tx',
    (if c then _write w now handle st else Some (st, [])) = Some (st', ev) /\
    spp_tx_buffer st' = Some tx' /\
    handed_over ev ++ rb_bytes tx' = rb_bytes tx /\
    spp_handle st' = spp_handle st.
Proof.
  intros Hh Htx. destruct c.
  - now apply _write_conserves.
  - exists st, [], tx. repeat split; auto.
Qed.

Lemma handed_over_app ev1 ev2 :
  handed_over (ev1 ++ ev2) = handed_over ev1 ++ handed_over ev2.
Proof.
  induction ev1 as [|e ev1 IH]; cbn; [reflexivity|].
  destruct e; auto. now rewrite IH, app_assoc.
Qed.

(** C5.  On an open connection, for a non-empty buffer of [n] bytes,
    [bt_write] returns either [n] or 0.  It returns [n] when the transmit
    ring has room for the bytes, and then all of them have been appended
    to the ring: what the call hands to the link followed by what the ring
    holds afterwards is the old content followed by the buffer.  It
    returns 0 when the ring has no room for them, and then none of them
    is taken: what the call hands to the link followed by what the ring
    holds afterwards is the old content.  So 0 is returned exactly when
    there is no room, and never is a proper part of the buffer taken. *)
Theorem bt_write_all_or_nothing (w : Z -> list byte -> bool) (now handle : Z)
  (buf : list byte) (st : bt_state) (tx : byte_ringbuf)
  (Hopen : connection_open st handle tx) (Hbuf : buf <> []) :
  exists ret st' ev tx',
    bt_write w now handle buf st = Some (ret, st', ev) /\
    spp_tx_buffer st' = Some tx' /\
    (has_room tx buf ->
       ret = Z.of_nat (List.length buf) /\
       handed_over ev ++ rb_bytes tx' = rb_bytes tx ++ buf) /\
    (~ has_room tx buf ->
       ret = 0 /\ handed_over ev ++ rb_bytes tx' = rb_bytes tx) /\
    (ret = 0 <-> ~ has_room tx buf).
Proof.
  destruct Hopen as (Hnz & Hh & Htx).
  assert (Hlen : Z.of_nat (List.length buf) <> 0).
  { destruct buf; [congruence | cbn [List.length]; lia]. }
  unfold bt_write, has_room.
  rewrite (proj2 (Z.eqb_neq _ _) Hlen), Hh, Z.eqb_refl, Htx. cbn [negb].
  unfold xRingbufferSend.
  destruct (Nat.leb_spec (List.length buf) (xRingbufferGetCurFreeSize tx))
    as [Hroom|Hfull]; cbn [fst snd negb].
  - (* the bytes go in *)
    set (tx1 := mk_byte_ringbuf (rb_size tx) (rb_bytes tx ++ buf)).
    set (st1 := set_spp_tx_buffer (Some tx1) st).
    set (st2 := if spp_tx_buffer_min_free st1
                   >? Z.of_nat (xRingbufferGetCurFreeSize tx1)
                then set_spp_tx_buffer_min_free
                       (Z.of_nat (xRingbufferGetCurFreeSize tx1)) st1
                else st1).
    assert (H2 : spp_handle st2 = spp_handle st /\
                 spp_tx_buffer st2 = Some tx1 /\
                 spp_writing st2 = spp_writing st).
    { unfold st2. destruct (_ >? _); repeat split. }
    destruct H2 as (H2h & H2t & H2w).
    destruct (@optional_write_conserves (negb (spp_writing st2)) w now
                (spp_handle st) (set_spp_writing true st2) tx1)
      as (st' & ev & tx' & Hw & Ht' & Hc & _); auto.
    assert (Hw' : (if negb (spp_writing st2)
                   then _write w now (spp_handle st) (set_spp_writing true st2)
                   else Some (st2, [])) = Some (if negb (spp_writing st2) then st' else st2,
                                                if negb (spp_writing st2) then ev else [])).
    { destruct (negb (spp_writing st2)); [exact Hw | reflexivity]. }
    rewrite Hw'.
    exists (Z.of_nat (List.length buf)).
    destruct (negb (spp_writing st2)).
    + exists st', ev, tx'. split; [reflexivity|]. split; [exact Ht'|].
      split; [intros _; split; [reflexivity | exact Hc]|].
      split; [intros Hn; lia | split; [intros; lia | intros Hn; lia]].
    + exists st2, [], tx1. split; [reflexivity|]. split; [exact H2t|].
      split; [intros _; split; reflexivity|].
      split; [intros Hn; lia | split; [intros; lia | intros Hn; lia]].
  - (* no room *)
    rewrite (set_spp_tx_buffer_same st Htx).
    destruct (@optional_write_conserves
                (spp_writing st && (now - spp_last_us st >? 5 * 1000000))
                w now (spp_handle st) st tx)
      as (st1 & ev1 & tx1 & Hw1 & Ht1 & Hc1 & Hh1); auto.
    rewrite Hw1.
    assert (Hset : spp_tx_buffer (set_spp_writing true st1) = Some tx1)
      by exact Ht1.
    destruct (negb (spp_writing st1)).
    + destruct (@_write_conserves w now (spp_handle st)
                  (set_spp_writing true st1) tx1)
        as (st2 & ev2 & tx2 & Hw2 & Ht2 & Hc2 & _); auto.
      rewrite Hw2. exists 0, st2, (ev1 ++ ev2), tx2.
      split; [reflexivity|]. split; [exact Ht2|].
      split; [intros Hn; lia|].
      split.
      * intros _. split; [reflexivity|].
        rewrite handed_over_app, <- app_assoc, Hc2. exact Hc1.
      * split; [intros _; lia | reflexivity].
    + exists 0, st1, (ev1 ++ []), tx1.
      split; [reflexivity|]. split; [exact Ht1|].
      split; [intros Hn; lia|].
      split.
      * intros _. split; [reflexivity|]. rewrite app_nil_r. exact Hc1.
      * split; [intros _; lia | reflexivity].
Qed.


Lemma bt_write_all_or_nothing_witness :
  let buf := [x41; x54; x5a]%byte in
  let tx := xRingbufferCreate BT_SPP_RINGBUF_TX_SIZE in
  connection_open bt_state_open5 5 tx /\
  buf <> [] /\
  exists ret st' ev tx',
    bt_write link_ok 2000000 5 buf bt_state_open5 = Some (ret, st', ev) /\
    spp_tx_buffer st' = Some tx' /\
    (has_room tx buf ->
       ret = Z.of_nat (List.length buf) /\
       handed_over ev ++ rb_bytes tx' = rb_bytes tx ++ buf) /\
    (~ has_room tx buf ->
       ret = 0 /\ handed_over ev ++ rb_bytes tx' = rb_bytes tx) /\
    (ret = 0 <-> ~ has_room tx buf).
Proof.
  cbv zeta.
  assert (Hopen : connection_open bt_state_open5 5
                    (xRingbufferCreate BT_SPP_RINGBUF_TX_SIZE)).
  { repeat split. vm_compute. discriminate. }
  assert (Hbuf : [x41; x54; x5a]%byte <> []) by discriminate.
  split; [exact Hopen|]. split; [exact Hbuf|].
  exact (@bt_write_all_or_nothing link_ok 2000000 5 [x41; x54; x5a]%byte
           bt_state_open5 (xRingbufferCreate BT_SPP_RINGBUF_TX_SIZE) Hopen Hbuf).
Defined.

(** ** Recovery when the transmit ring is full *)

(** C7.  On an open connection, when [bt_write] finds no room in the
    transmit ring for a non-empty buffer, it returns 0 in every case, and:
    - if a drain is believed in flight ([spp_writing]) and more than
      5 s have passed since the last successful send, it runs the drain
      step: with data queued, the front chunk of the ring is handed to the
      link;
    - if no drain is believed in flight, it sets [spp_writing] and runs
      the drain step: with data queued, the front chunk of the ring is
      handed to the link and [spp_writing] stays set;
    - otherwise (a drain is in flight and the threshold has not passed)
      nothing is handed to the link and the transport is as before.
    [t_last] is the timer value at the last successful send, of which
    [spp_last_us] keeps the low 32 bits. *)
Theorem bt_write_full_ring_recovery (w : Z -> list byte -> bool)
  (now handle t_last : Z) (buf : list byte) (st : bt_state) (tx : byte_ringbuf)
  (Hopen : connection_open st handle tx) (Hbuf : buf <> [])
  (Hfull : ~ has_room tx buf)
  (Hlast : spp_last_us st = u32 t_last) (Ht : 0 <= t_last) :
  let chunk := firstn BT_SPP_DATA_MAX_SIZE (rb_bytes tx) in
  let rest := mk_byte_ringbuf (rb_size tx)
                (skipn BT_SPP_DATA_MAX_SIZE (rb_bytes tx)) in
  exists st' ev,
    bt_write w now handle buf st = Some (0, st', ev) /\
    (spp_writing st = true -> now - t_last > 5 * 1000000 ->
       (rb_bytes tx <> [] ->
          ev = [Call_esp_spp_write handle chunk] /\
          spp_tx_buffer st' = Some rest /\ spp_writing st' = true) /\
       (rb_bytes tx = [] -> ev = [] /\ spp_writing st' = false)) /\
    (spp_writing st = false ->
       (rb_bytes tx <> [] ->
          ev = [Call_esp_spp_write handle chunk] /\
          spp_tx_buffer st' = Some rest /\ spp_writing st' = true) /\
       (rb_bytes tx = [] -> ev = [] /\ spp_writing st' = false)) /\
    (spp_writing st = true -> now - spp_last_us st <= 5 * 1000000 ->
       st' = st /\ ev = []).
Proof.
  cbv zeta.
  destruct Hopen as (Hnz & Hh & Htx).
  assert (Hlen : Z.of_nat (List.length buf) <> 0).
  { destruct buf; [congruence | cbn [List.length]; lia]. }
  assert (Hle : u32 t_last <= t_last).
  { unfold u32. apply Z.mod_le; lia. }
  unfold has_room in Hfull.
  unfold bt_write.
  rewrite (proj2 (Z.eqb_neq _ _) Hlen), Hh, Z.eqb_refl, Htx. cbn [negb].
  unfold xRingbufferSend.
  destruct (Nat.leb_spec (List.length buf) (xRingbufferGetCurFreeSize tx))
    as [Hroom|_]; [contradiction|].
  cbn [fst snd negb].
  rewrite (set_spp_tx_buffer_same st Htx).
  destruct (spp_writing st) eqn:Ew; cbn [andb negb].
  - (* a drain is believed in flight *)
    destruct (Z.gtb_spec (now - spp_last_us st) (5 * 1000000)) as [Hst|Hst].
    + (* stalled *)
      destruct (@_write_open w now (spp_handle st) st tx eq_refl Htx)
        as [(He & Hw)|(Hne & st1 & Hw & Ht1 & Hh1 & Hw1 & _)]; rewrite Hw.
      * (* nothing queued: the flag is cleared, set again, cleared again *)
        cbn [spp_writing set_spp_writing negb].
        destruct (@_write_open w now (spp_handle st)
                    (set_spp_writing true (set_spp_writing false st)) tx
                    eq_refl Htx)
          as [(_ & Hw2)|(Hne & _)]; [|contradiction].
        rewrite Hw2. eexists. eexists. split; [reflexivity|].
        split; [|split; [discriminate|intros _ Hc; lia]].
        intros _ _. split; [intros Hc; contradiction|].
        intros _. split; reflexivity.
      * rewrite Hw1, Ew. cbn [negb].
        exists st1. eexists. split; [reflexivity|].
        split; [|split; [discriminate|intros _ Hc; lia]].
        intros _ _. split; [|intros Hc; contradiction].
        intros _. rewrite app_nil_r. repeat split; auto. congruence.
    + (* not stalled *)
      rewrite Ew. cbn [negb].
      exists st, []. split; [reflexivity|].
      split; [intros _ Hc; lia|].
      split; [discriminate|]. intros _ _. split; reflexivity.
  - (* no drain is believed in flight *)
    rewrite Ew. cbn [negb].
    destruct (@_write_open w now (spp_handle st) (set_spp_writing true st) tx
                eq_refl Htx)
      as [(He & Hw)|(Hne & st1 & Hw & Ht1 & Hh1 & Hw1 & _)]; rewrite Hw.
    + eexists. eexists. split; [reflexivity|].
      split; [discriminate|]. split; [|discriminate].
      intros _. split; [intros Hc; contradiction|].
      intros _. split; reflexivity.
    + exists st1. eexists. split; [reflexivity|].
      split; [discriminate|]. split; [|discriminate].
      intros _. split; [|intros Hc; contradiction].
      intros _. repeat split; auto.
Qed.


Lemma bt_write_full_ring_recovery_witness :
  let tx := mk_byte_ringbuf BT_SPP_RINGBUF_TX_SIZE
              (repeat x41%byte BT_SPP_RINGBUF_TX_SIZE) in
  connection_open bt_state_full5 5 tx /\
  ~ has_room tx [x0d%byte] /\
  exists st' ev,
    bt_write link_ok 7000000 5 [x0d%byte] bt_state_full5 = Some (0, st', ev) /\
    ev = [Call_esp_spp_write 5 (firstn BT_SPP_DATA_MAX_SIZE (rb_bytes tx))] /\
    spp_writing st' = true.
Proof.
  cbv zeta.
  set (tx := mk_byte_ringbuf BT_SPP_RINGBUF_TX_SIZE
               (repeat x41%byte BT_SPP_RINGBUF_TX_SIZE)).
  assert (Hopen : connection_open bt_state_full5 5 tx).
  { repeat split. vm_compute. discriminate. }
  assert (Hfull : ~ has_room tx [x0d%byte]).
  { unfold has_room, xRingbufferGetCurFreeSize, tx. cbn [rb_size rb_bytes].
    rewrite repeat_length, Nat.sub_diag. cbn. lia. }
  assert (Hbuf : [x0d%byte] <> []) by discriminate.
  assert (Hlast : spp_last_us bt_state_full5 = u32 1000000) by reflexivity.
  assert (Ht : 0 <= 1000000) by lia.
  split; [exact Hopen|]. split; [exact Hfull|].
  destruct (@bt_write_full_ring_recovery link_ok 7000000 5 1000000 [x0d%byte]
              bt_state_full5 tx Hopen Hbuf Hfull Hlast Ht)
    as (st' & ev & Hw & Hstall & _).
  exists st', ev. split; [exact Hw|].
  assert (Hwr : spp_writing bt_state_full5 = true) by reflexivity.
  assert (Hgt : 7000000 - 1000000 > 5 * 1000000) by lia.
  destruct (Hstall Hwr Hgt) as (Hq & _).
  assert (Hne : rb_bytes tx <> []) by (unfold tx; cbn; discriminate).
  destruct (Hq Hne) as (Hev & _ & Hw'). split; [exact Hev | exact Hw'].
Defined.

(** ** A second connection *)

(** C9.  While a connection is open, [_open] for another handle asks the
    stack to disconnect the new connection and returns; the only thing it
    changes is the flag [spp_second_connexion], so the active handle, the
    two rings and the in-flight flag are as before.  When the stack then
    reports the new connection closed, [_close] clears that flag without
    touching the open connection: after both calls the transport is as it
    would be with the flag cleared. *)
Theorem open_rejects_second_connection (rx_ok tx_ok : bool) (now handle : Z)
  (st : bt_state) (Hactive : spp_handle st <> 0) :
  let r := _open rx_ok tx_ok now handle st in
  snd r = [Call_esp_spp_disconnect handle] /\
  fst r = set_spp_second_connexion true st /\
  spp_handle (fst r) = spp_handle st /\
  spp_rx_buffer (fst r) = spp_rx_buffer st /\
  spp_tx_buffer (fst r) = spp_tx_buffer st /\
  spp_writing (fst r) = spp_writing st /\
  (handle <> spp_handle st ->
   _close handle (fst r) = (set_spp_second_connexion false st, [])).
Proof.
  cbv zeta. unfold _open.
  rewrite (proj2 (Z.eqb_neq _ _) Hactive). cbn [negb fst snd].
  repeat split.
  intros Hne. unfold _close.
  cbn [spp_handle spp_second_connexion set_spp_second_connexion].
  rewrite (proj2 (Z.eqb_neq _ _) Hne). cbn [negb].
  destruct st; reflexivity.
Qed.

Lemma open_rejects_second_connection_witness :
  spp_handle bt_state_open5 <> 0 /\
  snd (_open true true 3000000 6 bt_state_open5) = [Call_esp_spp_disconnect 6] /\
  spp_handle (fst (_open true true 3000000 6 bt_state_open5)) = 5 /\
  spp_tx_buffer (fst (_open true true 3000000 6 bt_state_open5))
  = spp_tx_buffer bt_state_open5.
Proof.
  assert (H : spp_handle bt_state_open5 <> 0) by (vm_compute; discriminate).
  split; [exact H|].
  destruct (@open_rejects_second_connection true true 3000000 6 bt_state_open5 H)
    as (Hev & _ & Hh & _ & Htx & _).
  split; [exact Hev|]. split; [rewrite Hh; reflexivity | exact Htx].
Defined.

(** ** The monitor *)


Lemma elm_monitor_loop_running_cons g l k rest :
  snd (elm_monitor_loop g l (k :: rest)) = false ->
  (negb (elm_monitor g) || tick_stopped k) = false /\
  exists l', fst (elm_monitor_body g l k) = Some l' /\
             snd (elm_monitor_loop g l' rest) = false.
Proof.
  cbn [elm_monitor_loop].
  destruct (negb (elm_monitor g) || tick_stopped k); [discriminate|].
  destruct (elm_monitor_body g l k) as [[l'|] ev]; cbn [snd fst];
    [|discriminate].
  intros H. split; [reflexivity|]. exists l'. split; [reflexivity | exact H].
Qed.


(** A loop that is still running after [ticks] goes on with the locals it
    has reached. *)
Lemma elm_monitor_loop_app g : forall ticks l more,
  snd (elm_monitor_loop g l ticks) = false ->
  elm_monitor_loop g l (ticks ++ more)
  = (fst (elm_monitor_loop g l ticks)
     ++ fst (elm_monitor_loop g (locals_after g l ticks) more),
     snd (elm_monitor_loop g (locals_after g l ticks) more)).
Proof.
  induction ticks as [|k rest IH]; intros l more Hrun.
  - cbn [app elm_monitor_loop locals_after fst].
    now destruct (elm_monitor_loop g l more).
  - destruct (elm_monitor_loop_running_cons g l k rest Hrun)
      as (Hs & l' & Hb & Hrest).
    cbn [app elm_monitor_loop locals_after]. rewrite Hs, Hb.
    destruct (elm_monitor_body g l k) as [o ev]. cbn [fst] in Hb. subst o.
    rewrite (IH l' more Hrest). cbn [fst snd]. now rewrite app_assoc.
Qed.


Lemma u32_diff a b : 0 <= a - b < 2 ^ 32 -> u32 (u32 a - u32 b) = a - b.
Proof.
  intros H. unfold u32. rewrite <- Zminus_mod. now apply Z.mod_small.
Qed.



(** A pass after which the loop goes on has printed the line of its
    frame, if the frame passes the filter, and nothing else. *)
Lemma elm_monitor_body_next g l k l' :
  fst (elm_monitor_body g l k) = Some l' ->
  snd (elm_monitor_body g l k) = tick_frame_events g k.
Proof.
  unfold elm_monitor_body, tick_frame_events, tick_passes.
  destruct (tick_rx k) as [rx|].
  - destruct (elm_filter_test g (identifier (msg rx)) (u32 (timestamp rx))).
    + destruct (tick_flush_ok k); cbn [fst snd]; [|discriminate].
      repeat match goal with
             | |- context [if ?c then _ else _] => destruct c
             end; cbn [fst snd]; intros H; first [discriminate H | reflexivity].
    + cbn [fst snd].
      repeat match goal with
             | |- context [if ?c then _ else _] => destruct c
             end; cbn [fst snd]; intros H; first [discriminate H | reflexivity].
  - cbn [fst snd].
    repeat match goal with
           | |- context [if ?c then _ else _] => destruct c
           end; cbn [fst snd]; intros H; first [discriminate H | reflexivity].
Qed.

(** While the loop runs it has printed the lines of the frames that
    passed the filter, in the order of their arrival, and nothing else. *)
Lemma elm_monitor_loop_running_events g : forall ticks l,
  snd (elm_monitor_loop g l ticks) = false ->
  fst (elm_monitor_loop g l ticks) = flat_map (tick_frame_events g) ticks.
Proof.
  induction ticks as [|k rest IH]; intros l Hrun; [reflexivity|].
  destruct (elm_monitor_loop_running_cons g l k rest Hrun)
    as (Hs & l' & Hb & Hrest).
  cbn [elm_monitor_loop flat_map]. rewrite Hs.
  pose proof (elm_monitor_body_next g l k Hb) as Hev.
  destruct (elm_monitor_body g l k) as [o ev]. cbn [fst snd] in Hb, Hev.
  subst o ev. cbn [fst]. now rewrite (IH l' Hrest).
Qed.












(** ** The hexadecimal reader and the monitor's format *)

Lemma string_length_app s1 s2 :
  String.length (s1 ++ s2)%string = (String.length s1 + String.length s2)%nat.
Proof. induction s1 as [|a s1 IH]; cbn; [reflexivity | now rewrite IH]. Qed.

Lemma string_app_nil_r s : (s ++ EmptyString)%string = s.
Proof. induction s as [|a s IH]; cbn; [reflexivity | now rewrite IH]. Qed.

Lemma string_app_assoc s1 s2 s3 :
  ((s1 ++ s2) ++ s3)%string = (s1 ++ s2 ++ s3)%string.
Proof. induction s1 as [|a s1 IH]; cbn; [reflexivity | now rewrite IH]. Qed.

Lemma hex_digit_range a d : hex_digit a = Some d -> 0 <= d < 16.
Proof.
  unfold hex_digit, ascii_between.
  change (nat_of_ascii "0") with 48%nat. change (nat_of_ascii "9") with 57%nat.
  change (nat_of_ascii "A") with 65%nat. change (nat_of_ascii "F") with 70%nat.
  change (nat_of_ascii "a") with 97%nat. change (nat_of_ascii "f") with 102%nat.
  generalize (nat_of_ascii a). intros n.
  repeat match goal with
         | |- context [(?x <=? ?y)%nat] => destruct (Nat.leb_spec x y)
         end; cbn [andb]; intros Heq;
    first [discriminate Heq | injection Heq as <-; lia].
Qed.

Lemma is_hex_true a : is_hex a = true -> exists d, hex_digit a = Some d.
Proof. unfold is_hex. destruct (hex_digit a) as [d|]; [eauto | discriminate]. Qed.

Lemma hex_value_bound s : 0 <= hex_value s < 16 ^ Z.of_nat (String.length s).
Proof.
  induction s as [|a s IH]; cbn [hex_value String.length]; [cbn; lia|].
  rewrite Nat2Z.inj_succ, Z.pow_succ_r by lia.
  assert (Hd : 0 <= match hex_digit a with Some d => d | None => 0 end < 16).
  { destruct (hex_digit a) as [d|] eqn:E; [now apply hex_digit_range in E | lia]. }
  nia.
Qed.

Lemma u32_range x : 0 <= u32 x < 2 ^ 32.
Proof. unfold u32. apply Z.mod_pos_bound. lia. Qed.

(** The loop of [elm_read_hexa] reads the hexadecimal digits the string
    begins with and shifts them into [h], modulo [2^32]. *)
Lemma elm_read_hexa_loop_char : forall c h, 0 <= h < 2 ^ 32 ->
  elm_read_hexa_loop c h
  = (advance (String.length (hex_prefix c)) c,
     u32 (h * 16 ^ Z.of_nat (String.length (hex_prefix c))
          + hex_value (hex_prefix c))).
Proof.
  induction c as [|a r IH]; intros h Hh; cbn [elm_read_hexa_loop hex_prefix].
  - cbn [String.length advance hex_value]. rewrite u32_small by (cbn; lia).
    f_equal. cbn. lia.
  - unfold is_hex. destruct (hex_digit a) as [d|] eqn:E.
    + rewrite IH by apply u32_range.
      cbn [String.length advance hex_value]. rewrite E. f_equal.
      rewrite Z.shiftl_mul_pow2 by lia.
      rewrite Nat2Z.inj_succ, Z.pow_succ_r by lia.
      unfold u32.
      rewrite <- Zplus_mod_idemp_l, Zmult_mod_idemp_l, Zplus_mod_idemp_l.
      f_equal. change (2 ^ 4) with 16. ring.
    + cbn [String.length advance hex_value]. rewrite u32_small by (cbn; lia).
      f_equal. cbn. lia.
Qed.

Lemma hex_prefix_split c :
  c = (hex_prefix c ++ advance (String.length (hex_prefix c)) c)%string.
Proof.
  induction c as [|a r IH]; cbn; [reflexivity|].
  destruct (is_hex a); cbn; [now rewrite <- IH | reflexivity].
Qed.

Lemma hex_prefix_stops c :
  is_hex (deref (advance (String.length (hex_prefix c)) c)) = false.
Proof.
  induction c as [|a r IH]; cbn; [reflexivity|].
  destruct (is_hex a) eqn:E; cbn; [exact IH | exact E].
Qed.

(** X1.  [elm_read_hexa] reads the longest prefix of hexadecimal digits
    (upper or lower case) of its argument: the returned pointer is the
    argument after that prefix, so it points at a character that is not a
    hexadecimal digit (or at the end), and the value stored is the number
    the prefix denotes, reduced modulo [2^32].  With at most eight digits
    nothing is lost; with no digit at all the value is 0 and the
    pointer is the argument. *)
Theorem elm_read_hexa_longest_prefix (c : string) :
  let p := hex_prefix c in
  let r := elm_read_hexa c in
  c = (p ++ fst r)%string /\
  is_hex (deref (fst r)) = false /\
  snd r = hex_value p mod 2 ^ 32 /\
  ((String.length p <= 8)%nat -> snd r = hex_value p) /\
  (is_hex (deref c) = false -> r = (c, 0)).
Proof.
  cbv zeta. unfold elm_read_hexa.
  rewrite elm_read_hexa_loop_char by (cbn; lia). cbn [fst snd].
  split; [apply hex_prefix_split|]. split; [apply hex_prefix_stops|].
  split; [reflexivity|]. split.
  - intros Hlen. apply u32_small.
    pose proof (hex_value_bound (hex_prefix c)) as Hb.
    assert (16 ^ Z.of_nat (String.length (hex_prefix c)) <= 16 ^ 8).
    { apply Z.pow_le_mono_r; lia. }
    change (2 ^ 32) with (16 ^ 8). lia.
  - intros Hc. destruct c as [|a r]; [reflexivity|].
    cbn in Hc. cbn [hex_prefix]. rewrite Hc. reflexivity.
Qed.

(** *** What [%0<width>X] prints *)

Lemma hex_digit_hex_char d : 0 <= d < 16 -> hex_digit (hex_char d) = Some d.
Proof.
  intros Hd.
  assert (H : d = 0 \/ d = 1 \/ d = 2 \/ d = 3 \/ d = 4 \/ d = 5 \/ d = 6 \/
              d = 7 \/ d = 8 \/ d = 9 \/ d = 10 \/ d = 11 \/ d = 12 \/
              d = 13 \/ d = 14 \/ d = 15) by lia.
  repeat (destruct H as [->|H]; [reflexivity|]). subst d. reflexivity.
Qed.

Lemma hex_digits_acc : forall fuel n acc,
  hex_digits fuel n acc = (hex_digits fuel n EmptyString ++ acc)%string.
Proof.
  induction fuel as [|fuel IH]; intros n acc; cbn [hex_digits]; [reflexivity|].
  destruct (n / 16 =? 0); [reflexivity|].
  rewrite IH. rewrite (IH (n / 16) (String _ EmptyString)).
  rewrite string_app_assoc. reflexivity.
Qed.

Lemma all_hex_app s1 s2 : all_hex (s1 ++ s2) = all_hex s1 && all_hex s2.
Proof.
  induction s1 as [|a s1 IH]; cbn; [reflexivity|].
  rewrite IH. now rewrite andb_assoc.
Qed.

Lemma hex_value_app s1 s2 :
  hex_value (s1 ++ s2)
  = hex_value s1 * 16 ^ Z.of_nat (String.length s2) + hex_value s2.
Proof.
  induction s1 as [|a s1 IH]; cbn [append hex_value String.length]; [lia|].
  rewrite IH, string_length_app, Nat2Z.inj_add, Z.pow_add_r by lia. ring.
Qed.

(** The digits printed for [n] are hexadecimal digits, denote [n], and are
    at least one and at most [fuel]. *)
Lemma hex_digits_value : forall fuel n,
  (0 < fuel)%nat -> 0 <= n < 16 ^ Z.of_nat fuel ->
  all_hex (hex_digits fuel n EmptyString) = true /\
  hex_value (hex_digits fuel n EmptyString) = n /\
  (1 <= String.length (hex_digits fuel n EmptyString) <= fuel)%nat /\
  (forall w : nat, (0 < w)%nat -> n < 16 ^ Z.of_nat w ->
     (String.length (hex_digits fuel n EmptyString) <= w)%nat).
Proof.
  induction fuel as [|fuel IH]; intros n Hf Hn; [lia|].
  cbn [hex_digits].
  assert (Hm : 0 <= n mod 16 < 16) by (apply Z.mod_pos_bound; lia).
  assert (Hdiv : n = 16 * (n / 16) + n mod 16) by (apply Z.div_mod; lia).
  assert (Hq : 0 <= n / 16) by (apply Z.div_pos; lia).
  destruct (Z.eqb_spec (n / 16) 0) as [E|E].
  - cbn [all_hex hex_value String.length]. unfold is_hex.
    rewrite hex_digit_hex_char by exact Hm. cbn [andb Z.of_nat].
    split; [reflexivity|]. split; [lia|]. split; lia.
  - rewrite hex_digits_acc.
    rewrite Nat2Z.inj_succ, Z.pow_succ_r in Hn by lia.
    assert (Hq' : n / 16 < 16 ^ Z.of_nat fuel) by lia.
    assert (Hfuel : (0 < fuel)%nat).
    { destruct fuel; [cbn in Hq'; lia | lia]. }
    destruct (IH (n / 16) Hfuel (conj Hq Hq')) as (Ha & Hv & Hl & Hw).
    rewrite all_hex_app, hex_value_app, string_length_app, Ha, Hv.
    cbn [all_hex hex_value String.length]. unfold is_hex.
    rewrite hex_digit_hex_char by exact Hm. cbn [andb Z.of_nat].
    split; [reflexivity|]. split; [change (16 ^ 1) with 16; lia|].
    split; [lia|].
    intros w Hw0 Hnw. destruct w as [|w]; [lia|].
    rewrite Nat2Z.inj_succ, Z.pow_succ_r in Hnw by lia.
    assert (Hw1 : (0 < w)%nat).
    { destruct w; [cbn in Hnw; lia | lia]. }
    assert (Hqw : n / 16 < 16 ^ Z.of_nat w) by lia.
    specialize (Hw w Hw1 Hqw). lia.
Qed.

Lemma zeros_props k :
  all_hex (zeros k) = true /\ hex_value (zeros k) = 0 /\
  String.length (zeros k) = k.
Proof.
  induction k as [|k (Ha & Hv & Hl)]; cbn; [auto|].
  rewrite Ha, Hv, Hl. auto.
Qed.

Lemma fmt_0X_props width n : 0 <= n < 2 ^ 32 ->
  all_hex (fmt_0X width n) = true /\
  hex_value (fmt_0X width n) = n /\
  (width <= String.length (fmt_0X width n))%nat /\
  ((0 < width)%nat -> n < 16 ^ Z.of_nat width ->
   String.length (fmt_0X width n) = width).
Proof.
  intros Hn. unfold fmt_0X.
  destruct (@hex_digits_value 8 n) as (Ha & Hv & Hl & Hw); [lia | exact Hn|].
  set (s := hex_digits 8 n EmptyString) in *.
  destruct (zeros_props (width - String.length s)) as (Hza & Hzv & Hzl).
  rewrite all_hex_app, hex_value_app, string_length_app, Ha, Hv, Hza, Hzv, Hzl.
  split; [reflexivity|]. split; [lia|]. split; [lia|].
  intros Hw0 Hnw. specialize (Hw width Hw0 Hnw). lia.
Qed.

Lemma hex_prefix_app s rest :
  all_hex s = true -> is_hex (deref rest) = false ->
  hex_prefix (s ++ rest) = s.
Proof.
  intros Hs Hr. induction s as [|a s IH]; cbn in *.
  - destruct rest as [|b rest]; [reflexivity|]. cbn in Hr. cbn. now rewrite Hr.
  - apply andb_prop in Hs as [Ha Hs]. rewrite Ha, IH by exact Hs. reflexivity.
Qed.

Lemma advance_app s rest : advance (String.length s) (s ++ rest) = rest.
Proof. induction s as [|a s IH]; cbn; [now destruct rest | exact IH]. Qed.

(** Reading back what [%0<width>X] printed. *)
Lemma elm_read_hexa_fmt_0X width n rest :
  0 <= n < 2 ^ 32 -> is_hex (deref rest) = false ->
  elm_read_hexa (fmt_0X width n ++ rest) = (rest, n).
Proof.
  intros Hn Hr. destruct (fmt_0X_props width Hn) as (Ha & Hv & _).
  unfold elm_read_hexa. rewrite elm_read_hexa_loop_char by (cbn; lia).
  rewrite hex_prefix_app by assumption. rewrite advance_app, Hv.
  cbn [Z.mul]. now rewrite u32_small.
Qed.

Lemma output_app ev1 ev2 :
  output (ev1 ++ ev2) = (output ev1 ++ output ev2)%string.
Proof.
  induction ev1 as [|e ev1 IH]; cbn [app output]; [reflexivity|].
  destruct e; auto. now rewrite IH, string_app_assoc.
Qed.

(** X2.  The interpreter's hexadecimal reader is the inverse of the
    format the monitor prints with: what [%0<width>X] prints for a 32 bit
    value, followed by anything that does not begin with a hexadecimal
    digit, is read back by [elm_read_hexa] as that value, with the
    pointer left after the digits.  In particular, with headers and
    spaces on, the line [_elm_write_can] prints for a frame begins with a
    field that reads back as the frame's identifier. *)
Theorem hexa_format_round_trip (width : nat) (n : Z) (rest : string)
  (g : elm_globals_t) (m : can_message_t) (past : nat -> Z)
  (Hn : 0 <= n < 2 ^ 32) (Hrest : is_hex (deref rest) = false) :
  elm_read_hexa (fmt_0X width n ++ rest) = (rest, n) /\
  (elm_headers g = true -> elm_spaces g = true ->
   0 <= identifier m < 2 ^ 32 ->
   snd (elm_read_hexa (output (_elm_write_can g m past))) = identifier m /\
   deref (fst (elm_read_hexa (output (_elm_write_can g m past)))) = " "%char).
Proof.
  split; [now apply elm_read_hexa_fmt_0X|].
  intros Hh Hs Hid. unfold _elm_write_can. rewrite Hh, Hs.
  cbn [app]. cbn [output].
  rewrite elm_read_hexa_fmt_0X by (auto; reflexivity).
  split; reflexivity.
Qed.

Lemma hexa_format_round_trip_witness :
  let g := elm_init EmptyString in
  let m := mk_can_message 306 2 [4; 137; 0; 0; 0; 0; 0; 0] in
  0 <= 2024 < 2 ^ 32 /\ is_hex (deref " 01 02") = false /\
  elm_read_hexa (fmt_0X 3 2024 ++ " 01 02") = (" 01 02", 2024)%string /\
  snd (elm_read_hexa (output (_elm_write_can g m (fun _ => 0)))) = 306.
Proof.
  cbv zeta.
  assert (Hn : 0 <= 2024 < 2 ^ 32) by lia.
  assert (Hr : is_hex (deref " 01 02") = false) by reflexivity.
  split; [exact Hn|]. split; [exact Hr|].
  destruct (@hexa_format_round_trip 3 2024 " 01 02" (elm_init EmptyString)
              (mk_can_message 306 2 [4; 137; 0; 0; 0; 0; 0; 0]) (fun _ => 0)
              Hn Hr)
    as (H1 & H2).
  split; [exact H1|].
  apply H2; [reflexivity | reflexivity | cbn; lia].
Defined.

(** *** The width of a monitor line *)

Lemma nth_byte_range (l : list Z) i :
  Forall (fun b => 0 <= b < 256) l -> 0 <= nth i l 0 < 256.
Proof.
  intros H. revert i. induction H as [|b l Hb _ IH]; intros [|i]; cbn; auto; lia.
Qed.

Lemma write_can_data_length g m past :
  Forall (fun b => 0 <= b < 256) (data m) ->
  forall n i, (i + n <= 8)%nat ->
    String.length (output (write_can_data g m past n i))
    = (n * (2 + (if elm_spaces g then 1 else 0)))%nat.
Proof.
  intros Hd. induction n as [|n IH]; intros i Hi; cbn [write_can_data];
    [reflexivity|].
  pose proof (@nth_byte_range (data m) i Hd) as Hb.
  unfold data_at. rewrite (proj2 (Nat.ltb_lt i 8)) by lia.
  destruct (@fmt_0X_props 2 (nth i (data m) 0)) as (_ & _ & _ & Hl); [lia|].
  rewrite output_app, string_length_app, IH by lia.
  destruct (elm_spaces g); cbn [output String.length];
    rewrite ?string_length_app, ?string_app_nil_r, Hl by (cbn; lia);
    cbn [String.length]; lia.
Qed.

(** X3.  A monitor line has fixed-width fields.  For a frame with an
    identifier of at most three hexadecimal digits (every 11 bit
    identifier), a length code of at most 8 and eight payload bytes,
    [_elm_write_can] prints: three characters for the identifier when
    headers are on, two for the length code when its display is on, two
    for each of the first [data_length_code] payload bytes, one space
    after each of these fields when spaces are on, and the newline of
    the session. *)
Theorem monitor_line_width (g : elm_globals_t) (m : can_message_t)
  (past : nat -> Z)
  (Hid : 0 <= identifier m < 16 ^ 3)
  (Hdlc : 0 <= data_length_code m <= 8)
  (Hlen : List.length (data m) = 8%nat)
  (Hdata : Forall (fun b => 0 <= b < 256) (data m)) :
  let sp := if elm_spaces g then 1%nat else 0%nat in
  String.length (output (_elm_write_can g m past))
  = ((if elm_headers g then 3 + sp else 0)
     + (if elm_dlc g then 2 + sp else 0)
     + Z.to_nat (data_length_code m) * (2 + sp)
     + (if elm_linefeed g then 2 else 1))%nat.
Proof.
  cbv zeta. unfold _elm_write_can.
  destruct (@fmt_0X_props 3 (identifier m)) as (_ & _ & _ & Hl3); [cbn in *; lia|].
  destruct (@fmt_0X_props 2 (data_length_code m)) as (_ & _ & _ & Hl2); [lia|].
  rewrite !output_app, !string_length_app.
  rewrite write_can_data_length by (auto; lia).
  assert (Hnl : String.length (output [Printf (ELM_NEWLINE g)])
                = if elm_linefeed g then 2%nat else 1%nat).
  { unfold ELM_NEWLINE. destruct (elm_linefeed g); reflexivity. }
  rewrite Hnl.
  destruct (elm_headers g), (elm_dlc g), (elm_spaces g);
    cbn [output String.length];
    rewrite ?string_length_app, ?string_app_nil_r, ?Hl3, ?Hl2 by (cbn in *; lia);
    cbn [String.length]; lia.
Qed.

Lemma monitor_line_width_witness :
  let g := elm_init EmptyString in
  let m := mk_can_message 306 8 [4; 137; 228; 255; 210; 38; 255; 15] in
  String.length (output (_elm_write_can g m (fun _ => 0))) = 30%nat.
Proof.
  cbv zeta.
  assert (Hid : 0 <= 306 < 16 ^ 3) by (cbn; lia).
  assert (Hdlc : 0 <= 8 <= 8) by lia.
  assert (Hdata : Forall (fun b => 0 <= b < 256)
                    [4; 137; 228; 255; 210; 38; 255; 15]).
  { repeat constructor; lia. }
  exact (@monitor_line_width (elm_init EmptyString)
           (mk_can_message 306 8 [4; 137; 228; 255; 210; 38; 255; 15])
           (fun _ => 0) Hid Hdlc eq_refl Hdata).
Defined.

(** ** Adding rules *)

Lemma array_set_split (A : Type) (v : A) : forall (l : list A) (i : nat),
  (i < List.length l)%nat ->
  exists pre x post,
    l = pre ++ x :: post /\ List.length pre = i /\
    array_set l i v = pre ++ v :: post.
Proof.
  induction l as [|y l IH]; intros [|i] Hi; cbn in Hi; try lia.
  - exists [], y, l. repeat split.
  - destruct (IH i) as (pre & x & post & -> & Hlen & Hset); [lia|].
    exists (y :: pre), x, post. cbn. rewrite Hset, Hlen. repeat split.
Qed.

Lemma filter_all_occupied l :
  Forall (fun q => mask q <> 0) l -> List.filter occupied l = l.
Proof.
  induction 1 as [|q l Hq _ IH]; cbn; [reflexivity|].
  unfold occupied at 1. rewrite (proj2 (Z.eqb_neq _ _) Hq). cbn. now rewrite IH.
Qed.

(** A table in prefix form, cut at its lowest free slot: the slots before
    it are the stored rules, the slots after it are free. *)
Lemma lowest_free_split f k :
  table_inv f -> lowest_free f k ->
  exists x post,
    f = stored_rules f ++ x :: post /\
    List.length (stored_rules f) = k /\
    mask x = 0 /\ Forall (fun q => mask q = 0) post.
Proof.
  intros Hinv (Hk & Hfree & Hocc).
  pose proof Hinv as [Hlen Hcont].
  destruct (@array_set_split _ empty_slot f k) as (pre & x & post & Hf & Hpre & _);
    [lia|].
  assert (Hx : slot f k = x).
  { unfold slot. rewrite Hf, <- Hpre. apply nth_app_length. }
  assert (Hpreocc : Forall (fun q => mask q <> 0) pre).
  { apply Forall_forall. intros q Hq.
    destruct (In_nth pre q empty_slot Hq) as (j & Hj & Hnth).
    specialize (Hocc j ltac:(lia)). unfold slot in Hocc.
    rewrite Hf, app_nth1, Hnth in Hocc by lia. exact Hocc. }
  assert (Hpost : Forall (fun q => mask q = 0) post).
  { apply Forall_forall. intros q Hq.
    destruct (In_nth post q empty_slot Hq) as (j & Hj & Hnth).
    destruct (Z.eq_dec (mask q) 0) as [|Hne]; auto. exfalso.
    assert (Hlt : (k + S j < ELM_ST_FILTER_LEN)%nat).
    { rewrite <- Hlen, Hf, length_app. cbn [List.length]. lia. }
    apply (Hcont k (k + S j)%nat ltac:(lia) Hlt); [|rewrite Hx, <- Hfree, Hx; auto].
    unfold slot. rewrite Hf, app_nth2 by lia.
    replace (k + S j - List.length pre)%nat with (S j) by lia.
    cbn [nth]. now rewrite Hnth. }
  assert (Hst : stored_rules f = pre).
  { rewrite stored_rules_filter by exact Hinv. rewrite Hf at 1.
    rewrite filter_app. cbn [List.filter]. unfold occupied at 2.
    rewrite <- Hx, Hfree. cbn [Z.eqb negb].
    rewrite (filter_all_free Hpost), app_nil_r.
    now apply filter_all_occupied. }
  exists x, post. rewrite Hst. repeat split; auto.
  - rewrite <- Hx. exact Hfree.
Qed.

(** What [elm_filter_add] does to the rules of a table in prefix form. *)
Lemma elm_filter_add_stored f p m :
  table_inv f ->
  let r := elm_filter_add f p m in
  (snd r = true <-> (List.length (stored_rules f) < ELM_ST_FILTER_LEN)%nat) /\
  (snd r = false -> fst r = f) /\
  (snd r = true ->
   stored_rules (fst r)
   = stored_rules f ++ (if m =? 0 then [] else [mk_filter p m])).
Proof.
  intros Hinv. cbv zeta.
  pose proof (elm_filter_add_inv p m Hinv) as Hinv'.
  destruct (elm_filter_add_lowest_free f p m)
    as [(k & Hlow & Heq)|(Hocc & Heq)]; rewrite Heq in *; cbn [fst snd] in *.
  - destruct (lowest_free_split Hinv Hlow) as (x & post & Hf & Hlen & Hx & Hpost).
    pose proof Hlow as (Hk & _).
    split; [split; [intros _; lia | reflexivity]|].
    split; [discriminate|]. intros _.
    rewrite (stored_rules_filter Hinv').
    assert (Hset : set_slot f k (mk_filter p m)
                   = stored_rules f ++ mk_filter p m :: post).
    { unfold set_slot. rewrite Hf at 1. rewrite <- Hlen.
      clear. induction (stored_rules f) as [|y l IH]; cbn; [reflexivity|].
      now rewrite IH. }
    rewrite Hset, filter_app. cbn [List.filter].
    rewrite (filter_all_free Hpost).
    assert (Hpre : List.filter occupied (stored_rules f) = stored_rules f).
    { rewrite (stored_rules_filter Hinv).
      clear. induction f as [|q f IH]; cbn; [reflexivity|].
      destruct (occupied q) eqn:E; cbn; [rewrite E, IH; reflexivity | exact IH]. }
    rewrite Hpre. unfold occupied. cbn [mask].
    destruct (m =? 0); reflexivity.
  - destruct Hinv as [Hlen Hcont].
    assert (Hall : stored_rules f = f).
    { rewrite stored_rules_filter by (split; auto).
      apply filter_all_occupied. apply Forall_forall. intros q Hq.
      destruct (In_nth f q empty_slot Hq) as (j & Hj & Hnth).
      rewrite <- Hnth. apply Hocc. lia. }
    rewrite Hall, Hlen.
    split; [split; [discriminate | lia]|].
    split; [reflexivity | discriminate].
Qed.

(** X4.  For a table in prefix form [elm_filter_add] succeeds exactly
    when fewer than [ELM_ST_FILTER_LEN = 100] rules are stored.  When it
    fails the table is unchanged.  When it succeeds with a mask other
    than 0, the new rule comes after the rules already stored,
    which keep their order; when it succeeds with mask 0, the call
    reports success but no rule is stored. *)
Theorem elm_filter_add_appends (f : list elm_filter_t) (p m : Z)
  (Hinv : table_inv f) :
  let r := elm_filter_add f p m in
  (snd r = true <-> (List.length (stored_rules f) < 100)%nat) /\
  (snd r = false -> fst r = f) /\
  (snd r = true -> m <> 0 ->
   stored_rules (fst r) = stored_rules f ++ [mk_filter p m]) /\
  (snd r = true -> m = 0 -> stored_rules (fst r) = stored_rules f).
Proof.
  cbv zeta.
  destruct (@elm_filter_add_stored f p m Hinv) as (Hcap & Hfail & Hok).
  split; [exact Hcap|]. split; [exact Hfail|]. split.
  - intros Hs Hm. rewrite (Hok Hs), (proj2 (Z.eqb_neq _ _) Hm). reflexivity.
  - intros Hs ->. rewrite (Hok Hs). cbn. apply app_nil_r.
Qed.

Lemma elm_filter_add_appends_witness :
  let f := pass_filter (elm_init EmptyString) in
  table_inv f /\
  snd (elm_filter_add f 2024 2047) = true /\
  stored_rules (fst (elm_filter_add f 2024 2047)) = [mk_filter 2024 2047].
Proof.
  cbv zeta.
  assert (Hinv : table_inv (pass_filter (elm_init EmptyString))).
  { apply table_invb_sound. vm_compute. reflexivity. }
  split; [exact Hinv|].
  destruct (@elm_filter_add_appends (pass_filter (elm_init EmptyString))
              2024 2047 Hinv) as (Hcap & _ & Hok & _).
  assert (Hs : snd (elm_filter_add (pass_filter (elm_init EmptyString))
                      2024 2047) = true) by (vm_compute; reflexivity).
  split; [exact Hs|].
  rewrite (Hok Hs) by lia. vm_compute. reflexivity.
Defined.

(** ** The rule commands *)

(** Splits [H : strncasecmp s lit n = true], for a literal [lit] of [n]
    letters, into the possible spellings of the first [n] characters of
    [s]. *)
Ltac spell_letter_n H :=
  match type of H with
  | strncasecmp ?s (String _ _) (S _) = true =>
      destruct s; cbn [strncasecmp] in H; [discriminate H|];
      let Hc := fresh "Hc" in
      apply andb_true_iff in H; destruct H as [Hc H]
  end.

Ltac spell_st H :=
  repeat spell_letter_n H; clear H;
  repeat match goal with
         | Hc : Ascii.eqb (tolower ?c) _ = true |- _ =>
             first [ apply tolower_is_a in Hc | apply tolower_is_t in Hc
                   | apply tolower_is_s in Hc | apply tolower_is_f in Hc
                   | apply tolower_is_p in Hc | apply tolower_is_b in Hc ];
             destruct Hc; subst c
         end.

Lemma elm_dispatch_STFPA x line g :
  is_cmd_prefix line "STFPA" \/ is_cmd_prefix line "STFAP" ->
  elm_dispatch x line g
  = st_add_pass (skip_spaces line) (advance 2 (skip_spaces line)) g.
Proof.
  unfold is_cmd_prefix. rewrite elm_dispatch_skip_spaces.
  generalize (skip_spaces line). cbn [String.length].
  intros s [H|H]; spell_st H; destruct s; reflexivity.
Qed.

Lemma elm_dispatch_STFBA x line g :
  is_cmd_prefix line "STFBA" \/ is_cmd_prefix line "STFAB" ->
  elm_dispatch x line g
  = st_add_block (skip_spaces line) (advance 2 (skip_spaces line)) g.
Proof.
  unfold is_cmd_prefix. rewrite elm_dispatch_skip_spaces.
  generalize (skip_spaces line). cbn [String.length].
  intros s [H|H]; spell_st H; destruct s; reflexivity.
Qed.

(** X5.  Dispatching STFPA (or STFAP, in any letter case) with
    well-formed arguments [pattern, mask], a mask other than 0 and room
    in the pass table answers OK, appends the rule to the pass table and
    leaves the block table and the AT rule alone.  Afterwards an
    identifier is accepted exactly when it is not 0, the AT rule matches
    it, it matches one of the pass rules stored before or the new rule,
    and no block rule matches it.  So the first pass rule turns an open
    pass stage into one that lets only matching identifiers through, and
    every further pass rule can only let more identifiers through. *)
Theorem stfpa_then_filter_test (x : extern) (line : string) (p m : Z)
  (g : elm_globals_t) (id us : Z)
  (Hcmd : is_cmd_prefix line "STFPA" \/ is_cmd_prefix line "STFAP")
  (Hargs : st_args line = Some (p, m))
  (Hinv : tables_inv g) (Hm : m <> 0)
  (Hroom : (List.length (stored_rules (pass_filter g)) < 100)%nat) :
  let g' := fst (elm_dispatch x line g) in
  output (snd (elm_dispatch x line g)) = (ELM_OK_PROMPT ++ ELM_NEWLINE g)%string /\
  stored_rules (pass_filter g')
  = stored_rules (pass_filter g) ++ [mk_filter p m] /\
  block_filter g' = block_filter g /\
  elm_filter g' = elm_filter g /\
  (elm_filter_test g' id us = true <->
   id <> 0 /\ rule_matches id (elm_filter g) /\
   (Exists (rule_matches id) (stored_rules (pass_filter g))
    \/ rule_matches id (mk_filter p m)) /\
   ~ Exists (rule_matches id) (stored_rules (block_filter g))) /\
  (stored_rules (pass_filter g) <> [] ->
   elm_filter_test g id us = true -> elm_filter_test g' id us = true).
Proof.
  cbv zeta. rewrite (@elm_dispatch_STFPA x line g Hcmd).
  unfold st_args in Hargs. destruct Hinv as [Hp Hb].
  destruct (@elm_filter_add_stored (pass_filter g) p m Hp) as (Hcap & _ & Hok).
  assert (Hs : snd (elm_filter_add (pass_filter g) p m) = true)
    by (apply Hcap; exact Hroom).
  specialize (Hok Hs). rewrite (proj2 (Z.eqb_neq _ _) Hm) in Hok.
  unfold st_add_pass. rewrite Hargs. unfold seq, assign. cbn [fst snd app].
  rewrite Hs.
  assert (Hst : stored_rules
                  (pass_filter
                     (fst (elm_write_ok
                             (set_pass_filter
                                (fst (elm_filter_add (pass_filter g) p m)) g))))
                = stored_rules (pass_filter g) ++ [mk_filter p m]).
  { exact Hok. }
  split.
  { unfold elm_write_ok, seq, elm_newline, printf, emit.
    cbn [fst snd app output]. rewrite string_app_nil_r. reflexivity. }
  split; [exact Hst|].
  split; [reflexivity|]. split; [reflexivity|].
  pose proof (fun g0 => elm_filter_test_iff g0 id us) as Htest.
  split.
  - rewrite Htest, Hst. cbn [elm_filter block_filter elm_write_ok].
    change (elm_filter (fst (elm_write_ok
              (set_pass_filter (fst (elm_filter_add (pass_filter g) p m)) g))))
      with (elm_filter g).
    change (block_filter (fst (elm_write_ok
              (set_pass_filter (fst (elm_filter_add (pass_filter g) p m)) g))))
      with (block_filter g).
    rewrite Exists_app.
    assert (Hone : Exists (rule_matches id) [mk_filter p m]
                   <-> rule_matches id (mk_filter p m)).
    { split; [intros H; inversion H; subst; auto; inversion H1
             | intros H; now constructor]. }
    rewrite Hone.
    assert (Hne : stored_rules (pass_filter g) ++ [mk_filter p m] <> [])
      by (destruct (stored_rules (pass_filter g)); discriminate).
    tauto.
  - intros Hne Hold. apply Htest in Hold. apply Htest.
    rewrite Hst.
    change (elm_filter (fst (elm_write_ok
              (set_pass_filter (fst (elm_filter_add (pass_filter g) p m)) g))))
      with (elm_filter g).
    change (block_filter (fst (elm_write_ok
              (set_pass_filter (fst (elm_filter_add (pass_filter g) p m)) g))))
      with (block_filter g).
    rewrite Exists_app. tauto.
Qed.

Lemma stfpa_then_filter_test_witness :
  let g := elm_init EmptyString in
  let line := " stfpa 7E8,7FF" in
  (is_cmd_prefix line "STFPA" \/ is_cmd_prefix line "STFAP") /\
  st_args line = Some (2024, 2047) /\ tables_inv g /\
  stored_rules (pass_filter (fst (elm_dispatch extern_ok line g)))
  = [mk_filter 2024 2047] /\
  (elm_filter_test (fst (elm_dispatch extern_ok line g)) 2024 0 = true <->
   2024 <> 0 /\ rule_matches 2024 (elm_filter g) /\
   (Exists (rule_matches 2024) (stored_rules (pass_filter g))
    \/ rule_matches 2024 (mk_filter 2024 2047)) /\
   ~ Exists (rule_matches 2024) (stored_rules (block_filter g))).
Proof.
  cbv zeta.
  assert (Hcmd : is_cmd_prefix " stfpa 7E8,7FF" "STFPA"
                 \/ is_cmd_prefix " stfpa 7E8,7FF" "STFAP")
    by (left; reflexivity).
  assert (Hargs : st_args " stfpa 7E8,7FF" = Some (2024, 2047))
    by (vm_compute; reflexivity).
  assert (Hinv : tables_inv (elm_init EmptyString))
    by apply tables_inv_elm_init.
  assert (Hm : 2047 <> 0) by lia.
  assert (Hroom : (List.length (stored_rules (pass_filter (elm_init EmptyString)))
                   < 100)%nat).
  { unfold elm_init. rewrite pass_filter_elm_reset, elm_filter_clear_stored.
    cbn. lia. }
  split; [exact Hcmd|]. split; [exact Hargs|]. split; [exact Hinv|].
  destruct (@stfpa_then_filter_test extern_ok " stfpa 7E8,7FF" 2024 2047
              (elm_init EmptyString) 2024 0 Hcmd Hargs Hinv Hm Hroom)
    as (_ & Hst & _ & _ & Hiff & _).
  split; [|exact Hiff].
  rewrite Hst. unfold elm_init.
  rewrite pass_filter_elm_reset, elm_filter_clear_stored. reflexivity.
Defined.

(** X6.  Dispatching STFBA (or STFAB, in any letter case) with
    well-formed arguments [pattern, mask], a mask other than 0 and room
    in the block table answers OK, appends the rule to the block table
    and leaves the pass table and the AT rule alone.  Afterwards an
    identifier is accepted exactly when it was accepted before and the
    new rule does not match it.  A block rule never lets a further
    identifier through. *)
Theorem stfba_then_filter_test (x : extern) (line : string) (p m : Z)
  (g : elm_globals_t) (id us : Z)
  (Hcmd : is_cmd_prefix line "STFBA" \/ is_cmd_prefix line "STFAB")
  (Hargs : st_args line = Some (p, m))
  (Hinv : tables_inv g) (Hm : m <> 0)
  (Hroom : (List.length (stored_rules (block_filter g)) < 100)%nat) :
  let g' := fst (elm_dispatch x line g) in
  output (snd (elm_dispatch x line g)) = (ELM_OK_PROMPT ++ ELM_NEWLINE g)%string /\
  stored_rules (block_filter g')
  = stored_rules (block_filter g) ++ [mk_filter p m] /\
  pass_filter g' = pass_filter g /\
  elm_filter g' = elm_filter g /\
  (elm_filter_test g' id us = true <->
   elm_filter_test g id us = true /\ ~ rule_matches id (mk_filter p m)).
Proof.
  cbv zeta. rewrite (@elm_dispatch_STFBA x line g Hcmd).
  unfold st_args in Hargs. destruct Hinv as [Hp Hb].
  destruct (@elm_filter_add_stored (block_filter g) p m Hb) as (Hcap & _ & Hok).
  assert (Hs : snd (elm_filter_add (block_filter g) p m) = true)
    by (apply Hcap; exact Hroom).
  specialize (Hok Hs). rewrite (proj2 (Z.eqb_neq _ _) Hm) in Hok.
  unfold st_add_block. rewrite Hargs. unfold seq, assign. cbn [fst snd app].
  rewrite Hs.
  assert (Hst : stored_rules
                  (block_filter
                     (fst (elm_write_ok
                             (set_block_filter
                                (fst (elm_filter_add (block_filter g) p m)) g))))
                = stored_rules (block_filter g) ++ [mk_filter p m]).
  { exact Hok. }
  split.
  { unfold elm_write_ok, seq, elm_newline, printf, emit.
    cbn [fst snd app output]. rewrite string_app_nil_r. reflexivity. }
  split; [exact Hst|].
  split; [reflexivity|]. split; [reflexivity|].
  rewrite !elm_filter_test_iff, Hst.
  change (elm_filter (fst (elm_write_ok
            (set_block_filter (fst (elm_filter_add (block_filter g) p m)) g))))
    with (elm_filter g).
  change (pass_filter (fst (elm_write_ok
            (set_block_filter (fst (elm_filter_add (block_filter g) p m)) g))))
    with (pass_filter g).
  rewrite Exists_app.
  assert (Hone : Exists (rule_matches id) [mk_filter p m]
                 <-> rule_matches id (mk_filter p m)).
  { split; [intros H; inversion H; subst; auto; inversion H1
           | intros H; now constructor]. }
  rewrite Hone. tauto.
Qed.

Lemma stfba_then_filter_test_witness :
  let g := elm_init EmptyString in
  let line := "STFAB 100 , 700" in
  (is_cmd_prefix line "STFBA" \/ is_cmd_prefix line "STFAB") /\
  st_args line = Some (256, 1792) /\ tables_inv g /\
  stored_rules (block_filter (fst (elm_dispatch extern_ok line g)))
  = [mk_filter 256 1792] /\
  (elm_filter_test (fst (elm_dispatch extern_ok line g)) 306 0 = true <->
   elm_filter_test g 306 0 = true /\ ~ rule_matches 306 (mk_filter 256 1792)).
Proof.
  cbv zeta.
  assert (Hcmd : is_cmd_prefix "STFAB 100 , 700" "STFBA"
                 \/ is_cmd_prefix "STFAB 100 , 700" "STFAB")
    by (right; reflexivity).
  assert (Hargs : st_args "STFAB 100 , 700" = Some (256, 1792))
    by (vm_compute; reflexivity).
  assert (Hinv : tables_inv (elm_init EmptyString))
    by apply tables_inv_elm_init.
  assert (Hm : 1792 <> 0) by lia.
  assert (Hroom : (List.length (stored_rules (block_filter (elm_init EmptyString)))
                   < 100)%nat).
  { unfold elm_init. rewrite block_filter_elm_reset, elm_filter_clear_stored.
    cbn. lia. }
  split; [exact Hcmd|]. split; [exact Hargs|]. split; [exact Hinv|].
  destruct (@stfba_then_filter_test extern_ok "STFAB 100 , 700" 256 1792
              (elm_init EmptyString) 306 0 Hcmd Hargs Hinv Hm Hroom)
    as (_ & Hst & _ & _ & Hiff).
  split; [|exact Hiff].
  rewrite Hst. unfold elm_init.
  rewrite block_filter_elm_reset, elm_filter_clear_stored. reflexivity.
Defined.
(** ** The session loop *)


Lemma drop_last_length s : (String.length (drop_last s) <= String.length s)%nat.
Proof.
  induction s as [|a s IH]; cbn; [lia|].
  destruct s; cbn in *; lia.
Qed.

Lemma elm_do_cmd_previous_bound x line g n :
  (String.length line <= n)%nat ->
  (String.length (elm_previous_cmd g) <= n)%nat ->
  (String.length (elm_previous_cmd (fst (elm_do_cmd x line g))) <= n)%nat.
Proof.
  intros Hl Hp. unfold elm_do_cmd. destruct (str_is_empty line).
  - destruct (elm_dispatch_prev_effect (elm_previous_cmd g)) as [b Hb].
    rewrite (Hb x). destruct b; cbn; lia.
  - destruct (elm_dispatch_prev_effect line) as [b Hb].
    rewrite (Hb x). destruct b; cbn; lia.
Qed.

(** A pass of the loop keeps the two buffers within their bounds. *)
Lemma elm_do_step_fit x c g line g' line' ev :
  buffers_fit g line ->
  elm_do_step x c g line = Pass_next g' line' ev ->
  buffers_fit g' line'.
Proof.
  unfold buffers_fit, ELM_BUFFER_LEN. intros [Hl Hp].
  unfold elm_do_step, ELM_BUFFER_LEN. destruct c as [c|]; [|discriminate].
  destruct (Ascii.eqb c NUL). { intros H; injection H as <- <- <-. lia. }
  destruct (Ascii.eqb c EOT); [discriminate|].
  match goal with
  | |- context [if elm_monitor g then ?a else ?b] =>
      set (r := if elm_monitor g then a else b)
  end.
  assert (Hr : elm_previous_cmd (fst (fst r)) = elm_previous_cmd g).
  { unfold r. destruct (elm_monitor g); cbn [fst];
      [apply elm_monitor_stop_previous | reflexivity]. }
  destruct (snd r); cbn [negb]; [|discriminate].
  destruct (Ascii.eqb c BS || Ascii.eqb c DEL).
  { destruct (0 <? String.length line)%nat; intros H; injection H as <- <- <-;
      rewrite Hr; [pose proof (drop_last_length line)|]; lia. }
  destruct (Ascii.eqb c CR).
  { intros H. injection H as <- <- <-. split; [cbn; lia|].
    unfold seq, elm_newline, printf, emit. cbn [fst snd].
    match goal with
    | |- context [if ?b then _ else _] => destruct b
    end; cbn [fst elm_write_prompt skip printf emit];
      (apply Nat.lt_succ_r; apply elm_do_cmd_previous_bound;
       [lia | rewrite Hr; lia]). }
  destruct (Ascii.eqb c LF).
  { intros H; injection H as <- <- <-. rewrite Hr. lia. }
  destruct (nat_of_ascii c <? nat_of_ascii " ")%nat.
  { intros H; injection H as <- <- <-. rewrite Hr. lia. }
  destruct (Nat.leb_spec (128 - 1) (String.length line)) as [Hfull|Hroom].
  { intros H; injection H as <- <- <-. rewrite Hr. lia. }
  intros H; injection H as <- <- <-.
  rewrite Hr, string_length_app. cbn [String.length]. lia.
Qed.

(** A pass that waits in [elm_monitor_stop] has not touched them. *)
Lemma elm_do_step_blocked_fit x c g line g' ev :
  buffers_fit g line ->
  elm_do_step x c g line = Pass_blocked g' ev ->
  buffers_fit g' line.
Proof.
  unfold buffers_fit. intros [Hl Hp].
  unfold elm_do_step. destruct c as [c|]; [|discriminate].
  destruct (Ascii.eqb c NUL); [discriminate|].
  destruct (Ascii.eqb c EOT); [discriminate|].
  match goal with
  | |- context [if elm_monitor g then ?a else ?b] =>
      set (r := if elm_monitor g then a else b)
  end.
  assert (Hr : elm_previous_cmd (fst (fst r)) = elm_previous_cmd g).
  { unfold r. destruct (elm_monitor g); cbn [fst];
      [apply elm_monitor_stop_previous | reflexivity]. }
  destruct (snd r); cbn [negb].
  - repeat match goal with
           | |- context [if ?b then _ else _] => destruct b
           end; discriminate.
  - intros H. injection H as <- <-. rewrite Hr. auto.
Qed.

Lemma elm_do_loop_fit x : forall input g line,
  buffers_fit g line ->
  match elm_do_loop x input g line with
  | (g', line', _, _) => buffers_fit g' line'
  end.
Proof.
  induction input as [|c rest IH]; intros g line H; cbn [elm_do_loop]; auto.
  destruct (elm_do_step x c g line) as [g1 l1 ev1|ev1|g1 ev1] eqn:E; auto.
  - pose proof (@elm_do_step_fit x c g line g1 l1 ev1 H E) as H1.
    specialize (IH g1 l1 H1).
    destruct (elm_do_loop x rest g1 l1) as [[[g2 l2] ev2] e2]. exact IH.
  - apply (@elm_do_step_blocked_fit x c g line g1 ev1 H E).
Qed.

(** X7.  The two 128 byte buffers of a session never overflow.  Whatever
    bytes the session stream delivers, the line buffer of [elm_do] holds
    at most 127 characters, so the line handed to [elm_do_cmd] fits, with
    its terminating NUL, and so does the copy kept as previous command:
    each pass of the loop keeps both within bounds, and they are so from
    the first prompt on. *)
Theorem elm_do_buffers_bounded (x : extern) (tag : string)
  (input : list (option ascii)) :
  (forall c g line g' line' ev,
     buffers_fit g line ->
     elm_do_step x c g line = Pass_next g' line' ev ->
     buffers_fit g' line') /\
  match elm_do x tag input with
  | (g, line, _, _) =>
      (String.length line <= 127)%nat /\
      (String.length (elm_previous_cmd g) <= 127)%nat
  end.
Proof.
  split; [intros c g line g' line' ev; apply elm_do_step_fit|].
  unfold elm_do.
  assert (H0 : buffers_fit (elm_reset (elm_globals_zero tag)) EmptyString).
  { split; cbn; unfold ELM_BUFFER_LEN; lia. }
  pose proof (@elm_do_loop_fit x input _ _ H0) as H.
  destruct (elm_do_loop x input (elm_reset (elm_globals_zero tag)) EmptyString)
    as [[[g1 l1] ev1] e1].
  destruct H as [Hl Hp]. unfold ELM_BUFFER_LEN in *.
  cbn [fst snd]. split; [lia|].
  destruct e1; [rewrite elm_monitor_stop_previous|]; cbn [fst]; lia.
Qed.

(** *** Typing a line *)






(** *** A byte received while monitoring *)






(** ** A run of the receive task *)

(** [can_task_receive], case by case. *)
Lemma can_task_receive_cases rx_msg ts st :
  can_task_receive rx_msg ts st
  = match index_of (identifier rx_msg) can_id with
    | Some k =>
        if u32 (ts - nth k (can_id_last_us st) 0) >=? can_id_delay_us
        then (true,
              mk_can_state
                (_can_raise (mk_can_message_timestamp rx_msg ts)
                   (can_rx_ringbuf st))
                (array_set (can_id_last_us st) k (u32 ts)))
        else (false, st)
    | None => (false, st)
    end.
Proof.
  unfold can_task_receive. rewrite _can_filter_id_char.
  destruct (index_of (identifier rx_msg) can_id) as [k|];
    [|cbn [fst snd]; now rewrite can_state_eta].
  rewrite u32_sub_u32_l.
  destruct (u32 (ts - nth k (can_id_last_us st) 0) >=? can_id_delay_us);
    cbn [fst snd]; [reflexivity | now rewrite can_state_eta].
Qed.

Lemma can_task_receive_length rx_msg ts st :
  List.length (can_id_last_us (snd (can_task_receive rx_msg ts st)))
  = List.length (can_id_last_us st).
Proof.
  rewrite can_task_receive_cases.
  destruct (index_of (identifier rx_msg) can_id) as [k|]; [|reflexivity].
  destruct (_ >=? _); cbn [snd can_id_last_us]; [|reflexivity].
  apply array_set_length.
Qed.

Lemma offered_nil b : offered [] b = b.
Proof.
  destruct b as [[n q]|]; cbn; [|reflexivity].
  now rewrite firstn_nil, app_nil_r.
Qed.

Lemma _can_raise_offered m bufs :
  _can_raise m bufs = map (offered [m]) bufs.
Proof.
  unfold _can_raise. apply map_ext. intros [[n q]|]; [|reflexivity].
  unfold offered, msg_ringbuf_send. cbn [rb_items rb_queue].
  destruct (Nat.ltb_spec (List.length q) n) as [Hlt|Hge]; cbn [fst].
  - destruct (n - List.length q)%nat eqn:E; [lia|].
    cbn [firstn]. now rewrite firstn_nil.
  - replace (n - List.length q)%nat with 0%nat by lia.
    cbn. now rewrite app_nil_r.
Qed.

Lemma offered_app l1 l2 b : offered l2 (offered l1 b) = offered (l1 ++ l2) b.
Proof.
  destruct b as [[n q]|]; cbn [offered rb_items rb_queue]; [|reflexivity].
  f_equal. f_equal. rewrite <- app_assoc. f_equal.
  rewrite firstn_app, length_app, length_firstn. f_equal.
  destruct (Nat.le_gt_cases (n - List.length q) (List.length l1)) as [H|H].
  - rewrite Nat.min_l by exact H.
    replace (n - (List.length q + (n - List.length q)))%nat with 0%nat by lia.
    replace (n - List.length q - List.length l1)%nat with 0%nat by lia.
    reflexivity.
  - rewrite Nat.min_r by lia. f_equal. lia.
Qed.

Lemma can_task_receive_offered rx_msg ts st :
  can_rx_ringbuf (snd (can_task_receive rx_msg ts st))
  = map (offered (if fst (can_task_receive rx_msg ts st)
                  then [mk_can_message_timestamp rx_msg ts] else []))
      (can_rx_ringbuf st).
Proof.
  rewrite can_task_receive_cases.
  assert (Hid : map (offered []) (can_rx_ringbuf st) = can_rx_ringbuf st).
  { rewrite <- (map_id (can_rx_ringbuf st)) at 2.
    apply map_ext. apply offered_nil. }
  destruct (index_of (identifier rx_msg) can_id) as [k|];
    [|cbn [fst snd]; now rewrite Hid].
  destruct (_ >=? _); cbn [fst snd can_rx_ringbuf];
    [apply _can_raise_offered | now rewrite Hid].
Qed.

(** X10.  Fan-out.  Over a run of [can_task], every subscription is
    offered the same frames, those the rate limiter lets through, in the
    order of their arrival, and takes them for as long as its queue has
    room; a frame that finds a queue full is lost for that subscription
    only.  What one subscription receives does not depend on the others,
    and a free slot of [can_rx_ringbuf] stays free. *)
Theorem can_task_fan_out (stat_us : Z) (passes : list can_rx) (st : can_state) :
  can_rx_ringbuf (fst (can_task_loop stat_us passes st))
  = map (offered (can_task_forwarded stat_us passes st)) (can_rx_ringbuf st).
Proof.
  assert (Hid : forall bufs, map (offered []) bufs = bufs).
  { intros bufs. rewrite <- (map_id bufs) at 2.
    apply map_ext. apply offered_nil. }
  assert (Hcomp : forall l1 l2 bufs,
             map (offered l2) (map (offered l1) bufs)
             = map (offered (l1 ++ l2)) bufs).
  { intros l1 l2 bufs. rewrite map_map. apply map_ext.
    intros b. apply offered_app. }
  revert stat_us st.
  induction passes as [|k rest IH]; intros stat_us st;
    cbn [can_task_loop can_task_forwarded fst]; [now rewrite Hid|].
  destruct (rx_frame k) as [rx_msg|]; [|cbn [fst]; now rewrite Hid].
  cbv zeta.
  pose proof (can_task_receive_offered rx_msg (rx_time k) st) as Hrx.
  destruct (u32 (u32 (rx_time k) - stat_us) >=? 10 * 1000000).
  - destruct (rx_not_running k); cbn [fst]; [exact Hrx|].
    rewrite IH, Hrx. apply Hcomp.
  - rewrite IH, Hrx. apply Hcomp.
Qed.

(** *** The rate limit over a run *)

Lemma can_task_receive_forwarded rx_msg ts st :
  fst (can_task_receive rx_msg ts st) = true ->
  exists k,
    index_of (identifier rx_msg) can_id = Some k /\
    can_id_delay_us <= u32 (ts - nth k (can_id_last_us st) 0) /\
    can_id_last_us (snd (can_task_receive rx_msg ts st))
    = array_set (can_id_last_us st) k (u32 ts).
Proof.
  rewrite can_task_receive_cases.
  destruct (index_of (identifier rx_msg) can_id) as [k|]; [|discriminate].
  destruct (Z.geb_spec (u32 (ts - nth k (can_id_last_us st) 0)) can_id_delay_us);
    [|discriminate].
  intros _. exists k. repeat split. lia.
Qed.

Lemma can_task_receive_dropped rx_msg ts st :
  fst (can_task_receive rx_msg ts st) = false ->
  snd (can_task_receive rx_msg ts st) = st.
Proof.
  rewrite can_task_receive_cases.
  destruct (index_of (identifier rx_msg) can_id) as [k|]; [|reflexivity].
  destruct (_ >=? _); [discriminate | reflexivity].
Qed.

(** The frames forwarded by the run that follows one pass. *)
Lemma can_task_forwarded_cons stat_us k rest st rx_msg :
  rx_frame k = Some rx_msg ->
  exists stat_us' tail,
    can_task_forwarded stat_us (k :: rest) st
    = (if fst (can_task_receive rx_msg (rx_time k) st)
       then [mk_can_message_timestamp rx_msg (rx_time k)] else [])
      ++ tail /\
    (tail = [] \/
     tail = can_task_forwarded stat_us' rest
              (snd (can_task_receive rx_msg (rx_time k) st))).
Proof.
  intros E. cbn [can_task_forwarded]. rewrite E. cbv zeta.
  destruct (u32 (u32 (rx_time k) - stat_us) >=? 10 * 1000000).
  - destruct (rx_not_running k).
    + exists stat_us, []. rewrite app_nil_r. auto.
    + exists (u32 (rx_time k)). eexists. split; [reflexivity | auto].
  - exists stat_us. eexists. split; [reflexivity | auto].
Qed.

(** Every forwarded frame has an identifier of the allow-list. *)
Lemma can_task_forwarded_allowed : forall passes stat_us st m,
  In m (can_task_forwarded stat_us passes st) ->
  In (identifier (msg m)) can_id.
Proof.
  induction passes as [|k rest IH]; intros stat_us st m Hin; [elim Hin|].
  destruct (rx_frame k) as [rx_msg|] eqn:E;
    [|cbn [can_task_forwarded] in Hin; rewrite E in Hin; elim Hin].
  destruct (@can_task_forwarded_cons stat_us k rest st rx_msg E)
    as (stat' & tail & Heq & Htail).
  rewrite Heq in Hin. apply in_app_or in Hin. destruct Hin as [Hin|Hin].
  - destruct (fst (can_task_receive rx_msg (rx_time k) st)) eqn:F;
      [|elim Hin].
    destruct Hin as [<-|[]]. cbn [msg].
    destruct (can_task_receive_forwarded _ _ _ F) as (i & Hi & _).
    now apply index_of_in with i.
  - destruct Htail as [->| ->]; [elim Hin|]. now apply IH in Hin.
Qed.

(** The first frame of an identifier that a run forwards comes at least
    the minimum interval, in 32 bit time, after the table entry of the
    identifier. *)
Lemma can_task_forwarded_first : forall passes stat_us st l2 b l3,
  List.length (can_id_last_us st) = can_id_count ->
  can_task_forwarded stat_us passes st = l2 ++ b :: l3 ->
  (forall c, In c l2 -> identifier (msg c) <> identifier (msg b)) ->
  can_id_delay_us
  <= u32 (timestamp b - last_forwarded (can_id_last_us st) (identifier (msg b))).
Proof.
  induction passes as [|k rest IH]; intros stat_us st l2 b l3 Hwf Hfw Hl2.
  { destruct l2; discriminate. }
  destruct (rx_frame k) as [rx_msg|] eqn:E;
    [|cbn [can_task_forwarded] in Hfw; rewrite E in Hfw;
      destruct l2; discriminate].
  destruct (@can_task_forwarded_cons stat_us k rest st rx_msg E)
    as (stat' & tail & Heq & Htail).
  rewrite Heq in Hfw.
  destruct (fst (can_task_receive rx_msg (rx_time k) st)) eqn:F.
  - destruct (can_task_receive_forwarded _ _ _ F) as (i & Hi & Hd & Hlast).
    destruct l2 as [|c l2]; cbn [app] in Hfw.
    + injection Hfw as <- _. cbn [msg timestamp].
      unfold last_forwarded. now rewrite Hi.
    + injection Hfw as <- Hfw.
      destruct Htail as [->| ->]; [destruct l2; discriminate|].
      assert (Hne : identifier (msg b) <> identifier rx_msg).
      { intros Heq'. apply (Hl2 (mk_can_message_timestamp rx_msg (rx_time k)));
          [now left | now symmetry]. }
      rewrite <- (@last_forwarded_set_other (can_id_last_us st)
                    (identifier rx_msg) (identifier (msg b)) i
                    (u32 (rx_time k)) Hi Hne).
      rewrite <- Hlast.
      apply (IH stat' _ l2 b l3); auto.
      * now rewrite can_task_receive_length.
      * intros c Hc. apply Hl2. now right.
  - cbn [app] in Hfw.
    destruct Htail as [->| ->]; [destruct l2; discriminate|].
    rewrite (can_task_receive_dropped _ _ _ F) in Hfw.
    apply (IH stat' st l2 b l3); auto.
Qed.

(** X11.  The rate limit over a run.  Whatever arrives, the frames a
    run of [can_task] forwards have identifiers of the allow-list, and
    between two frames of one identifier forwarded one after the other
    at least [1000000 / 11 = 90909] microseconds lie in 32 bit timer
    arithmetic; when the timer values of the two are less than [2^32]
    microseconds apart, that is their real distance.  So no identifier
    reaches the subscribers more than eleven times a second. *)
Theorem can_task_rate_limited (stat_us : Z) (passes : list can_rx)
  (st : can_state)
  (Hwf : List.length (can_id_last_us st) = can_id_count) :
  let fw := can_task_forwarded stat_us passes st in
  (forall m, In m fw -> In (identifier (msg m)) can_id) /\
  (forall l1 a l2 b l3,
     fw = l1 ++ a :: l2 ++ b :: l3 ->
     identifier (msg b) = identifier (msg a) ->
     (forall c, In c l2 -> identifier (msg c) <> identifier (msg a)) ->
     90909 <= u32 (timestamp b - timestamp a) /\
     (0 <= timestamp b - timestamp a < 2 ^ 32 ->
      90909 <= timestamp b - timestamp a)).
Proof.
  cbv zeta. split; [intros m; apply can_task_forwarded_allowed|].
  revert stat_us st Hwf.
  induction passes as [|k rest IH]; intros stat_us st Hwf l1 a l2 b l3 Hfw Hid Hl2.
  { destruct l1; discriminate. }
  assert (Hgoal : 90909 <= u32 (timestamp b - timestamp a)).
  2:{ split; [exact Hgoal|]. intros Hd. now rewrite u32_small in Hgoal. }
  destruct (rx_frame k) as [rx_msg|] eqn:E;
    [|cbn [can_task_forwarded] in Hfw; rewrite E in Hfw;
      destruct l1; discriminate].
  destruct (@can_task_forwarded_cons stat_us k rest st rx_msg E)
    as (stat' & tail & Heq & Htail).
  rewrite Heq in Hfw.
  assert (Hwf' : List.length
                   (can_id_last_us (snd (can_task_receive rx_msg (rx_time k) st)))
                 = can_id_count) by now rewrite can_task_receive_length.
  destruct (fst (can_task_receive rx_msg (rx_time k) st)) eqn:F.
  - destruct (can_task_receive_forwarded _ _ _ F) as (i & Hi & Hd & Hlast).
    destruct l1 as [|c l1]; cbn [app] in Hfw.
    + injection Hfw as <- Hfw.
      destruct Htail as [->| ->]; [destruct l2; discriminate|].
      cbn [msg timestamp] in *.
      pose proof (@can_task_forwarded_first rest stat' _ l2 b l3 Hwf'
                    Hfw) as Hfirst.
      rewrite Hid in Hfirst. specialize (Hfirst Hl2).
      rewrite Hlast in Hfirst.
      rewrite (@last_forwarded_set (can_id_last_us st) (identifier rx_msg)
                 i (u32 (rx_time k)) Hi) in Hfirst.
      2:{ apply index_of_some in Hi. destruct Hi as [Hi _].
          fold can_id_count in Hi. lia. }
      replace (u32 (timestamp b - rx_time k))
        with (u32 (timestamp b - u32 (rx_time k))); [exact Hfirst|].
      unfold u32. now rewrite Zminus_mod_idemp_r.
    + injection Hfw as _ Hfw.
      destruct Htail as [->| ->]; [destruct l1; discriminate|].
      destruct (IH stat' _ Hwf' l1 a l2 b l3 Hfw Hid Hl2) as [H _].
      exact H.
  - cbn [app] in Hfw.
    destruct Htail as [->| ->]; [destruct l1; discriminate|].
    destruct (IH stat' _ Hwf' l1 a l2 b l3 Hfw Hid Hl2) as [H _].
    exact H.
Qed.

Lemma can_task_rate_limited_witness :
  let f := mk_can_message 306 8 [64; 156; 226; 255; 0; 0; 255; 15] in
  let passes := [mk_can_rx (Some f) 200000 false;
                 mk_can_rx (Some f) 250000 false;
                 mk_can_rx (Some f) 300000 false] in
  List.length (can_id_last_us can_state_init) = can_id_count /\
  can_task_forwarded 0 passes can_state_init
  = [mk_can_message_timestamp f 200000; mk_can_message_timestamp f 300000] /\
  90909 <= u32 (300000 - 200000).
Proof.
  cbv zeta.
  assert (Hwf : List.length (can_id_last_us can_state_init) = can_id_count)
    by reflexivity.
  split; [exact Hwf|].
  set (f := mk_can_message 306 8 [64; 156; 226; 255; 0; 0; 255; 15]).
  set (passes := [mk_can_rx (Some f) 200000 false;
                  mk_can_rx (Some f) 250000 false;
                  mk_can_rx (Some f) 300000 false]).
  assert (Hfw : can_task_forwarded 0 passes can_state_init
                = [] ++ mk_can_message_timestamp f 200000
                   :: [] ++ mk_can_message_timestamp f 300000 :: [])
    by (vm_compute; reflexivity).
  split; [exact Hfw|].
  destruct (@can_task_rate_limited 0 passes can_state_init Hwf) as (_ & H).
  destruct (H [] _ [] _ [] Hfw eq_refl) as (H1 & _); [intros c []|].
  exact H1.
Defined.

(** ** Subscriptions *)

Lemma array_set_twice (A : Type) (v w : A) : forall (l : list A) (i : nat),
  array_set (array_set l i v) i w = array_set l i w.
Proof.
  induction l as [|x l IH]; intros [|i]; cbn; auto. now rewrite IH.
Qed.

Lemma array_set_nth (A : Type) (d : A) : forall (l : list A) (i : nat),
  array_set l i (nth i l d) = l.
Proof.
  induction l as [|x l IH]; intros [|i]; cbn; auto. now rewrite IH.
Qed.

Lemma handle_eqb_eq a b : handle_eqb a b = true <-> a = b.
Proof.
  destruct a as [x|], b as [y|]; cbn; try (split; congruence).
  rewrite Z.eqb_eq. split; congruence.
Qed.

(** [can_ringbuf_new] stores the handle in the lowest free slot among
    those it scans, or finds them all in use. *)
Lemma can_ringbuf_new_loop_char created handles : forall n i,
  (exists k, (i <= k < i + n)%nat /\ nth k handles None = None /\
             (forall j, (i <= j < k)%nat -> nth j handles None <> None) /\
             can_ringbuf_new_loop n i created handles
             = (array_set handles k created, created))
  \/ ((forall j, (i <= j < i + n)%nat -> nth j handles None <> None) /\
      can_ringbuf_new_loop n i created handles = (handles, None)).
Proof.
  induction n as [|n IH]; intros i; cbn [can_ringbuf_new_loop].
  - right. split; [intros; lia | reflexivity].
  - destruct (nth i handles None) as [h|] eqn:E.
    + destruct (IH (S i)) as [(k & Hk & Hfree & Hocc & Heq)|(Hocc & Heq)].
      * left. exists k. repeat split; auto; try lia.
        intros j Hj. destruct (Nat.eq_dec j i) as [->|]; [congruence|].
        apply Hocc; lia.
      * right. split; auto.
        intros j Hj. destruct (Nat.eq_dec j i) as [->|]; [congruence|].
        apply Hocc; lia.
    + left. exists i. repeat split; auto; intros; lia.
Qed.

(** [can_ringbuf_del] clears the lowest slot that holds the handle, or
    finds it in none. *)
Lemma can_ringbuf_del_loop_char ringbuf handles : forall n i,
  (exists k, (i <= k < i + n)%nat /\ nth k handles None = ringbuf /\
             (forall j, (i <= j < k)%nat -> nth j handles None <> ringbuf) /\
             can_ringbuf_del_loop n i ringbuf handles
             = (array_set handles k None, true))
  \/ ((forall j, (i <= j < i + n)%nat -> nth j handles None <> ringbuf) /\
      can_ringbuf_del_loop n i ringbuf handles = (handles, false)).
Proof.
  induction n as [|n IH]; intros i; cbn [can_ringbuf_del_loop].
  - right. split; [intros; lia | reflexivity].
  - destruct (handle_eqb (nth i handles None) ringbuf) eqn:E.
    + apply handle_eqb_eq in E.
      left. exists i. repeat split; auto; intros; lia.
    + assert (Hne : nth i handles None <> ringbuf).
      { intros H. apply handle_eqb_eq in H. congruence. }
      destruct (IH (S i)) as [(k & Hk & Hfree & Hocc & Heq)|(Hocc & Heq)].
      * left. exists k. repeat split; auto; try lia.
        intros j Hj. destruct (Nat.eq_dec j i) as [->|]; [assumption|].
        apply Hocc; lia.
      * right. split; auto.
        intros j Hj. destruct (Nat.eq_dec j i) as [->|]; [assumption|].
        apply Hocc; lia.
Qed.

Lemma nth_not_in (A : Type) (d x : A) (l : list A) j :
  ~ In x l -> x <> d -> nth j l d <> x.
Proof.
  intros Hn Hd H. destruct (Nat.lt_ge_cases j (List.length l)) as [Hj|Hj].
  - apply Hn. rewrite <- H. now apply nth_In.
  - rewrite nth_overflow in H by exact Hj. congruence.
Qed.

(** X12.  The subscription table has [CAN_MAX_CB = 10] slots.  For a
    handle [h] that is not yet in the table: [can_ringbuf_new] stores it
    in the lowest free slot and returns it, leaving the other slots as
    they are, and [can_ringbuf_del] of it then gives the table back as
    it was; with no free slot [can_ringbuf_new] returns NULL and changes
    nothing, so there are never more than ten subscriptions.  Deleting a
    handle that is not in the table returns [false], deleting NULL
    returns [true], and neither changes the table. *)
Theorem can_ringbuf_new_del (handles : list (option Z)) (h : Z)
  (Hlen : List.length handles = CAN_MAX_CB)
  (Hfresh : ~ In (Some h) handles) :
  let r := can_ringbuf_new (Some h) handles in
  (In None handles ->
   snd r = Some h /\
   (exists k, (k < CAN_MAX_CB)%nat /\ nth k handles None = None /\
      (forall j, (j < k)%nat -> nth j handles None <> None) /\
      fst r = array_set handles k (Some h)) /\
   can_ringbuf_del (Some h) (fst r) = (handles, true)) /\
  (~ In None handles -> r = (handles, None)) /\
  can_ringbuf_del (Some h) handles = (handles, false) /\
  can_ringbuf_del None handles = (handles, true).
Proof.
  cbv zeta. unfold can_ringbuf_new.
  destruct (can_ringbuf_new_loop_char (Some h) handles CAN_MAX_CB 0)
    as [(k & Hk & Hfree & Hocc & Heq)|(Hocc & Heq)]; rewrite Heq;
    cbn [fst snd].
  - split.
    + intros _. split; [reflexivity|]. split.
      * exists k. repeat split; auto; try lia. intros j Hj. apply Hocc. lia.
      * unfold can_ringbuf_del.
        destruct (can_ringbuf_del_loop_char (Some h)
                    (array_set handles k (Some h)) CAN_MAX_CB 0)
          as [(k' & Hk' & Hat & Hbefore & Heq')|(Hnone & Heq')].
        -- assert (k' = k) as ->.
           { destruct (Nat.eq_dec k' k) as [|Hne]; auto. exfalso.
             rewrite nth_array_set_other in Hat by auto.
             revert Hat. apply nth_not_in; [assumption | discriminate]. }
           rewrite Heq', array_set_twice, <- Hfree, array_set_nth.
           reflexivity.
        -- exfalso. apply (Hnone k); [lia|].
           apply nth_array_set_same. rewrite Hlen. lia.
    + split.
      * intros Hn. exfalso. apply Hn. rewrite <- Hfree.
        apply nth_In. rewrite Hlen. lia.
      * split; [|reflexivity].
        unfold can_ringbuf_del.
        destruct (can_ringbuf_del_loop_char (Some h) handles CAN_MAX_CB 0)
          as [(k' & Hk' & Hat & _)|(_ & Heq')]; [|exact Heq'].
        exfalso. revert Hat. apply nth_not_in; [assumption | discriminate].
  - split.
    + intros Hin. exfalso.
      destruct (In_nth handles None None Hin) as (j & Hj & Hnth).
      apply (Hocc j); [lia | exact Hnth].
    + split; [reflexivity|]. split; [|reflexivity].
      unfold can_ringbuf_del.
      destruct (can_ringbuf_del_loop_char (Some h) handles CAN_MAX_CB 0)
        as [(k' & Hk' & Hat & _)|(_ & Heq')]; [|exact Heq'].
      exfalso. revert Hat. apply nth_not_in; [assumption | discriminate].
Qed.

Lemma can_ringbuf_new_del_witness :
  let handles := [Some 11; None; Some 13; None; None; None; None; None;
                  None; None] in
  List.length handles = CAN_MAX_CB /\ ~ In (Some 12) handles /\
  can_ringbuf_new (Some 12) handles
  = ([Some 11; Some 12; Some 13; None; None; None; None; None; None; None],
     Some 12) /\
  can_ringbuf_del (Some 12) (fst (can_ringbuf_new (Some 12) handles))
  = (handles, true).
Proof.
  cbv zeta.
  set (handles := [Some 11; None; Some 13; None; None; None; None; None;
                   None; None]).
  assert (Hlen : List.length handles = CAN_MAX_CB) by reflexivity.
  assert (Hfresh : ~ In (Some 12) handles).
  { cbn. intros H. repeat (destruct H as [H|H]; [discriminate H|]). exact H. }
  split; [exact Hlen|]. split; [exact Hfresh|].
  destruct (@can_ringbuf_new_del handles 12 Hlen Hfresh) as (Hnew & _).
  assert (Hin : In None handles) by (cbn; auto).
  destruct (Hnew Hin) as (_ & _ & Hdel).
  split; [reflexivity | exact Hdel].
Defined.

(** ** Runs of the transmit path *)

Lemma tx_effect_refl st tx :
  spp_tx_buffer st = Some tx -> tx_effect st st [] [].
Proof.
  intros H. exists tx, tx. repeat split; auto.
  cbn. now rewrite app_nil_r.
Qed.

Lemma tx_effect_trans st st1 st2 ev1 ev2 a1 a2 :
  tx_effect st st1 ev1 a1 -> tx_effect st1 st2 ev2 a2 ->
  tx_effect st st2 (ev1 ++ ev2) (a1 ++ a2).
Proof.
  intros (tx & tx1 & Ht & Ht1 & Hs1 & Hc1 & Hh1 & Hr1 & Hk1)
         (tx1' & tx2 & Ht1' & Ht2 & Hs2 & Hc2 & Hh2 & Hr2 & Hk2).
  rewrite Ht1 in Ht1'. injection Ht1' as <-.
  exists tx, tx2. repeat split; auto; try congruence.
  - rewrite handed_over_app, <- app_assoc, Hc2, !app_assoc. now rewrite Hc1.
  - apply Forall_app. split; [assumption|]. now rewrite <- Hh1.
Qed.

Lemma firstn_chunk (A : Type) (n : nat) (l : list A) :
  l <> [] -> (1 <= n)%nat -> (1 <= List.length (firstn n l) <= n)%nat.
Proof.
  intros Hl Hn. rewrite length_firstn.
  destruct l; [congruence|]. cbn [List.length]. lia.
Qed.

(** A drain step on an open connection, in full. *)
Lemma _write_effect w now handle st tx :
  handle = spp_handle st -> spp_tx_buffer st = Some tx ->
  exists st' ev,
    _write w now handle st = Some (st', ev) /\
    tx_effect st st' ev [] /\
    spp_tx_buffer_min_free st' = spp_tx_buffer_min_free st /\
    (rb_bytes tx = [] ->
     spp_writing st' = false /\ ev = [] /\ spp_tx_buffer st' = Some tx) /\
    (rb_bytes tx <> [] ->
     spp_writing st' = spp_writing st /\
     ev = [Call_esp_spp_write handle
             (firstn BT_SPP_DATA_MAX_SIZE (rb_bytes tx))] /\
     spp_tx_buffer st'
     = Some (mk_byte_ringbuf (rb_size tx)
               (skipn BT_SPP_DATA_MAX_SIZE (rb_bytes tx)))).
Proof.
  intros Hh Htx. unfold _write. rewrite Hh, Z.eqb_refl, Htx. cbn [negb].
  unfold xRingbufferReceiveUpTo.
  destruct (rb_bytes tx) as [|b bs] eqn:Eb.
  - eexists. eexists. split; [reflexivity|].
    split; [|split; [reflexivity|split; [|congruence]]].
    + exists tx, tx. cbn. rewrite Eb. repeat split; auto.
    + intros _. repeat split. exact Htx.
  - assert (Heff : forall st',
               spp_tx_buffer st'
               = Some (mk_byte_ringbuf (rb_size tx)
                         (skipn BT_SPP_DATA_MAX_SIZE (b :: bs))) ->
               spp_handle st' = spp_handle st ->
               spp_rx_buffer st' = spp_rx_buffer st ->
               tx_effect st st'
                 [Call_esp_spp_write (spp_handle st)
                    (firstn BT_SPP_DATA_MAX_SIZE (b :: bs))] []).
    { intros st' H1 H2 H3. exists tx. eexists. split; [exact Htx|].
      split; [exact H1|]. cbn [rb_size rb_bytes handed_over].
      rewrite Eb, !app_nil_r, firstn_skipn. repeat split; auto.
      constructor; [|constructor]. cbn [chunk_ok]. split; [reflexivity|].
      apply firstn_chunk; [discriminate | unfold BT_SPP_DATA_MAX_SIZE, ESP_SPP_MAX_MTU; lia]. }
    destruct (w (spp_handle st) (firstn BT_SPP_DATA_MAX_SIZE (b :: bs)));
      cbn [negb].
    + match goal with
      | |- context [if ?c then _ else _] => destruct c
      end; eexists; eexists; (split; [reflexivity|]);
        (split; [apply Heff; reflexivity|]);
        (split; [reflexivity|]);
        (split; [discriminate|]); intros _; repeat split.
    + eexists; eexists; (split; [reflexivity|]);
        (split; [apply Heff; reflexivity|]);
        (split; [reflexivity|]);
        (split; [discriminate|]); intros _; repeat split.
Qed.

Lemma skipn_length_le (A : Type) (n : nat) (l : list A) :
  (List.length (skipn n l) <= List.length l)%nat.
Proof. rewrite length_skipn. lia. Qed.

Lemma tx_invariant_set_writing st :
  (exists tx, spp_tx_buffer st = Some tx /\
     (List.length (rb_bytes tx) <= rb_size tx)%nat /\
     0 <= spp_tx_buffer_min_free st
       <= Z.of_nat (xRingbufferGetCurFreeSize tx)) ->
  tx_invariant (set_spp_writing true st).
Proof.
  intros (tx & Ht & H1 & H3). exists tx. repeat split; auto; apply H3.
Qed.

Lemma tx_invariant_weaken st :
  tx_invariant st ->
  exists tx, spp_tx_buffer st = Some tx /\
     (List.length (rb_bytes tx) <= rb_size tx)%nat /\
     0 <= spp_tx_buffer_min_free st
       <= Z.of_nat (xRingbufferGetCurFreeSize tx).
Proof. intros (tx & Ht & H1 & _ & H3). exists tx. auto. Qed.

(** A drain step keeps the invariant of the transmit path. *)
Lemma _write_invariant w now handle st st' ev :
  handle = spp_handle st -> tx_invariant st ->
  _write w now handle st = Some (st', ev) -> tx_invariant st'.
Proof.
  intros Hh (tx & Ht & H1 & H2 & H3) Hw.
  destruct (@_write_effect w now handle st tx Hh Ht)
    as (st1 & ev1 & Hw1 & _ & Hmin & Hempty & Hchunk).
  rewrite Hw in Hw1. injection Hw1 as <- <-.
  destruct (rb_bytes tx) as [|b bs] eqn:Eb.
  - destruct (Hempty eq_refl) as (Hwr & _ & Ht').
    exists tx. rewrite Hmin. repeat split; auto; try apply H3.
    try rewrite Eb. congruence.
  - destruct Hchunk as (Hwr & _ & Ht'); [discriminate|].
    eexists. split; [exact Ht'|]. cbn [rb_size rb_bytes].
    pose proof (skipn_length_le BT_SPP_DATA_MAX_SIZE (b :: bs)) as Hsk.
    try rewrite Eb in H1.
    split; [lia|]. split.
    + intros _. rewrite Hwr. apply H2. discriminate.
    + rewrite Hmin. unfold xRingbufferGetCurFreeSize in *.
      cbn [rb_size rb_bytes]. try rewrite Eb in H3. lia.
Qed.

(** The same for a drain step that is taken only when [c] holds. *)
Lemma optional_write_effect (c : bool) w now handle st tx :
  handle = spp_handle st -> spp_tx_buffer st = Some tx ->
  exists st' ev,
    (if c then _write w now handle st else Some (st, [])) = Some (st', ev) /\
    tx_effect st st' ev [] /\
    (tx_invariant st -> tx_invariant st').
Proof.
  intros Hh Ht. destruct c.
  - destruct (@_write_effect w now handle st tx Hh Ht)
      as (st' & ev & Hw & Heff & _).
    exists st', ev. split; [exact Hw|]. split; [exact Heff|].
    intros Hinv. now apply (@_write_invariant w now handle st st' ev).
  - exists st, []. split; [reflexivity|]. split; [|auto].
    now apply tx_effect_refl with tx.
Qed.

(** [bt_write] on an open connection, in full. *)
Lemma bt_write_effect w now handle buf st tx :
  handle = spp_handle st -> spp_tx_buffer st = Some tx ->
  exists ret st' ev,
    bt_write w now handle buf st = Some (ret, st', ev) /\
    tx_effect st st' ev
      (if ret =? Z.of_nat (List.length buf) then buf else []) /\
    (tx_invariant st -> tx_invariant st').
Proof.
  intros Hh Htx. unfold bt_write.
  destruct (Z.eqb_spec (Z.of_nat (List.length buf)) 0) as [Hz|Hnz].
  { exists 0, st, []. split; [reflexivity|].
    assert (buf = []) as -> by (destruct buf; [reflexivity | cbn in Hz; lia]).
    cbn. split; [now apply tx_effect_refl with tx | auto]. }
  rewrite Hh, Z.eqb_refl, Htx. cbn [negb].
  unfold xRingbufferSend.
  destruct (Nat.leb_spec (List.length buf) (xRingbufferGetCurFreeSize tx))
    as [Hroom|Hfull]; cbn [fst snd negb].
  - (* the bytes go in *)
    set (tx1 := mk_byte_ringbuf (rb_size tx) (rb_bytes tx ++ buf)).
    set (st1 := set_spp_tx_buffer (Some tx1) st).
    set (st2 := if spp_tx_buffer_min_free st1
                   >? Z.of_nat (xRingbufferGetCurFreeSize tx1)
                then set_spp_tx_buffer_min_free
                       (Z.of_nat (xRingbufferGetCurFreeSize tx1)) st1
                else st1).
    assert (H2 : spp_handle st2 = spp_handle st /\
                 spp_tx_buffer st2 = Some tx1 /\
                 spp_writing st2 = spp_writing st /\
                 spp_rx_buffer st2 = spp_rx_buffer st /\
                 spp_tx_buffer_min_free st2
                 = Z.min (spp_tx_buffer_min_free st)
                     (Z.of_nat (xRingbufferGetCurFreeSize tx1))).
    { unfold st2.
      destruct (Z.gtb_spec (spp_tx_buffer_min_free st1)
                  (Z.of_nat (xRingbufferGetCurFreeSize tx1))) as [Hg|Hg];
        cbn in Hg |- *; repeat split; lia. }
    destruct H2 as (H2h & H2t & H2w & H2r & H2m).
    assert (Heff2 : tx_effect st st2 [] buf).
    { exists tx, tx1. repeat split; auto. }
    assert (Hinv2 : tx_invariant st ->
                    exists tx', spp_tx_buffer st2 = Some tx' /\
                      (List.length (rb_bytes tx') <= rb_size tx')%nat /\
                      0 <= spp_tx_buffer_min_free st2
                        <= Z.of_nat (xRingbufferGetCurFreeSize tx')).
    { intros (tx0 & Ht0 & I1 & _ & I3). rewrite Htx in Ht0.
      injection Ht0 as <-. exists tx1. split; [exact H2t|].
      unfold xRingbufferGetCurFreeSize in *. unfold tx1 in *.
      cbn [rb_size rb_bytes] in *. rewrite length_app in *.
      rewrite H2m. split; lia. }
    destruct (spp_writing st2) eqn:Ew; cbn [negb].
    + exists (Z.of_nat (List.length buf)), st2, [].
      split; [reflexivity|]. rewrite Z.eqb_refl. split; [exact Heff2|].
      intros Hinv. destruct (Hinv2 Hinv) as (tx' & Ht' & I1 & I3).
      exists tx'. repeat split; auto; apply I3.
    + destruct (@_write_effect w now (spp_handle st)
                  (set_spp_writing true st2) tx1)
        as (st' & ev & Hw & Heff & _); auto.
      rewrite Hw. exists (Z.of_nat (List.length buf)), st', ev.
      split; [reflexivity|]. rewrite Z.eqb_refl. split.
      * rewrite <- (app_nil_r buf), <- (app_nil_l ev).
        apply tx_effect_trans with (set_spp_writing true st2); [|exact Heff].
        destruct Heff2 as (a & b & Ha & Hb & Hrest).
        exists a, b. repeat split; auto; apply Hrest.
      * intros Hinv.
        apply (@_write_invariant w now (spp_handle st)
                 (set_spp_writing true st2) st' ev); auto.
        apply tx_invariant_set_writing. now apply Hinv2.
  - (* no room *)
    rewrite (set_spp_tx_buffer_same st Htx).
    assert (Hret : (0 =? Z.of_nat (List.length buf)) = false)
      by (apply Z.eqb_neq; lia).
    destruct (@optional_write_effect
                (spp_writing st && (now - spp_last_us st >? 5 * 1000000))
                w now (spp_handle st) st tx)
      as (st1 & ev1 & Hw1 & Heff1 & Hinv1); auto.
    rewrite Hw1.
    pose proof Heff1 as (tx0 & tx1 & _ & Ht1 & _ & _ & Hh1 & _).
    destruct (spp_writing st1) eqn:Ew1; cbn [negb].
    + exists 0, st1, (ev1 ++ []). split; [reflexivity|].
      rewrite Hret, app_nil_r. split; [exact Heff1 | exact Hinv1].
    + destruct (@_write_effect w now (spp_handle st)
                  (set_spp_writing true st1) tx1)
        as (st2 & ev2 & Hw2 & Heff2 & _); auto.
      rewrite Hw2. exists 0, st2, (ev1 ++ ev2).
      split; [reflexivity|]. rewrite Hret. split.
      * change (@nil byte) with (@nil byte ++ []).
        apply tx_effect_trans with st1; [exact Heff1|].
        destruct Heff2 as (a & b & Ha & Hb & Hrest).
        exists a, b. repeat split; auto; apply Hrest.
      * intros Hinv.
        apply (@_write_invariant w now (spp_handle st)
                 (set_spp_writing true st1) st2 ev2); auto.
        apply tx_invariant_set_writing, tx_invariant_weaken. now apply Hinv1.
Qed.

(** A run of the transmit path of an open connection, in full. *)
Lemma tx_run_effect w handle : forall ops st tx,
  handle = spp_handle st -> spp_tx_buffer st = Some tx ->
  exists st' ev acc,
    tx_run w handle ops st = Some (st', ev, acc) /\
    tx_effect st st' ev acc /\
    (tx_invariant st -> tx_invariant st').
Proof.
  induction ops as [|o ops IH]; intros st tx Hh Htx; cbn [tx_run].
  - exists st, [], []. split; [reflexivity|].
    split; [now apply tx_effect_refl with tx | auto].
  - destruct o as [now buf|now].
    + destruct (@bt_write_effect w now handle buf st tx Hh Htx)
        as (ret & st1 & ev1 & Hw & Heff1 & Hinv1).
      rewrite Hw.
      pose proof Heff1 as (tx0 & tx1 & _ & Ht1 & _ & _ & Hh1 & _).
      destruct (IH st1 tx1) as (st2 & ev2 & acc & Hr & Heff2 & Hinv2);
        [congruence | exact Ht1|].
      rewrite Hr. eexists. eexists. eexists. split; [reflexivity|].
      split; [now apply tx_effect_trans with st1 | auto].
    + destruct (@_write_effect w now handle st tx Hh Htx)
        as (st1 & ev1 & Hw & Heff1 & _).
      rewrite Hw.
      pose proof Heff1 as (tx0 & tx1 & _ & Ht1 & _ & _ & Hh1 & _).
      destruct (IH st1 tx1) as (st2 & ev2 & acc & Hr & Heff2 & Hinv2);
        [congruence | exact Ht1|].
      rewrite Hr. eexists. eexists. eexists. split; [reflexivity|].
      split.
      * change acc with ([] ++ acc). now apply tx_effect_trans with st1.
      * intros Hinv. apply Hinv2.
        now apply (@_write_invariant w now handle st st1 ev1).
Qed.

(** X13.  The transmit path is a FIFO that loses nothing.  On an open
    connection, over any sequence of [bt_write] calls and drain steps
    ([_write], called for the stack's write and congestion events), the
    bytes handed to [esp_spp_write], in the order of the calls, followed
    by the bytes still in the ring, are the bytes the ring held at the
    start followed by the buffers [bt_write] accepted, in the order of
    the calls.  No byte is duplicated, reordered or dropped, whether or
    not the stack accepts a chunk; the connection stays open and the
    receive ring is not touched. *)
Theorem tx_path_fifo (w : Z -> list byte -> bool) (handle : Z)
  (ops : list tx_op) (st : bt_state) (tx : byte_ringbuf)
  (Hopen : connection_open st handle tx) :
  exists st' ev acc tx',
    tx_run w handle ops st = Some (st', ev, acc) /\
    connection_open st' handle tx' /\
    handed_over ev ++ rb_bytes tx' = rb_bytes tx ++ acc /\
    spp_rx_buffer st' = spp_rx_buffer st.
Proof.
  destruct Hopen as (Hnz & Hh & Htx).
  destruct (@tx_run_effect w handle ops st tx Hh Htx)
    as (st' & ev & acc & Hr & (tx0 & tx' & Ht0 & Ht' & _ & Hc & Hh' & Hrx & _) & _).
  rewrite Htx in Ht0. injection Ht0 as <-.
  exists st', ev, acc, tx'. split; [exact Hr|].
  split; [|split; [exact Hc | exact Hrx]].
  repeat split; congruence.
Qed.

Lemma tx_path_fifo_witness :
  let ops := [Tx_write 2000000 [x41; x54]%byte; Tx_drain 2000100;
              Tx_write 2000200 [x5a; x0d]%byte] in
  connection_open bt_state_open5 5 (xRingbufferCreate BT_SPP_RINGBUF_TX_SIZE) /\
  exists st' ev acc tx',
    tx_run link_ok 5 ops bt_state_open5 = Some (st', ev, acc) /\
    acc = [x41; x54; x5a; x0d]%byte /\
    handed_over ev ++ rb_bytes tx' = acc.
Proof.
  cbv zeta.
  assert (Hopen : connection_open bt_state_open5 5
                    (xRingbufferCreate BT_SPP_RINGBUF_TX_SIZE)).
  { repeat split. vm_compute. discriminate. }
  split; [exact Hopen|].
  destruct (@tx_path_fifo link_ok 5
              [Tx_write 2000000 [x41; x54]%byte; Tx_drain 2000100;
               Tx_write 2000200 [x5a; x0d]%byte]
              bt_state_open5 _ Hopen)
    as (st' & ev & acc & tx' & Hr & _ & Hc & _).
  exists st', ev, acc, tx'. split; [exact Hr|].
  assert (Ha : acc = [x41; x54; x5a; x0d]%byte).
  { vm_compute in Hr. injection Hr as _ _ <-. reflexivity. }
  split; [exact Ha|]. rewrite Hc. cbn [xRingbufferCreate rb_bytes app].
  reflexivity.
Defined.

(** *** Pacing *)

Lemma _write_one_call w now handle st tx st' ev :
  handle = spp_handle st -> spp_tx_buffer st = Some tx ->
  _write w now handle st = Some (st', ev) ->
  (List.length ev <= 1)%nat /\
  (rb_bytes tx = [] -> ev = [] /\ spp_writing st' = false) /\
  (rb_bytes tx <> [] -> spp_writing st' = spp_writing st).
Proof.
  intros Hh Ht Hw.
  destruct (@_write_effect w now handle st tx Hh Ht)
    as (st1 & ev1 & Hw1 & _ & _ & Hempty & Hchunk).
  rewrite Hw in Hw1. injection Hw1 as <- <-.
  destruct (rb_bytes tx) as [|b bs].
  - destruct (Hempty eq_refl) as (Hwr & -> & _). cbn [List.length].
    split; [lia|]. split; [auto | congruence].
  - destruct Hchunk as (Hwr & -> & _); [discriminate|]. cbn [List.length].
    split; [lia|]. split; [discriminate | auto].
Qed.

(** A call of [bt_write] makes at most one call of [esp_spp_write]. *)
Lemma bt_write_one_call w now handle buf st tx ret st' ev :
  handle = spp_handle st -> spp_tx_buffer st = Some tx ->
  bt_write w now handle buf st = Some (ret, st', ev) ->
  (List.length ev <= 1)%nat.
Proof.
  intros Hh Htx. unfold bt_write.
  destruct (Z.of_nat (List.length buf) =? 0).
  { intros H. injection H as <- <- <-. cbn. lia. }
  rewrite Hh, Z.eqb_refl, Htx. cbn [negb].
  unfold xRingbufferSend.
  destruct (List.length buf <=? xRingbufferGetCurFreeSize tx)%nat;
    cbn [fst snd negb].
  - match goal with
    | |- context [_write w now (spp_handle st) (set_spp_writing true ?s)] =>
        set (st2 := s)
    end.
    destruct (spp_writing st2); cbn [negb].
    + intros H. injection H as <- <- <-. cbn. lia.
    + destruct (_write w now (spp_handle st) (set_spp_writing true st2))
        as [[st3 ev3]|] eqn:Ew; [|discriminate].
      intros H. injection H as <- <- <-.
      assert (Ht2 : spp_tx_buffer (set_spp_writing true st2)
                    = Some (mk_byte_ringbuf (rb_size tx) (rb_bytes tx ++ buf))).
      { unfold st2. match goal with
                    | |- context [if ?c then _ else _] => destruct c
                    end; reflexivity. }
      assert (Hh2 : spp_handle st = spp_handle (set_spp_writing true st2)).
      { unfold st2. match goal with
                    | |- context [if ?c then _ else _] => destruct c
                    end; reflexivity. }
      apply (@_write_one_call w now (spp_handle st) _ _ st3 ev3 Hh2 Ht2 Ew).
  - rewrite (set_spp_tx_buffer_same st Htx).
    destruct (spp_writing st && (now - spp_last_us st >? 5 * 1000000)) eqn:C.
    + apply andb_prop in C as [Cw _].
      destruct (_write w now (spp_handle st) st) as [[st1 ev1]|] eqn:Ew1;
        [|discriminate].
      destruct (@_write_one_call w now (spp_handle st) st tx st1 ev1
                  eq_refl Htx Ew1) as (Hlen1 & Hempty & Hchunk).
      destruct (@_write_effect w now (spp_handle st) st tx eq_refl Htx)
        as (st1' & ev1' & Hw1' & Heff & _).
      rewrite Ew1 in Hw1'. injection Hw1' as <- <-.
      destruct Heff as (tx0 & tx1 & _ & Ht1 & _ & _ & Hh1 & _).
      destruct (spp_writing st1) eqn:Ew; cbn [negb].
      * intros H. injection H as <- <- <-. rewrite app_nil_r. exact Hlen1.
      * assert (Hev1 : ev1 = []).
        { destruct (rb_bytes tx) as [|b bs] eqn:Eb.
          - now destruct (Hempty eq_refl).
          - assert (Hne : b :: bs <> []) by discriminate.
            specialize (Hchunk Hne). congruence. }
        subst ev1.
        destruct (_write w now (spp_handle st) (set_spp_writing true st1))
          as [[st2 ev2]|] eqn:Ew2; [|discriminate].
        intros H. injection H as <- <- <-. cbn [app].
        apply (@_write_one_call w now (spp_handle st)
                 (set_spp_writing true st1) tx1 st2 ev2); auto.
    + destruct (spp_writing st) eqn:Ew; cbn [negb].
      * intros H. injection H as <- <- <-. cbn. lia.
      * destruct (_write w now (spp_handle st) (set_spp_writing true st))
          as [[st2 ev2]|] eqn:Ew2; [|discriminate].
        intros H. injection H as <- <- <-. cbn [app].
        apply (@_write_one_call w now (spp_handle st)
                 (set_spp_writing true st) tx st2 ev2); auto.
Qed.

Lemma tx_run_paced w handle : forall ops st tx st' ev acc,
  handle = spp_handle st -> spp_tx_buffer st = Some tx ->
  tx_run w handle ops st = Some (st', ev, acc) ->
  (List.length ev <= List.length ops)%nat.
Proof.
  induction ops as [|o ops IH]; intros st tx st' ev acc Hh Htx; cbn [tx_run].
  - intros H. injection H as <- <- <-. cbn. lia.
  - destruct o as [now buf|now].
    + destruct (bt_write w now handle buf st) as [[[ret st1] ev1]|] eqn:Ew;
        [|discriminate].
      destruct (@bt_write_effect w now handle buf st tx Hh Htx)
        as (ret' & st1' & ev1' & Hw' & Heff & _).
      rewrite Ew in Hw'. injection Hw' as <- <- <-.
      destruct Heff as (tx0 & tx1 & _ & Ht1 & _ & _ & Hh1 & _).
      destruct (tx_run w handle ops st1) as [[[st2 ev2] acc2]|] eqn:Er;
        [|discriminate].
      intros H. injection H as <- <- <-.
      pose proof (@bt_write_one_call w now handle buf st tx ret st1 ev1
                    Hh Htx Ew) as H1.
      pose proof (IH st1 tx1 st2 ev2 acc2 ltac:(congruence) Ht1 Er) as H2.
      rewrite length_app. cbn [List.length]. lia.
    + destruct (_write w now handle st) as [[st1 ev1]|] eqn:Ew; [|discriminate].
      destruct (@_write_effect w now handle st tx Hh Htx)
        as (st1' & ev1' & Hw' & Heff & _).
      rewrite Ew in Hw'. injection Hw' as <- <-.
      destruct Heff as (tx0 & tx1 & _ & Ht1 & _ & _ & Hh1 & _).
      destruct (tx_run w handle ops st1) as [[[st2 ev2] acc2]|] eqn:Er;
        [|discriminate].
      intros H. injection H as <- <- <-.
      destruct (@_write_one_call w now handle st tx st1 ev1 Hh Htx Ew)
        as (H1 & _).
      pose proof (IH st1 tx1 st2 ev2 acc2 ltac:(congruence) Ht1 Er) as H2.
      rewrite length_app. cbn [List.length]. lia.
Qed.

(** X14.  The transmit path is paced by the stack and respects the MTU.
    On an open connection, over any sequence of [bt_write] calls and
    drain steps, the only calls that leave bt.c are calls of
    [esp_spp_write] for the connection's handle; each hands over at
    least one byte and at most [BT_SPP_DATA_MAX_SIZE = 990] bytes; and
    each [bt_write] call and each drain step makes at most one such
    call, so there are never more calls than operations. *)
Theorem tx_path_paced (w : Z -> list byte -> bool) (handle : Z)
  (ops : list tx_op) (st : bt_state) (tx : byte_ringbuf)
  (Hopen : connection_open st handle tx) :
  exists st' ev acc,
    tx_run w handle ops st = Some (st', ev, acc) /\
    Forall (fun e => exists d,
              e = Call_esp_spp_write handle d /\
              (1 <= List.length d <= 990)%nat) ev /\
    (List.length ev <= List.length ops)%nat.
Proof.
  destruct Hopen as (Hnz & Hh & Htx).
  destruct (@tx_run_effect w handle ops st tx Hh Htx)
    as (st' & ev & acc & Hr & (tx0 & tx' & _ & _ & _ & _ & _ & _ & Hk) & _).
  exists st', ev, acc. split; [exact Hr|]. split.
  - eapply Forall_impl; [|exact Hk]. intros e He.
    destruct e as [h|h d|h|h]; cbn in He; try contradiction.
    destruct He as [-> Hl]. exists d. split; [now rewrite Hh | exact Hl].
  - exact (@tx_run_paced w handle ops st tx st' ev acc Hh Htx Hr).
Qed.

Lemma tx_path_paced_witness :
  let ops := [Tx_write 2000000 (repeat x41%byte 2000); Tx_drain 2000100;
              Tx_drain 2000200; Tx_drain 2000300] in
  connection_open bt_state_open5 5 (xRingbufferCreate BT_SPP_RINGBUF_TX_SIZE) /\
  exists st' ev acc,
    tx_run link_ok 5 ops bt_state_open5 = Some (st', ev, acc) /\
    map (fun e => match e with
                  | Call_esp_spp_write _ d => List.length d
                  | _ => 0%nat
                  end) ev = [990; 990; 20]%nat /\
    (List.length ev <= List.length ops)%nat.
Proof.
  cbv zeta.
  assert (Hopen : connection_open bt_state_open5 5
                    (xRingbufferCreate BT_SPP_RINGBUF_TX_SIZE)).
  { repeat split. vm_compute. discriminate. }
  split; [exact Hopen|].
  destruct (@tx_path_paced link_ok 5
              [Tx_write 2000000 (repeat x41%byte 2000); Tx_drain 2000100;
               Tx_drain 2000200; Tx_drain 2000300]
              bt_state_open5 _ Hopen)
    as (st' & ev & acc & Hr & _ & Hlen).
  exists st', ev, acc. split; [exact Hr|]. split; [|exact Hlen].
  vm_compute in Hr. injection Hr as _ <- _. vm_compute. reflexivity.
Defined.

(** *** Nothing is left behind *)

Lemma _open_tx_invariant now handle st :
  spp_handle st = 0 -> tx_invariant (fst (_open true true now handle st)).
Proof.
  intros H0. unfold _open. rewrite H0. cbn [Z.eqb negb orb fst].
  eexists. split; [reflexivity|]. cbn. repeat split; try lia. congruence.
Qed.

(** X15.  Once a connection is open its transmit ring never holds more
    than its capacity, [spp_writing] is set whenever bytes are queued,
    and [spp_tx_buffer_min_free] never exceeds the free space: [_open]
    establishes these three facts and every [bt_write] call and drain
    step keeps them.  Hence, when after any sequence of such operations
    [spp_writing] is clear, the ring is empty and every byte
    [bt_write] accepted has been handed to [esp_spp_write]. *)
Theorem tx_path_idle_means_sent (w : Z -> list byte -> bool) (handle : Z)
  (ops : list tx_op) (st : bt_state) (tx : byte_ringbuf)
  (Hopen : connection_open st handle tx) (Hinv : tx_invariant st) :
  (forall now h st0,
     spp_handle st0 = 0 -> tx_invariant (fst (_open true true now h st0))) /\
  exists st' ev acc tx',
    tx_run w handle ops st = Some (st', ev, acc) /\
    spp_tx_buffer st' = Some tx' /\
    (List.length (rb_bytes tx') <= rb_size tx)%nat /\
    (rb_bytes tx' <> [] -> spp_writing st' = true) /\
    0 <= spp_tx_buffer_min_free st'
      <= Z.of_nat (xRingbufferGetCurFreeSize tx') /\
    (spp_writing st' = false ->
     rb_bytes tx' = [] /\ handed_over ev = rb_bytes tx ++ acc).
Proof.
  split; [intros now h st0; apply _open_tx_invariant|].
  destruct Hopen as (Hnz & Hh & Htx).
  destruct (@tx_run_effect w handle ops st tx Hh Htx)
    as (st' & ev & acc & Hr & (tx0 & tx' & Ht0 & Ht' & Hs & Hc & _) & Hkeep).
  rewrite Htx in Ht0. injection Ht0 as <-.
  destruct (Hkeep Hinv) as (tx1 & Ht1 & I1 & I2 & I3).
  rewrite Ht' in Ht1. injection Ht1 as <-.
  exists st', ev, acc, tx'. split; [exact Hr|]. split; [exact Ht'|].
  split; [now rewrite <- Hs|]. split; [exact I2|]. split; [exact I3|].
  intros Hidle.
  assert (He : rb_bytes tx' = []).
  { destruct (rb_bytes tx') as [|b bs] eqn:E; [reflexivity|].
    rewrite I2 in Hidle by discriminate. discriminate. }
  split; [exact He|]. now rewrite He, app_nil_r in Hc.
Qed.

Lemma tx_path_idle_means_sent_witness :
  let ops := [Tx_write 2000000 [x41; x54]%byte; Tx_drain 2000100] in
  connection_open bt_state_open5 5 (xRingbufferCreate BT_SPP_RINGBUF_TX_SIZE) /\
  tx_invariant bt_state_open5 /\
  exists st' ev acc,
    tx_run link_ok 5 ops bt_state_open5 = Some (st', ev, acc) /\
    spp_writing st' = false /\
    handed_over ev = [x41; x54]%byte.
Proof.
  cbv zeta.
  assert (Hopen : connection_open bt_state_open5 5
                    (xRingbufferCreate BT_SPP_RINGBUF_TX_SIZE)).
  { repeat split. vm_compute. discriminate. }
  assert (Hinv : tx_invariant bt_state_open5).
  { apply _open_tx_invariant. reflexivity. }
  split; [exact Hopen|]. split; [exact Hinv|].
  destruct (@tx_path_idle_means_sent link_ok 5
              [Tx_write 2000000 [x41; x54]%byte; Tx_drain 2000100]
              bt_state_open5 _ Hopen Hinv)
    as (_ & st' & ev & acc & tx' & Hr & _ & _ & _ & _ & Hidle).
  exists st', ev, acc. split; [exact Hr|].
  assert (Hw : spp_writing st' = false /\ acc = [x41; x54]%byte).
  { vm_compute in Hr. injection Hr as <- _ <-. split; reflexivity. }
  destruct Hw as (Hw & Ha). split; [exact Hw|].
  destruct (Hidle Hw) as (_ & Hh). rewrite Hh, Ha. reflexivity.
Defined.

(** ** After the connection has closed *)

(** X16.  When the stack reports the open connection closed, [_close]
    calls the registered close callback, releases both rings and clears
    the handle.  From then on every function of the interface called
    with the old handle fails with [EBADF] and touches nothing else:
    [bt_write] of a non-empty buffer and [bt_read] return
    [(size_t)-1], [bt_close] and [bt_discard_tx_buffer] return -1,
    the two free-space queries return [(size_t)-1]; and late events of
    the stack for the old handle ([_write], [_read]) change nothing. *)
Theorem closed_connection_rejects (w : Z -> list byte -> bool) (now handle : Z)
  (buf data : list byte) (count : nat) (st : bt_state)
  (Hopen : handle = spp_handle st) (Hnz : handle <> 0) (Hbuf : buf <> []) :
  let st1 := fst (_close handle st) in
  let bad := set_errno EBADF st1 in
  snd (_close handle st)
  = (if spp_close_cb st then [Call_spp_close_cb handle] else []) /\
  spp_handle st1 = 0 /\ spp_rx_buffer st1 = None /\
  spp_tx_buffer st1 = None /\
  bt_write w now handle buf st1 = Some (SIZE_T_MINUS_1, bad, []) /\
  bt_read handle count st1 = Some (SIZE_T_MINUS_1, [], bad) /\
  bt_close handle st1 = (-1, bad, []) /\
  bt_get_tx_free handle st1 = Some (SIZE_T_MINUS_1, bad) /\
  bt_get_rx_free handle st1 = Some (SIZE_T_MINUS_1, bad) /\
  bt_discard_tx_buffer handle st1 = Some (-1, bad) /\
  _write w now handle st1 = Some (st1, []) /\
  _read handle data st1 = Some st1.
Proof.
  cbv zeta. unfold _close. rewrite Hopen, Z.eqb_refl. cbn [negb fst snd].
  rewrite <- Hopen.
  assert (Hne : (handle =? 0) = false) by now apply Z.eqb_neq.
  assert (Hlen : (Z.of_nat (List.length buf) =? 0) = false).
  { apply Z.eqb_neq. destruct buf; [congruence | cbn [List.length]; lia]. }
  split; [reflexivity|]. repeat (split; [reflexivity|]).
  unfold bt_write, bt_read, bt_close, bt_get_tx_free, bt_get_rx_free,
    bt_discard_tx_buffer, _write, _read.
  cbn [spp_handle set_spp_handle set_spp_tx_buffer set_spp_rx_buffer].
  rewrite Hne, Hlen. cbn [negb]. repeat split.
Qed.

Lemma closed_connection_rejects_witness :
  let st1 := fst (_close 5 bt_state_open5) in
  5 = spp_handle bt_state_open5 /\ 5 <> 0 /\ [x41%byte] <> [] /\
  spp_tx_buffer st1 = None /\
  bt_write link_ok 3000000 5 [x41%byte] st1
  = Some (SIZE_T_MINUS_1, set_errno EBADF st1, []).
Proof.
  cbv zeta.
  assert (Hopen : 5 = spp_handle bt_state_open5) by reflexivity.
  assert (Hnz : 5 <> 0) by lia.
  assert (Hbuf : [x41%byte] <> []) by discriminate.
  split; [exact Hopen|]. split; [exact Hnz|]. split; [exact Hbuf|].
  destruct (@closed_connection_rejects link_ok 3000000 5 [x41%byte] [] 1
              bt_state_open5 Hopen Hnz Hbuf)
    as (_ & _ & _ & Htx & Hw & _).
  split; [exact Htx | exact Hw].
Defined.

(** ** The receive path *)

(** A packet goes into the receive ring whole or not at all. *)
Lemma _read_effect handle data st rx :
  handle = spp_handle st -> spp_rx_buffer st = Some rx ->
  exists st' rx',
    _read handle data st = Some st' /\
    spp_rx_buffer st' = Some rx' /\ rb_size rx' = rb_size rx /\
    rb_bytes rx'
    = rb_bytes rx ++ (if snd (xRingbufferSend rx data) then data else []) /\
    (snd (xRingbufferSend rx data) = true <->
     (List.length data <= xRingbufferGetCurFreeSize rx)%nat) /\
    spp_handle st' = spp_handle st /\
    spp_tx_buffer st' = spp_tx_buffer st.
Proof.
  intros Hh Hrx. unfold _read. rewrite Hh, Z.eqb_refl, Hrx. cbn [negb].
  unfold xRingbufferSend.
  destruct (Nat.leb_spec (List.length data) (xRingbufferGetCurFreeSize rx))
    as [Hroom|Hfull]; cbn [fst snd negb].
  - match goal with
    | |- context [if ?c then _ else _] => destruct c
    end; eexists; eexists; (split; [reflexivity|]);
      (split; [reflexivity|]); cbn [rb_size rb_bytes];
      repeat split; auto.
  - eexists. eexists. split; [reflexivity|]. split; [reflexivity|].
    cbn [rb_size rb_bytes]. rewrite app_nil_r.
    repeat split; auto; try discriminate. intros H. lia.
Qed.

(** [bt_read] takes the oldest bytes of the receive ring, at most
    [count] of them. *)
Lemma bt_read_effect handle count st rx :
  handle = spp_handle st -> spp_rx_buffer st = Some rx ->
  exists st' rx',
    bt_read handle count st
    = Some (Z.of_nat (List.length (firstn count (rb_bytes rx))),
            firstn count (rb_bytes rx), st') /\
    spp_rx_buffer st' = Some rx' /\ rb_size rx' = rb_size rx /\
    rb_bytes rx' = skipn count (rb_bytes rx) /\
    spp_handle st' = spp_handle st /\
    spp_tx_buffer st' = spp_tx_buffer st.
Proof.
  intros Hh Hrx. unfold bt_read. rewrite Hh, Z.eqb_refl, Hrx. cbn [negb].
  unfold xRingbufferReceiveUpTo.
  destruct (rb_bytes rx) as [|b bs] eqn:Eb.
  - exists st, rx. rewrite firstn_nil, skipn_nil. cbn [List.length Z.of_nat].
    repeat split; auto.
  - destruct count as [|count].
    + cbn [firstn List.length Nat.eqb skipn Z.of_nat].
      exists st, rx. repeat split; auto.
    + cbn [firstn List.length Nat.eqb].
      assert (Hlt : (S count <? S (List.length (firstn count bs)))%nat = false).
      { apply Nat.ltb_ge. rewrite length_firstn. lia. }
      rewrite Hlt. cbn [firstn]. rewrite firstn_all.
      eexists. eexists. split; [reflexivity|]. repeat split.
Qed.

Lemma rx_run_effect handle : forall ops st rx,
  handle = spp_handle st -> spp_rx_buffer st = Some rx ->
  (List.length (rb_bytes rx) <= rb_size rx)%nat ->
  exists st' got put rx',
    rx_run handle ops st = Some (st', got, put) /\
    spp_rx_buffer st' = Some rx' /\ rb_size rx' = rb_size rx /\
    got ++ rb_bytes rx' = rb_bytes rx ++ put /\
    (List.length (rb_bytes rx') <= rb_size rx)%nat /\
    spp_handle st' = spp_handle st /\
    spp_tx_buffer st' = spp_tx_buffer st.
Proof.
  induction ops as [|o ops IH]; intros st rx Hh Hrx Hb; cbn [rx_run].
  - exists st, [], [], rx. rewrite app_nil_r. repeat split; auto.
  - destruct o as [data|count].
    + destruct (@_read_effect handle data st rx Hh Hrx)
        as (st1 & rx1 & Hr & Hrx1 & Hs1 & Hb1 & Hroom & Hh1 & Ht1).
      rewrite Hr, Hrx.
      assert (Hb1' : (List.length (rb_bytes rx1) <= rb_size rx1)%nat).
      { rewrite Hb1, Hs1, length_app.
        destruct (snd (xRingbufferSend rx data)) eqn:E; cbn [List.length];
          [|lia].
        pose proof (proj1 Hroom eq_refl) as Hle.
        unfold xRingbufferGetCurFreeSize in Hle. lia. }
      destruct (IH st1 rx1) as (st2 & got & put & rx2 & Hrun & Hrx2 & Hs2
                                & Hc & Hb2 & Hh2 & Ht2);
        [congruence | exact Hrx1 | exact Hb1'|].
      rewrite Hrun. eexists. eexists. eexists. exists rx2.
      split; [reflexivity|]. split; [exact Hrx2|].
      split; [congruence|]. split.
      * rewrite Hc, Hb1, <- app_assoc. reflexivity.
      * split; [rewrite <- Hs1; exact Hb2|]. split; congruence.
    + destruct (@bt_read_effect handle count st rx Hh Hrx)
        as (st1 & rx1 & Hr & Hrx1 & Hs1 & Hb1 & Hh1 & Ht1).
      rewrite Hr.
      assert (Hb1' : (List.length (rb_bytes rx1) <= rb_size rx1)%nat).
      { rewrite Hb1, Hs1, length_skipn. lia. }
      destruct (IH st1 rx1) as (st2 & got & put & rx2 & Hrun & Hrx2 & Hs2
                                & Hc & Hb2 & Hh2 & Ht2);
        [congruence | exact Hrx1 | exact Hb1'|].
      rewrite Hrun. eexists. eexists. eexists. exists rx2.
      split; [reflexivity|]. split; [exact Hrx2|].
      split; [congruence|]. split.
      * rewrite <- app_assoc, Hc, Hb1, app_assoc, firstn_skipn. reflexivity.
      * split; [rewrite <- Hs1; exact Hb2|]. split; congruence.
Qed.

(** X17.  The receive path is a FIFO as well.  On an open connection,
    over any sequence of packets from the stack ([_read]) and calls of
    [bt_read], the bytes the [bt_read] calls returned, in order, followed
    by the bytes still in the ring, are the bytes the ring held at the
    start followed by the packets that went in; a packet goes in exactly
    when the ring has room for all of it and is dropped whole otherwise;
    a [bt_read] returns the oldest bytes, at most [count] of them, and 0
    from an empty ring; the ring never holds more than its capacity and
    the transmit ring is not touched. *)
Theorem rx_path_fifo (handle : Z) (ops : list rx_op) (st : bt_state)
  (rx : byte_ringbuf)
  (Hh : handle = spp_handle st) (Hrx : spp_rx_buffer st = Some rx)
  (Hb : (List.length (rb_bytes rx) <= rb_size rx)%nat) :
  (exists st' got put rx',
     rx_run handle ops st = Some (st', got, put) /\
     spp_rx_buffer st' = Some rx' /\
     got ++ rb_bytes rx' = rb_bytes rx ++ put /\
     (List.length (rb_bytes rx') <= rb_size rx)%nat /\
     spp_tx_buffer st' = spp_tx_buffer st) /\
  (forall data,
     exists st' rx',
       _read handle data st = Some st' /\ spp_rx_buffer st' = Some rx' /\
       rb_bytes rx'
       = rb_bytes rx
         ++ (if (List.length data <=? rb_size rx - List.length (rb_bytes rx))%nat
             then data else [])) /\
  (forall count,
     exists st' rx',
       bt_read handle count st
       = Some (Z.of_nat (List.length (firstn count (rb_bytes rx))),
               firstn count (rb_bytes rx), st') /\
       spp_rx_buffer st' = Some rx' /\
       rb_bytes rx' = skipn count (rb_bytes rx)).
Proof.
  split; [|split].
  - destruct (@rx_run_effect handle ops st rx Hh Hrx Hb)
      as (st' & got & put & rx' & Hr & Hrx' & _ & Hc & Hb' & _ & Ht).
    exists st', got, put, rx'. auto.
  - intros data.
    destruct (@_read_effect handle data st rx Hh Hrx)
      as (st' & rx' & Hr & Hrx' & _ & Hbytes & _).
    exists st', rx'. split; [exact Hr|]. split; [exact Hrx'|].
    rewrite Hbytes. unfold xRingbufferSend, xRingbufferGetCurFreeSize.
    destruct (List.length data <=? rb_size rx - List.length (rb_bytes rx))%nat;
      reflexivity.
  - intros count.
    destruct (@bt_read_effect handle count st rx Hh Hrx)
      as (st' & rx' & Hr & Hrx' & _ & Hbytes & _).
    exists st', rx'. auto.
Qed.

Lemma rx_path_fifo_witness :
  let ops := [Rx_data [x41; x54; x5a]%byte; Rx_read 2; Rx_data [x0d]%byte;
              Rx_read 10] in
  5 = spp_handle bt_state_open5 /\
  exists st' got put,
    rx_run 5 ops bt_state_open5 = Some (st', got, put) /\
    got = [x41; x54; x5a; x0d]%byte /\ put = got.
Proof.
  cbv zeta.
  assert (Hh : 5 = spp_handle bt_state_open5) by reflexivity.
  assert (Hrx : spp_rx_buffer bt_state_open5
                = Some (xRingbufferCreate BT_SPP_RINGBUF_RX_SIZE))
    by reflexivity.
  assert (Hb : (List.length (rb_bytes (xRingbufferCreate BT_SPP_RINGBUF_RX_SIZE))
                <= rb_size (xRingbufferCreate BT_SPP_RINGBUF_RX_SIZE))%nat)
    by (cbn; lia).
  split; [exact Hh|].
  destruct (@rx_path_fifo 5
              [Rx_data [x41; x54; x5a]%byte; Rx_read 2; Rx_data [x0d]%byte;
               Rx_read 10]
              bt_state_open5 _ Hh Hrx Hb)
    as ((st' & got & put & rx' & Hr & _) & _).
  exists st', got, put. split; [exact Hr|].
  vm_compute in Hr. injection Hr as _ <- <-. split; reflexivity.
Defined.

(** ** No NULL ring *)

Lemma rings_match_handle_frame st st' :
  spp_handle st' = spp_handle st ->
  spp_rx_buffer st' = spp_rx_buffer st ->
  spp_tx_buffer st' = spp_tx_buffer st ->
  rings_match_handle st -> rings_match_handle st'.
Proof.
  unfold rings_match_handle. intros -> -> ->. auto.
Qed.

Lemma rings_of_open st handle :
  rings_match_handle st -> handle = spp_handle st -> handle <> 0 ->
  exists rx tx, spp_rx_buffer st = Some rx /\ spp_tx_buffer st = Some tx.
Proof.
  intros [(H0 & _)|(_ & Hrx & Htx)] Hh Hnz; [congruence|].
  destruct (spp_rx_buffer st) as [rx|]; [|congruence].
  destruct (spp_tx_buffer st) as [tx|]; [|congruence].
  eauto.
Qed.

Lemma _write_rings w now handle st :
  rings_match_handle st -> handle <> 0 ->
  exists st' ev,
    _write w now handle st = Some (st', ev) /\ rings_match_handle st'.
Proof.
  intros Hinv Hnz.
  destruct (Z.eqb_spec handle (spp_handle st)) as [Hh|Hne].
  - destruct (rings_of_open Hinv Hh Hnz) as (rx & tx & Hrx & Htx).
    destruct (@_write_effect w now handle st tx Hh Htx)
      as (st' & ev & Hw & (tx0 & tx' & _ & Ht' & _ & _ & Hh' & Hrx' & _) & _).
    exists st', ev. split; [exact Hw|].
    right. rewrite Hh', Hrx', Hrx, Ht', <- Hh. repeat split; congruence.
  - exists st, []. split; [|exact Hinv].
    unfold _write. now rewrite (proj2 (Z.eqb_neq _ _) Hne).
Qed.

(** An operation that does not name handle 0 hands no NULL ring to a
    ring buffer function, and keeps handle and rings together. *)
Lemma bt_step_rings w o st :
  rings_match_handle st -> op_handle o <> Some 0 ->
  exists st', bt_step w o st = Some st' /\ rings_match_handle st'.
Proof.
  intros Hinv Hop.
  assert (Herrno : rings_match_handle (set_errno EBADF st)).
  { revert Hinv. now apply rings_match_handle_frame. }
  destruct o as [rx_ok tx_ok now event|now h buf|h count|h|h|h|h];
    cbn [bt_step op_handle] in *.
  - destruct event as [| |h|h|h|h|h|h cong|h data|h cong|];
      cbn [esp_spp_cb option_map fst op_handle] in *;
      try (exists st; split; [reflexivity | exact Hinv]).
    + (* ESP_SPP_SRV_OPEN_EVT *)
      assert (Hopen : rings_match_handle (fst (_open rx_ok tx_ok now h st))).
      { unfold _open.
        destruct (Z.eqb_spec (spp_handle st) 0) as [H0|H0]; cbn [negb fst].
        - destruct rx_ok, tx_ok; cbn [negb orb fst];
            [right | left | left | left]; cbn; repeat split; congruence.
        - revert Hinv. now apply rings_match_handle_frame. }
      destruct (_open rx_ok tx_ok now h st) as [st1 ev1].
      exists st1. split; [reflexivity | exact Hopen].
    + (* ESP_SPP_CLOSE_EVT *)
      assert (Hclose : rings_match_handle (fst (_close h st))).
      { unfold _close.
        destruct (h =? spp_handle st); cbn [negb fst].
        - left. repeat split.
        - destruct (spp_second_connexion st); cbn [fst];
            revert Hinv; now apply rings_match_handle_frame. }
      destruct (_close h st) as [st1 ev1].
      exists st1. split; [reflexivity | exact Hclose].
    + (* ESP_SPP_WRITE_EVT *)
      destruct cong; cbn [negb];
        [exists st; split; [reflexivity | exact Hinv]|].
      destruct (@_write_rings w now h st Hinv) as (st' & ev & Hw & Hinv');
        [congruence|].
      rewrite Hw. exists st'. split; [reflexivity | exact Hinv'].
    + (* ESP_SPP_DATA_IND_EVT *)
      destruct (Z.eqb_spec h (spp_handle st)) as [Hh|Hne].
      * destruct (@rings_of_open st h Hinv Hh) as (rx & tx & Hrx & Htx);
          [congruence|].
        destruct (@_read_effect h data st rx Hh Hrx)
          as (st' & rx' & Hr & Hrx' & _ & _ & _ & Hh' & Ht').
        rewrite Hr. cbn [option_map fst]. exists st'. split; [reflexivity|].
        right. rewrite Hh', Hrx', Ht', Htx, <- Hh.
        repeat split; congruence.
      * unfold _read. rewrite (proj2 (Z.eqb_neq _ _) Hne).
        cbn [negb option_map fst]. eauto.
    + (* ESP_SPP_CONG_EVT *)
      destruct cong; cbn [negb];
        [exists st; split; [reflexivity | exact Hinv]|].
      destruct (@_write_rings w now h st Hinv) as (st' & ev & Hw & Hinv');
        [congruence|].
      rewrite Hw. exists st'. split; [reflexivity | exact Hinv'].
  - (* bt_write *)
    destruct (Z.eqb_spec h (spp_handle st)) as [Hh|Hne].
    + destruct (@rings_of_open st h Hinv Hh) as (rx & tx & Hrx & Htx);
        [congruence|].
      destruct (@bt_write_effect w now h buf st tx Hh Htx)
        as (ret & st' & ev & Hw
            & (tx0 & tx' & _ & Ht' & _ & _ & Hh' & Hrx' & _) & _).
      rewrite Hw. cbn [option_map fst snd]. exists st'.
      split; [reflexivity|].
      right. rewrite Hh', Hrx', Hrx, Ht', <- Hh. repeat split; congruence.
    + unfold bt_write. rewrite (proj2 (Z.eqb_neq _ _) Hne). cbn [negb].
      destruct (Z.of_nat (List.length buf) =? 0); cbn [option_map fst snd];
        eauto.
  - (* bt_read *)
    destruct (Z.eqb_spec h (spp_handle st)) as [Hh|Hne].
    + destruct (@rings_of_open st h Hinv Hh) as (rx & tx & Hrx & Htx);
        [congruence|].
      destruct (@bt_read_effect h count st rx Hh Hrx)
        as (st' & rx' & Hr & Hrx' & _ & _ & Hh' & Ht').
      rewrite Hr. cbn [option_map snd]. exists st'. split; [reflexivity|].
      right. rewrite Hh', Hrx', Ht', Htx, <- Hh. repeat split; congruence.
    + unfold bt_read. rewrite (proj2 (Z.eqb_neq _ _) Hne).
      cbn [negb option_map snd]. eauto.
  - (* bt_close *)
    eexists. split; [reflexivity|]. unfold bt_close.
    destruct (h =? spp_handle st); cbn [negb fst snd]; assumption.
  - (* bt_get_tx_free *)
    unfold bt_get_tx_free.
    destruct (Z.eqb_spec h (spp_handle st)) as [Hh|Hne]; cbn [negb].
    + destruct (@rings_of_open st h Hinv Hh) as (rx & tx & Hrx & Htx);
        [congruence|].
      rewrite Htx. cbn [option_map snd]. eauto.
    + cbn [option_map snd]. eauto.
  - (* bt_get_rx_free *)
    unfold bt_get_rx_free.
    destruct (Z.eqb_spec h (spp_handle st)) as [Hh|Hne]; cbn [negb].
    + destruct (@rings_of_open st h Hinv Hh) as (rx & tx & Hrx & Htx);
        [congruence|].
      rewrite Hrx. cbn [option_map snd]. eauto.
    + cbn [option_map snd]. eauto.
  - (* bt_discard_tx_buffer *)
    unfold bt_discard_tx_buffer.
    destruct (Z.eqb_spec h (spp_handle st)) as [Hh|Hne]; cbn [negb].
    + destruct (@rings_of_open st h Hinv Hh) as (rx & tx & Hrx & Htx);
        [congruence|].
      rewrite Htx. unfold xRingbufferReceiveUpTo.
      destruct (rb_bytes tx); cbn [option_map snd]; [eauto|].
      eexists. split; [reflexivity|].
      right. cbn. rewrite Hrx, <- Hh. repeat split; congruence.
    + cbn [option_map snd]. eauto.
Qed.

(** X18.  bt.c never hands a NULL ring to a ring buffer function, as
    long as no event and no call names handle 0.  From
    the static initialisers on, whatever events the stack delivers and
    whatever interface functions are called, in any order, with any
    outcome of the allocations and of [esp_spp_write], every operation
    runs with the rings it needs, and afterwards either no connection
    is open and both ring handles are NULL, or a connection is open and
    both rings exist. *)
Theorem bt_never_null_ring (w : Z -> list byte -> bool) (ops : list bt_op)
  (Hops : Forall (fun o => op_handle o <> Some 0) ops) :
  exists st',
    bt_run w ops bt_state_init = Some st' /\ rings_match_handle st'.
Proof.
  assert (H0 : rings_match_handle bt_state_init) by (left; repeat split).
  revert H0. generalize bt_state_init.
  induction Hops as [|o ops Ho _ IH]; intros st Hinv; cbn [bt_run].
  - eauto.
  - destruct (@bt_step_rings w o st Hinv Ho) as (st' & Hs & Hinv').
    rewrite Hs. now apply IH.
Qed.

Lemma bt_never_null_ring_witness :
  let ops := [Op_event true true 0 ESP_SPP_INIT_EVT;
              Op_write 500000 5 [x41%byte];
              Op_event true true 1000000 (ESP_SPP_SRV_OPEN_EVT 5);
              Op_write 2000000 5 [x41; x54]%byte;
              Op_event true true 2000100 (ESP_SPP_WRITE_EVT 5 false);
              Op_event true true 2000200 (ESP_SPP_DATA_IND_EVT 5 [x0d%byte]);
              Op_read 5 16;
              Op_event true true 3000000 (ESP_SPP_CLOSE_EVT 5);
              Op_get_tx_free 5] in
  Forall (fun o => op_handle o <> Some 0) ops /\
  exists st',
    bt_run link_ok ops bt_state_init = Some st' /\ spp_handle st' = 0 /\
    spp_tx_buffer st' = None.
Proof.
  cbv zeta.
  set (ops := [Op_event true true 0 ESP_SPP_INIT_EVT;
               Op_write 500000 5 [x41%byte];
               Op_event true true 1000000 (ESP_SPP_SRV_OPEN_EVT 5);
               Op_write 2000000 5 [x41; x54]%byte;
               Op_event true true 2000100 (ESP_SPP_WRITE_EVT 5 false);
               Op_event true true 2000200 (ESP_SPP_DATA_IND_EVT 5 [x0d%byte]);
               Op_read 5 16;
               Op_event true true 3000000 (ESP_SPP_CLOSE_EVT 5);
               Op_get_tx_free 5]).
  assert (Hops : Forall (fun o => op_handle o <> Some 0) ops).
  { unfold ops. repeat constructor; cbn; discriminate. }
  split; [exact Hops|].
  destruct (@bt_never_null_ring link_ok ops Hops) as (st' & Hr & _).
  exists st'. split; [exact Hr|].
  vm_compute in Hr. injection Hr as <-. split; reflexivity.
Defined.

(** ** The token reader *)

Lemma skip_spaces_spaces n s : skip_spaces (spaces n ++ s) = skip_spaces s.
Proof. induction n as [|n IH]; cbn; [reflexivity | exact IH]. Qed.

Lemma scan_until_token stop tok rest :
  no_char stop tok = true ->
  scan_until stop (tok ++ String stop rest) = (tok, String stop rest) /\
  scan_until stop tok = (tok, EmptyString).
Proof.
  induction tok as [|a tok IH]; cbn [no_char append scan_until]; intros H.
  - rewrite Ascii.eqb_refl. split; reflexivity.
  - apply andb_prop in H as [Ha Hr]. apply negb_true_iff in Ha.
    rewrite Ha. destruct (IH Hr) as [-> ->]. split; reflexivity.
Qed.

(** X19.  [elm_read_str] steps over leading spaces and reads one token.
    A token that does not begin with a quote ends before the next space
    or at the end of the text; a token that begins with a double or a
    single quote runs to the next quote of the same kind, or to the end
    of the text when there is none, and may contain spaces.  The quotes
    and the delimiter are not part of the token, and the returned
    pointer is the text after the delimiter. *)
Theorem elm_read_str_token (n : nat) (tok rest : string) (q : ascii) :
  (no_char " " tok = true -> tok <> EmptyString ->
   deref tok <> DQUOTE -> deref tok <> "'"%char ->
   elm_read_str (spaces n ++ tok ++ String " " rest) = (rest, tok) /\
   elm_read_str (spaces n ++ tok) = (EmptyString, tok)) /\
  (q = DQUOTE \/ q = "'"%char -> no_char q tok = true ->
   elm_read_str (spaces n ++ String q (tok ++ String q rest)) = (rest, tok) /\
   elm_read_str (spaces n ++ String q tok) = (EmptyString, tok)) /\
  elm_read_str (spaces n) = (EmptyString, EmptyString).
Proof.
  split; [|split].
  - intros Hns Hne Hdq Hsq. unfold elm_read_str.
    rewrite !skip_spaces_spaces.
    destruct tok as [|a tok]; [congruence|]. cbn [deref] in Hdq, Hsq.
    cbn [no_char] in Hns. apply andb_prop in Hns as [Ha Hns].
    apply negb_true_iff in Ha.
    cbn [append skip_spaces]. rewrite Ha. cbn [deref].
    rewrite (proj2 (Ascii.eqb_neq _ _) Hdq), (proj2 (Ascii.eqb_neq _ _) Hsq).
    destruct (@scan_until_token " " tok rest Hns) as [H1 H2].
    cbn [scan_until]. rewrite Ha, H1, H2. cbn [fst snd deref advance].
    split; reflexivity.
  - intros Hq Hnq. unfold elm_read_str.
    rewrite !skip_spaces_spaces.
    destruct (@scan_until_token q tok rest Hnq) as [H1 H2].
    assert (Hsp : Ascii.eqb q " " = false) by (destruct Hq; subst q; reflexivity).
    assert (Hnul : Ascii.eqb q NUL = false)
      by (destruct Hq; subst q; reflexivity).
    cbn [skip_spaces]. rewrite Hsp. cbn [deref advance].
    destruct Hq; subst q.
    + rewrite Ascii.eqb_refl, H1, H2. cbn [fst snd deref advance].
      split; reflexivity.
    + change (Ascii.eqb "'" DQUOTE) with false. rewrite Ascii.eqb_refl, H1, H2.
      cbn [fst snd deref advance]. split; reflexivity.
  - unfold elm_read_str.
    rewrite <- (string_app_nil_r (spaces n)), skip_spaces_spaces.
    reflexivity.
Qed.

(** ** ATCRA *)

Lemma land_u32_r a b : 0 <= a < 2 ^ 32 -> Z.land a (u32 b) = Z.land a b.
Proof.
  intros Ha. unfold u32. rewrite <- (Z.land_ones b 32) by lia.
  rewrite <- (Z.mod_small a (2 ^ 32)) at 2 by exact Ha.
  rewrite <- (Z.land_ones a 32) by lia.
  apply Z.bits_inj'. intros n _. rewrite !Z.land_spec.
  destruct (Z.testbit a n), (Z.testbit b n), (Z.testbit (Z.ones 32) n);
    reflexivity.
Qed.

Lemma land_div16 a b : Z.land a b / 16 = Z.land (a / 16) (b / 16).
Proof.
  change 16 with (2 ^ 4).
  rewrite <- !Z.shiftr_div_pow2 by lia. apply Z.shiftr_land.
Qed.

Lemma land_mod16 a b : Z.land a b mod 16 = Z.land (a mod 16) (b mod 16).
Proof.
  change 16 with (2 ^ 4). rewrite <- !Z.land_ones by lia.
  apply Z.bits_inj'. intros n _. rewrite !Z.land_spec.
  destruct (Z.testbit a n), (Z.testbit b n), (Z.testbit (Z.ones 4) n);
    reflexivity.
Qed.

Lemma eq_div_mod16 x y : x = y <-> x / 16 = y / 16 /\ x mod 16 = y mod 16.
Proof.
  split; [intros ->; auto|]. intros [Hd Hm].
  rewrite (Z.div_mod x 16), (Z.div_mod y 16) by lia. now rewrite Hd, Hm.
Qed.

Lemma div_mod_16 x r : 0 <= r < 16 -> (16 * x + r) / 16 = x /\ (16 * x + r) mod 16 = r.
Proof.
  intros Hr. split.
  - rewrite Z.mul_comm, Z.div_add_l by lia. rewrite Z.div_small by lia. lia.
  - rewrite Z.add_comm, Z.mul_comm, Z.mod_add by lia. now apply Z.mod_small.
Qed.

(** Matching an identifier against a rule, one hexadecimal digit at a
    time. *)
Lemma land_eq_step id f m v k :
  0 <= v < 16 -> 0 <= k < 16 ->
  (Z.land id (16 * m + k) = Z.land (16 * f + v) (16 * m + k) <->
   Z.land (id / 16) m = Z.land f m /\
   Z.land (id mod 16) k = Z.land v k).
Proof.
  intros Hv Hk. rewrite eq_div_mod16, !land_div16, !land_mod16.
  destruct (div_mod_16 m Hk) as [-> ->].
  destruct (div_mod_16 f Hv) as [-> ->]. tauto.
Qed.

Lemma nibble_snoc id k : nibble id (S k) = nibble (id / 16) k.
Proof.
  unfold nibble. rewrite Nat2Z.inj_succ, Z.pow_succ_r by lia.
  rewrite Z.div_div by lia. reflexivity.
Qed.

Lemma digits_match_snoc d id : forall ds,
  digits_match (ds ++ [d]) id
  <-> digits_match ds (id / 16) /\
      match d with Some v => id mod 16 = v | None => True end.
Proof.
  induction ds as [|e ds IH]; cbn [app digits_match List.length].
  - unfold nibble. cbn [Z.of_nat]. rewrite Z.pow_0_r, Z.div_1_r. tauto.
  - rewrite IH, length_app. cbn [List.length].
    replace (List.length ds + 1)%nat with (S (List.length ds)) by lia.
    rewrite nibble_snoc. tauto.
Qed.

Lemma cra_reached_start : cra_reached [] 0 4294967295.
Proof.
  split; [cbn; lia|]. split; [lia|]. intros id Hid.
  cbn [List.length Z.of_nat digits_match]. rewrite Z.pow_0_r.
  change 4294967295 with (Z.ones 32).
  rewrite Z.land_ones, Z.mod_small, Z.land_0_l by lia.
  split; [intros ->; split; [lia | exact I] | intros [H _]; lia].
Qed.

(** One digit more. *)
Lemma cra_reached_step ds f m (d : option Z) :
  cra_reached ds f m -> (List.length ds < 8)%nat ->
  match d with Some v => 0 <= v < 16 | None => True end ->
  cra_reached (ds ++ [d])
    (u32 (Z.shiftl f 4 + match d with Some v => v | None => 0 end))
    (u32 (Z.shiftl m 4 + match d with Some _ => 15 | None => 0 end)).
Proof.
  intros (Hf & Hm & Hiff) Hlen Hd.
  set (v := match d with Some v => v | None => 0 end).
  set (k := match d with Some _ => 15 | None => 0 end).
  assert (Hv : 0 <= v < 16) by (unfold v; destruct d; lia).
  assert (Hk : 0 <= k < 16) by (unfold k; destruct d; lia).
  unfold cra_reached.
  rewrite !Z.shiftl_mul_pow2 by lia. change (2 ^ 4) with 16.
  rewrite length_app. cbn [List.length].
  replace (List.length ds + 1)%nat with (S (List.length ds)) by lia.
  rewrite Nat2Z.inj_succ, Z.pow_succ_r by lia.
  set (n := Z.of_nat (List.length ds)) in *.
  assert (Hpow : 0 < 16 ^ n <= 16 ^ 7).
  { split; [apply Z.pow_pos_nonneg; lia|].
    apply Z.pow_le_mono_r; lia. }
  assert (Hf' : u32 (f * 16 + v) = 16 * f + v).
  { rewrite u32_small; [lia|]. change (2 ^ 32) with (16 * 16 ^ 7). nia. }
  rewrite Hf'.
  split; [nia|]. split; [apply u32_range|].
  intros id Hid.
  rewrite land_u32_r by exact Hid.
  rewrite land_u32_r by (change (2 ^ 32) with (16 * 16 ^ 7); nia).
  replace (m * 16 + k) with (16 * m + k) by lia.
  rewrite land_eq_step by assumption.
  assert (Hid16 : 0 <= id / 16 < 2 ^ 32).
  { split; [apply Z.div_pos; lia|].
    apply Z.div_lt_upper_bound; lia. }
  rewrite (Hiff (id / 16) Hid16), digits_match_snoc.
  assert (Hlt : id / 16 < 16 ^ n <-> id < 16 * 16 ^ n).
  { split; intros H.
    - apply Z.nle_gt. intros Hc. apply Z.nle_gt in H. apply H.
      apply Z.div_le_lower_bound; lia.
    - apply Z.div_lt_upper_bound; lia. }
  assert (Hmod : 0 <= id mod 16 < 16) by (apply Z.mod_pos_bound; lia).
  assert (Hlow : Z.land (id mod 16) k = Z.land v k
                 <-> match d with Some v => id mod 16 = v | None => True end).
  { unfold v, k. destruct d as [w|].
    - change 15 with (Z.ones 4). rewrite !Z.land_ones by lia.
      change (2 ^ 4) with 16. rewrite Z.mod_mod, (Z.mod_small w) by lia.
      tauto.
    - rewrite !Z.land_0_r. tauto. }
  rewrite Hlt, Hlow. tauto.
Qed.

(** The loop of ATCRA, from what it has reached to what it reaches. *)
Lemma cra_loop_reached : forall c ds f m,
  cra_reached ds f m -> (List.length (ds ++ cra_digits c) <= 8)%nat ->
  cra_reached (ds ++ cra_digits c)
    (fst (cra_loop c f m)) (snd (cra_loop c f m)).
Proof.
  induction c as [|a r IH]; intros ds f m Hinv Hlen;
    cbn [cra_digits cra_loop] in *.
  - now rewrite app_nil_r.
  - destruct (hex_digit a) as [d|] eqn:E.
    + rewrite app_cons_shift in Hlen |- *.
      apply IH; [|exact Hlen].
      apply (@cra_reached_step ds f m (Some d) Hinv);
        [|now apply hex_digit_range with a].
      rewrite !length_app in Hlen. cbn [List.length] in Hlen. lia.
    + destruct (Ascii.eqb a "X" || Ascii.eqb a "x").
      * rewrite app_cons_shift in Hlen |- *.
        apply IH; [|exact Hlen].
        pose proof (@cra_reached_step ds f m None Hinv) as Hstep.
        rewrite !Z.add_0_r in Hstep. apply Hstep; [|exact I].
        rewrite !length_app in Hlen. cbn [List.length] in Hlen. lia.
      * now apply IH.
Qed.

Lemma elm_dispatch_ATCRA x a c g :
  elm_dispatch x ("ATCRA" ++ String a c) g = at_cra ("CRA" ++ String a c) g.
Proof. reflexivity. Qed.

(** X20.  ATCRA with an argument sets the AT rule from the address
    digits of the argument, most significant first; an [X] (or [x]) is
    a wildcard for one hexadecimal digit and every character that is
    neither is skipped.  With [n <= 8] address digits the rule then
    matches exactly the identifiers below [16^n] whose hexadecimal
    digits are the given ones wherever no wildcard stands.  So
    [ATCRA 7E8] lets only 0x7E8 through and [ATCRA 7EX] the sixteen
    identifiers 0x7E0 to 0x7EF; an argument without any address digit
    leaves a rule that matches identifier 0 only. *)
Theorem atcra_sets_address (x : extern) (a : ascii) (c : string)
  (g : elm_globals_t) (id : Z)
  (Hlen : (List.length (cra_digits (String a c)) <= 8)%nat)
  (Hid : 0 <= id < 2 ^ 32) :
  let ds := cra_digits (String a c) in
  let r := elm_dispatch x ("ATCRA" ++ String a c) g in
  output (snd r) = (ELM_OK_PROMPT ++ ELM_NEWLINE g)%string /\
  (filter_hit id (elm_filter (fst r)) = true <->
   id < 16 ^ Z.of_nat (List.length ds) /\ digits_match ds id) /\
  pass_filter (fst r) = pass_filter g /\
  block_filter (fst r) = block_filter g.
Proof.
  cbv zeta. rewrite elm_dispatch_ATCRA. unfold at_cra.
  change (advance 3 ("CRA" ++ String a c)) with (String a c).
  pose proof (@cra_loop_reached (String a c) [] 0 4294967295
                cra_reached_start Hlen) as (Hf & Hm & Hiff).
  cbn [app] in Hiff.
  unfold seq, assign, elm_write_ok, elm_newline, printf, emit, seq.
  cbn [fst snd app output elm_filter set_elm_filter pattern mask
       pass_filter block_filter].
  split; [now rewrite string_app_nil_r|].
  split; [|split; reflexivity].
  unfold filter_hit. cbn [pattern mask]. rewrite Z.eqb_eq.
  apply Hiff. exact Hid.
Qed.

Lemma atcra_sets_address_witness :
  let g := elm_init EmptyString in
  let r := elm_dispatch extern_ok "ATCRA 7EX" g in
  (List.length (cra_digits " 7EX") <= 8)%nat /\ 0 <= 2027 < 2 ^ 32 /\
  cra_digits " 7EX" = [Some 7; Some 14; None] /\
  (filter_hit 2027 (elm_filter (fst r)) = true <->
   2027 < 16 ^ 3 /\ digits_match [Some 7; Some 14; None] 2027).
Proof.
  cbv zeta.
  assert (Hlen : (List.length (cra_digits " 7EX") <= 8)%nat)
    by (vm_compute; lia).
  assert (Hid : 0 <= 2027 < 2 ^ 32) by lia.
  split; [exact Hlen|]. split; [exact Hid|]. split; [reflexivity|].
  destruct (@atcra_sets_address extern_ok " "%char "7EX"
              (elm_init EmptyString) 2027 Hlen Hid) as (_ & Hiff & _).
  exact Hiff.
Defined.

(** ** Protocol selection *)

(** X21.  ATSP and ATDPN round trip.  For every protocol number of the
    table other than [A], [ATSP<n>] selects the protocol without
    automatic search and [ATDPN] then prints [<n>]; [ATSPA<n>], for every
    number of the table, selects it with automatic search and [ATDPN]
    prints [A<n>].  The letter [A] after ATSP is always read as the
    automatic flag, so protocol [A] can only be selected as [ATSPAA], and
    [ATSPA] alone leaves no protocol number, which [ATDPN] shows as
    [A0]. *)
Theorem atsp_then_atdpn (x : extern) (g : elm_globals_t) (p : ascii)
  (Hp : In p protocol_numbers) :
  let g1 := fst (elm_dispatch x ("ATSP" ++ String p EmptyString) g) in
  let g2 := fst (elm_dispatch x ("ATSPA" ++ String p EmptyString) g) in
  let g3 := fst (elm_dispatch x "ATSPA" g) in
  (p <> "A"%char ->
   elm_protocol g1 = p /\ elm_protocol_auto g1 = false /\
   output (snd (elm_dispatch x "ATDPN" g1)) = String p (ELM_NEWLINE g)) /\
  (elm_protocol g2 = p /\ elm_protocol_auto g2 = true /\
   output (snd (elm_dispatch x "ATDPN" g2))
   = String "A" (String p (ELM_NEWLINE g))) /\
  (elm_protocol g3 = NUL /\ elm_protocol_auto g3 = true /\
   output (snd (elm_dispatch x "ATDPN" g3))
   = String "A" (String "0" (ELM_NEWLINE g))).
Proof.
  assert (Hdpn : forall g0,
            output (snd (elm_dispatch x "ATDPN" g0))
            = ((if elm_protocol_auto g0 then "A" else EmptyString)
               ++ num (elm_get_protocol (elm_protocol g0))
               ++ ELM_NEWLINE g0)%string).
  { intros g0.
    change (elm_dispatch x "ATDPN" g0) with (at_describe_protocol_num g0).
    unfold at_describe_protocol_num, printf, emit. cbn [snd output].
    apply string_app_nil_r. }
  cbv zeta. rewrite !Hdpn.
  unfold protocol_numbers in Hp. cbn [map elm_protocols num deref] in Hp.
  repeat (destruct Hp as [<-|Hp];
          [split; [intros HA; try (elim HA; reflexivity);
                   repeat split; reflexivity|];
           split; repeat split; reflexivity|]).
  elim Hp.
Qed.

Lemma atsp_then_atdpn_witness :
  let g := elm_init EmptyString in
  In "6"%char protocol_numbers /\
  output (snd (elm_dispatch extern_ok "ATDPN"
                 (fst (elm_dispatch extern_ok "ATSP6" g))))
  = String "6" (ELM_NEWLINE g).
Proof.
  cbv zeta.
  assert (Hp : In "6"%char protocol_numbers).
  { unfold protocol_numbers. cbn. auto 10. }
  split; [exact Hp|].
  destruct (@atsp_then_atdpn extern_ok (elm_init EmptyString) "6"%char Hp)
    as (H1 & _).
  destruct H1 as (_ & _ & Hout); [discriminate|]. exact Hout.
Defined.

(** ** Unknown commands *)

(** X22.  A line that is not empty and whose first character after the
    leading spaces is none of the letters a command begins with (R, P,
    F, E, S, W, O, A, in either case) is answered with the question mark
    and the newline of the session; before the answer a warning that
    quotes the line from its first character other than a space is
    logged, unless the line has only spaces.  The line is stored as
    previous command and nothing else changes.  This is what every OBD
    request gets, a line of hexadecimal digits such as [0100] or
    [01 0C]: the interpreter has no command that begins with a digit. *)
Theorem unknown_command_reply (x : extern) (line : string) (g : elm_globals_t)
  (Hne : line <> EmptyString)
  (Hletter : command_letter (deref (skip_spaces line)) = false) :
  elm_do_cmd x line g
  = (set_elm_previous_cmd line g,
     (if Ascii.eqb (deref (skip_spaces line)) NUL then []
      else [ESP_LOGW (elm_tag g)
              ("Unreconized command '" ++ skip_spaces line ++ "'")%string])
     ++ [Printf ELM_QUERY_PROMPT; Printf (ELM_NEWLINE g)]).
Proof.
  unfold elm_do_cmd. rewrite (str_is_empty_false Hne).
  unfold elm_dispatch. cbv zeta.
  revert Hletter. generalize (skip_spaces line). intros s Hs.
  assert (Herr : elm_cmd_err s (set_elm_previous_cmd line g)
                 = (set_elm_previous_cmd line g,
                    (if Ascii.eqb (deref s) NUL then []
                     else [ESP_LOGW (elm_tag g)
                             ("Unreconized command '" ++ s ++ "'")%string])
                    ++ [Printf ELM_QUERY_PROMPT; Printf (ELM_NEWLINE g)])).
  { unfold elm_cmd_err, seq, elm_writeln, seq, printf, emit, elm_newline,
      printf, emit, skip.
    destruct (Ascii.eqb (deref s) NUL); reflexivity. }
  destruct s as [|a r]; [exact Herr|].
  unfold command_letter in Hs. cbn [existsb deref] in Hs.
  repeat match type of Hs with
         | (_ || _) = false => apply orb_false_elim in Hs as [? Hs]
         end.
  cbn [strcasecmp strncasecmp].
  change (tolower "R") with "r"%char. change (tolower "P") with "p"%char.
  change (tolower "F") with "f"%char. change (tolower "E") with "e"%char.
  change (tolower "S") with "s"%char. change (tolower "W") with "w"%char.
  change (tolower "O") with "o"%char. change (tolower "A") with "a"%char.
  repeat match goal with
         | H : Ascii.eqb (tolower a) _ = false |- _ => rewrite H; clear H
         end.
  cbn [andb orb]. exact Herr.
Qed.

Lemma unknown_command_reply_witness :
  let g := elm_init "elm-uart" in
  "01 0C" <> EmptyString /\
  command_letter (deref (skip_spaces "01 0C")) = false /\
  elm_do_cmd extern_ok "01 0C" g
  = (set_elm_previous_cmd "01 0C" g,
     [ESP_LOGW "elm-uart" "Unreconized command '01 0C'";
      Printf ELM_QUERY_PROMPT; Printf (ELM_NEWLINE g)]).
Proof.
  cbv zeta.
  assert (Hne : "01 0C" <> EmptyString) by discriminate.
  assert (Hl : command_letter (deref (skip_spaces "01 0C")) = false)
    by reflexivity.
  split; [exact Hne|]. split; [exact Hl|].
  exact (@unknown_command_reply extern_ok "01 0C" (elm_init "elm-uart") Hne Hl).
Defined.

(** ** What the monitor prints *)

(** The three ways a pass through the loop body can go. *)
Lemma elm_monitor_body_shape g l k :
  (exists l', elm_monitor_body g l k = (Some l', tick_frame_events g k)) \/
  (tick_passes g k = true /\ tick_flush_ok k = false /\
   elm_monitor_body g l k
   = (None,
      tick_frame_events g k
      ++ [ESP_LOGE (elm_tag g)
            ("monitor write error " ++ tick_strerror k)%string])) \/
  ((tick_passes g k = false \/ tick_flush_ok k = true) /\
   elm_monitor_body g l k
   = (None,
      tick_frame_events g k
      ++ [ESP_LOGW (elm_tag g) "monitor timeout";
          Printf (ELM_NODATA_PROMPT ++ ELM_NEWLINE g)%string])).
Proof.
  unfold elm_monitor_body, tick_frame_events, tick_passes.
  destruct (tick_rx k) as [rx_msg|]; cbn [fst snd];
    [destruct (elm_filter_test g (identifier (msg rx_msg))
                 (u32 (timestamp rx_msg))); cbn [fst snd];
     [destruct (tick_flush_ok k); cbn [fst snd]|]|];
    repeat match goal with
           | |- context [if ?c then _ else _] => destruct c; cbn [fst snd]
           end;
    first [ left; eexists; reflexivity
          | right; left; repeat split; reflexivity
          | right; right; split; [auto | reflexivity] ].
Qed.

(** While the loop runs no pass has found the monitor stopped, and every
    frame that passed the filter has been written without error. *)
Lemma elm_monitor_loop_running_ticks g : forall ticks l,
  snd (elm_monitor_loop g l ticks) = false ->
  Forall (fun k => tick_stopped k = false /\
                   (tick_passes g k = true -> tick_flush_ok k = true)) ticks.
Proof.
  induction ticks as [|k rest IH]; intros l Hrun; [constructor|].
  destruct (elm_monitor_loop_running_cons g l k rest Hrun)
    as (Hs & l' & Hb & Hrest).
  constructor; [|apply (IH l' Hrest)].
  apply orb_false_elim in Hs as [_ Hs]. split; [exact Hs|].
  intros Hp. destruct (tick_flush_ok k) eqn:Hf; [reflexivity|].
  destruct (elm_monitor_body_shape g l k)
    as [[l1 H]|[(_ & _ & H)|([Hc|Hc] & _)]];
    try congruence.
  - unfold elm_monitor_body, tick_passes in *.
    destruct (tick_rx k) as [rx_msg|]; [|discriminate].
    rewrite Hp, Hf in Hb. discriminate.
  - rewrite H in Hb. discriminate.
Qed.

(** X23.  The monitor prints the frames that pass the filter, all of
    them and nothing else.  As long as the task is looping it has
    printed, in the order of arrival, the line of every received frame
    that [elm_filter_test] accepts, and no pass has found the monitor
    stopped or a write failing.  In the next pass:
    - if the monitor has been stopped the task ends without looking at
      the frame;
    - otherwise the line of the frame is printed if the frame passes the
      filter, and then either the task goes on, or it ends on a failed
      write with the error logged, or it ends on the timeout with the
      warning logged and NO DATA printed. *)
Theorem monitor_prints_passing_frames (g : elm_globals_t) (l : monitor_locals)
  (ticks : list monitor_tick) (k : monitor_tick)
  (Hrun : snd (elm_monitor_loop g l ticks) = false) :
  let r := elm_monitor_loop g l (ticks ++ [k]) in
  let printed := flat_map (tick_frame_events g) in
  fst (elm_monitor_loop g l ticks) = printed ticks /\
  Forall (fun k' => tick_stopped k' = false /\
                    (tick_passes g k' = true -> tick_flush_ok k' = true))
         ticks /\
  (negb (elm_monitor g) || tick_stopped k = true ->
   r = (printed ticks, true)) /\
  (negb (elm_monitor g) || tick_stopped k = false ->
   r = (printed (ticks ++ [k]), false) \/
   (tick_passes g k = true /\ tick_flush_ok k = false /\
    r = (printed (ticks ++ [k])
         ++ [ESP_LOGE (elm_tag g)
               ("monitor write error " ++ tick_strerror k)%string],
         true)) \/
   ((tick_passes g k = false \/ tick_flush_ok k = true) /\
    r = (printed (ticks ++ [k])
         ++ [ESP_LOGW (elm_tag g) "monitor timeout";
             Printf (ELM_NODATA_PROMPT ++ ELM_NEWLINE g)%string],
         true))).
Proof.
  cbv zeta.
  pose proof (elm_monitor_loop_running_events g ticks l Hrun) as Hev.
  split; [exact Hev|].
  split; [apply (elm_monitor_loop_running_ticks g ticks l Hrun)|].
  rewrite (elm_monitor_loop_app g ticks l [k] Hrun), Hev.
  rewrite flat_map_app. cbn [flat_map elm_monitor_loop]. rewrite !app_nil_r.
  split.
  - intros ->. cbn [fst snd]. now rewrite app_nil_r.
  - intros ->.
    destruct (elm_monitor_body_shape g (locals_after g l ticks) k)
      as [[l1 H]|[(Hp & Hf & H)|(Hc & H)]]; rewrite H; cbn [fst snd].
    + left. now rewrite app_nil_r.
    + right; left. split; [exact Hp|]. split; [exact Hf|].
      now rewrite app_assoc.
    + right; right. split; [exact Hc|]. now rewrite app_assoc.
Qed.

(** After ATMA with the pass rule 7E8/7FF, of two frames the one with
    identifier 7E8 is printed and the one with identifier 123 is not. *)
Lemma monitor_prints_passing_frames_witness :
  let g := fst (elm_do_cmd extern_ok "ATMA"
                  (fst (elm_do_cmd extern_ok "STFPA7E8,7FF"
                          (elm_init "elm-bt")))) in
  let f1 := mk_can_message_timestamp
              (mk_can_message 291 2 [1; 2; 0; 0; 0; 0; 0; 0]) 1000000 in
  let f2 := mk_can_message_timestamp
              (mk_can_message 2024 2 [3; 4; 0; 0; 0; 0; 0; 0]) 1100000 in
  let ticks := [mk_tick false (Some f1) (fun _ => 0) 1000100 true EmptyString;
                mk_tick false (Some f2) (fun _ => 0) 1100100 true EmptyString] in
  let l := mk_locals 0 0 0 in
  snd (elm_monitor_loop g l ticks) = false /\
  output (fst (elm_monitor_loop g l ticks))
  = ("7E8 03 04 " ++ NEWLINE_CRLF)%string.
Proof.
  cbv zeta.
  set (g := fst (elm_do_cmd extern_ok "ATMA"
                   (fst (elm_do_cmd extern_ok "STFPA7E8,7FF"
                           (elm_init "elm-bt"))))).
  set (ticks := [mk_tick false
                   (Some (mk_can_message_timestamp
                            (mk_can_message 291 2 [1; 2; 0; 0; 0; 0; 0; 0])
                            1000000))
                   (fun _ => 0) 1000100 true EmptyString;
                 mk_tick false
                   (Some (mk_can_message_timestamp
                            (mk_can_message 2024 2 [3; 4; 0; 0; 0; 0; 0; 0])
                            1100000))
                   (fun _ => 0) 1100100 true EmptyString]).
  assert (Hrun : snd (elm_monitor_loop g (mk_locals 0 0 0) ticks) = false)
    by (vm_compute; reflexivity).
  split; [exact Hrun|].
  destruct (@monitor_prints_passing_frames g (mk_locals 0 0 0) ticks
              (mk_tick true None (fun _ => 0) 0 true EmptyString) Hrun)
    as (Hev & _).
  rewrite Hev. vm_compute. reflexivity.
Defined.

(** ** Clearing the filters *)

Ltac spell_clear H :=
  repeat spell_letter H;
  apply strcasecmp_nil_r in H; subst;
  repeat match goal with
         | Hc : Ascii.eqb (tolower ?c) _ = true |- _ =>
             first [ apply tolower_is_a in Hc | apply tolower_is_t in Hc
                   | apply tolower_is_s in Hc | apply tolower_is_f in Hc
                   | apply tolower_is_c in Hc | apply tolower_is_r in Hc ];
             destruct Hc; subst c
         end.

Lemma elm_dispatch_STFAC x line g :
  is_cmd line "STFAC" \/ is_cmd line "STFCA" ->
  elm_dispatch x line g = (clear_pass ;; clear_block ;; elm_write_ok) g.
Proof.
  unfold is_cmd. rewrite elm_dispatch_skip_spaces.
  generalize (skip_spaces line). intros s [H|H]; spell_clear H; reflexivity.
Qed.

Lemma elm_dispatch_ATCRA_alone x line g :
  is_cmd line "ATCRA" ->
  elm_dispatch x line g
  = (assign (fun g => set_elm_filter (mk_filter 0 (mask (elm_filter g))) g) ;;
     assign (fun g => set_elm_filter (mk_filter (pattern (elm_filter g)) 0) g) ;;
     elm_write_ok) g.
Proof.
  unfold is_cmd. rewrite elm_dispatch_skip_spaces.
  generalize (skip_spaces line). intros s H. spell_clear H; reflexivity.
Qed.

(** X24.  Back to an open filter.  STFAC (or STFCA), in any spelling,
    empties the pass and the block table whatever they held, and ATCRA
    without an argument sets the AT rule to pattern 0, mask 0, which
    matches everything; both answer OK and the first leaves the AT rule
    alone.  After the two commands the filter test accepts every
    identifier other than 0. *)
Theorem clear_commands_pass_all (x : extern) (l1 l2 : string)
  (g : elm_globals_t) (id us : Z)
  (H1 : is_cmd l1 "STFAC" \/ is_cmd l1 "STFCA") (H2 : is_cmd l2 "ATCRA") :
  let r1 := elm_dispatch x l1 g in
  let r2 := elm_dispatch x l2 (fst r1) in
  output (snd r1) = (ELM_OK_PROMPT ++ ELM_NEWLINE g)%string /\
  output (snd r2) = (ELM_OK_PROMPT ++ ELM_NEWLINE g)%string /\
  stored_rules (pass_filter (fst r1)) = [] /\
  stored_rules (block_filter (fst r1)) = [] /\
  elm_filter (fst r1) = elm_filter g /\
  elm_filter (fst r2) = mk_filter 0 0 /\
  (elm_filter_test (fst r2) id us = true <-> id <> 0).
Proof.
  cbv zeta.
  rewrite (@elm_dispatch_STFAC x l1 g H1).
  rewrite (@elm_dispatch_ATCRA_alone x l2 _ H2).
  unfold clear_pass, clear_block, seq, assign, elm_write_ok, elm_newline,
    printf, emit, seq.
  cbn [fst snd app output pass_filter block_filter elm_filter
       set_pass_filter set_block_filter set_elm_filter pattern mask].
  split; [now rewrite string_app_nil_r|].
  split; [now rewrite string_app_nil_r|].
  split; [apply elm_filter_clear_stored|].
  split; [apply elm_filter_clear_stored|].
  split; [reflexivity|]. split; [reflexivity|].
  rewrite elm_filter_test_iff.
  cbn [pass_filter block_filter elm_filter
       set_pass_filter set_block_filter set_elm_filter].
  rewrite !elm_filter_clear_stored.
  unfold rule_matches. cbn [pattern mask]. rewrite Z.land_0_r.
  split; [tauto|]. intros Hid.
  split; [exact Hid|]. split; [reflexivity|]. split; [now left|].
  intros H. inversion H.
Qed.

Lemma clear_commands_pass_all_witness :
  let g := fst (elm_dispatch extern_ok "STFPA 7E8,7FF" (elm_init EmptyString)) in
  (is_cmd "stfac" "STFAC" \/ is_cmd "stfac" "STFCA") /\ is_cmd " ATCRA" "ATCRA" /\
  elm_filter_test g 306 0 = false /\
  elm_filter_test
    (fst (elm_dispatch extern_ok " ATCRA"
            (fst (elm_dispatch extern_ok "stfac" g)))) 306 0 = true.
Proof.
  cbv zeta.
  assert (H1 : is_cmd "stfac" "STFAC" \/ is_cmd "stfac" "STFCA")
    by (left; reflexivity).
  assert (H2 : is_cmd " ATCRA" "ATCRA") by reflexivity.
  split; [exact H1|]. split; [exact H2|]. split; [reflexivity|].
  destruct (@clear_commands_pass_all extern_ok "stfac" " ATCRA"
              (fst (elm_dispatch extern_ok "STFPA 7E8,7FF"
                      (elm_init EmptyString)))
              306 0 H1 H2) as (_ & _ & _ & _ & _ & _ & Hiff).
  apply Hiff. lia.
Defined.

